(** * Excel governance backend: ingestion, sessions, queries, retention, live feed

    A shallow embedding of the event pipeline of the backend
    ([services/event_service.py], [repositories/*.py],
    [services/background_service.py], [api/dashboard.py]) and the proofs of
    the properties its specification states about it.

    Conventions of the embedding:
    - a Python [datetime] is a wall-clock reading in microseconds together
      with an optional UTC offset ([tzinfo]); ordering a naive value against
      an aware one raises [TypeError], as in Python;
    - an [AsyncSession] is the pair of the committed tables and the tables as
      the open transaction sees them after its flushes;
    - code that can raise runs in the monad [M]: the session state is threaded
      through and survives an exception, as the Python objects do. *)

From Stdlib Require Import QArith Qcanon.
From stdpp Require Import gmap strings list fin_maps sorting pretty.

Local Open Scope string_scope.
Local Open Scope Z_scope.

(** ** Python values *)

Inductive exn : Type :=
  | TypeError
  | AttributeError (type_name : string)
  | ValueError
  | IntegrityError.

(** [str(e)] of the exceptions above. *)
Definition str_exn (e : exn) : string :=
  match e with
  | TypeError => "can't compare offset-naive and offset-aware datetimes"
  | AttributeError ty => "'" +:+ ty +:+ "' object has no attribute 'desc'"
  | ValueError => "range() arg 3 must not be zero"
  | IntegrityError => "UNIQUE constraint failed: audit_events.event_id"
  end.

Inductive outcome (A : Type) : Type :=
  | Return (a : A)
  | Raise (e : exn).
Arguments Return {A} a.
Arguments Raise {A} e.

(** *** datetime *)

Record datetime : Type := mkdatetime {
  wall : Z;              (* the date and time fields, in microseconds *)
  tzinfo : option Z      (* utcoffset in microseconds, None when naive *)
}.

#[global] Instance datetime_eq_dec : EqDecision datetime.
Proof. solve_decision. Defined.

Definition utc (t : Z) : datetime := {| wall := t; tzinfo := Some 0 |}.

(** [dt.replace(tzinfo=timezone.utc)] *)
Definition replace_tzinfo_utc (dt : datetime) : datetime :=
  {| wall := wall dt; tzinfo := Some 0 |}.

(** [ensure_timezone_aware] of [repositories/session_repository.py]; the
    validators of [models/schemas.py] have the same body. *)
Definition ensure_timezone_aware (dt : datetime) : datetime :=
  match tzinfo dt with
  | None => replace_tzinfo_utc dt
  | Some _ => dt
  end.

Definition is_aware (dt : datetime) : bool :=
  match tzinfo dt with Some _ => true | None => false end.

(** The point on the UTC time line that an aware value denotes; a naive value
    is read as UTC, which is what [ensure_timezone_aware] makes of it. *)
Definition instant (dt : datetime) : Z :=
  wall dt - default 0 (tzinfo dt).

(** [a < b] and [a > b] on datetimes. *)
Definition dt_lt (a b : datetime) : outcome bool :=
  match tzinfo a, tzinfo b with
  | None, None => Return (bool_decide (wall a < wall b))
  | Some oa, Some ob => Return (bool_decide (wall a - oa < wall b - ob))
  | _, _ => Raise TypeError
  end.

Definition dt_gt (a b : datetime) : outcome bool := dt_lt b a.

(** [dt + timedelta] and [dt - timedelta], the delta in microseconds. *)
Definition dt_add (dt : datetime) (delta : Z) : datetime :=
  {| wall := wall dt + delta; tzinfo := tzinfo dt |}.

Definition dt_sub (dt : datetime) (delta : Z) : datetime :=
  {| wall := wall dt - delta; tzinfo := tzinfo dt |}.

Definition timedelta_hours (h : Z) : Z := h * 3600 * 1000000.

(** Truthiness of an [Optional[str]]: [None] and the empty string are falsy. *)
Definition truthy_str (o : option string) : bool :=
  match o with
  | Some s => negb (String.eqb s "")
  | None => false
  end.

(** ** The data model ([models/database.py], [models/schemas.py]) *)

Inductive AuditEventType : Type :=
  | WORKBOOK_NEW | WORKBOOK_OPEN | WORKBOOK_CLOSE | WORKBOOK_SAVE
  | WORKBOOK_ACTIVATE | WORKBOOK_DEACTIVATE
  | CELL_CHANGE | SELECTION_CHANGE | SHEET_ADD | SHEET_DELETE
  | SHEET_RENAME | SHEET_ACTIVATE
  | SESSION_START | SESSION_END | ADDIN_LOAD | ADDIN_UNLOAD | ERROR.

#[global] Instance AuditEventType_eq_dec : EqDecision AuditEventType.
Proof. solve_decision. Defined.

Definition AuditEventType_value (t : AuditEventType) : Z :=
  match t with
  | WORKBOOK_NEW => 0 | WORKBOOK_OPEN => 1 | WORKBOOK_CLOSE => 2
  | WORKBOOK_SAVE => 3 | WORKBOOK_ACTIVATE => 4 | WORKBOOK_DEACTIVATE => 5
  | CELL_CHANGE => 6 | SELECTION_CHANGE => 7 | SHEET_ADD => 8
  | SHEET_DELETE => 9 | SHEET_RENAME => 10 | SHEET_ACTIVATE => 11
  | SESSION_START => 12 | SESSION_END => 13 | ADDIN_LOAD => 14
  | ADDIN_UNLOAD => 15 | ERROR => 16
  end.

Definition AuditEventType_name (t : AuditEventType) : string :=
  match t with
  | WORKBOOK_NEW => "WORKBOOK_NEW" | WORKBOOK_OPEN => "WORKBOOK_OPEN"
  | WORKBOOK_CLOSE => "WORKBOOK_CLOSE" | WORKBOOK_SAVE => "WORKBOOK_SAVE"
  | WORKBOOK_ACTIVATE => "WORKBOOK_ACTIVATE"
  | WORKBOOK_DEACTIVATE => "WORKBOOK_DEACTIVATE"
  | CELL_CHANGE => "CELL_CHANGE" | SELECTION_CHANGE => "SELECTION_CHANGE"
  | SHEET_ADD => "SHEET_ADD" | SHEET_DELETE => "SHEET_DELETE"
  | SHEET_RENAME => "SHEET_RENAME" | SHEET_ACTIVATE => "SHEET_ACTIVATE"
  | SESSION_START => "SESSION_START" | SESSION_END => "SESSION_END"
  | ADDIN_LOAD => "ADDIN_LOAD" | ADDIN_UNLOAD => "ADDIN_UNLOAD"
  | ERROR => "ERROR"
  end.

(** The schema [AuditEventCreate]: what a client submits. *)
Module AuditEventCreate.
Record t : Type := mk {
  event_id : N;
  timestamp : datetime;
  event_type : AuditEventType;
  user_name : option string;
  machine_name : option string;
  user_domain : option string;
  session_id : option string;
  workbook_name : option string;
  workbook_path : option string;
  sheet_name : option string;
  cell_address : option string;
  cell_count : option Z;
  old_value : option string;
  new_value : option string;
  formula : option string;
  details : option string;
  error_message : option string;
  correlation_id : option string
}.
End AuditEventCreate.

(** The table row [AuditEvent]. *)
Module AuditEvent.
Record t : Type := mk {
  event_id : N;
  timestamp : datetime;
  created_at : datetime;
  event_type : AuditEventType;
  user_name : option string;
  machine_name : option string;
  user_domain : option string;
  session_id : option string;
  workbook_name : option string;
  workbook_path : option string;
  sheet_name : option string;
  cell_address : option string;
  cell_count : option Z;
  old_value : option string;
  new_value : option string;
  formula : option string;
  details : option string;
  error_message : option string;
  correlation_id : option string
}.
End AuditEvent.

(** The table row [Session], keyed by [session_id].  The two columns the
    server maintains on its own ([created_at], [updated_at]) are read by none
    of the operations below and are left out. *)
Module Session.
Record t : Type := mk {
  session_id : string;
  user_name : option string;
  machine_name : option string;
  start_time : datetime;
  end_time : option datetime;
  event_count : Z
}.

Definition with_actor (u m : option string) (s : t) : t :=
  mk (session_id s) u m (start_time s) (end_time s) (event_count s).
Definition with_start_time (d : datetime) (s : t) : t :=
  mk (session_id s) (user_name s) (machine_name s) d (end_time s)
     (event_count s).
Definition with_end_time (d : datetime) (s : t) : t :=
  mk (session_id s) (user_name s) (machine_name s) (start_time s) (Some d)
     (event_count s).
Definition add_event_count (n : Z) (s : t) : t :=
  mk (session_id s) (user_name s) (machine_name s) (start_time s)
     (end_time s) (event_count s + n).
End Session.

(** ** The store and the session on it *)

Record Tables : Type := mkTables {
  audit_events : list AuditEvent.t;
  sessions : gmap string Session.t
}.

Record AsyncSession : Type := mkSession {
  committed : Tables;     (* what a commit has made durable *)
  flushed : Tables        (* what the open transaction sees *)
}.

Definition M (A : Type) : Type := AsyncSession → outcome A * AsyncSession.

#[global] Instance M_ret : MRet M := λ A a db, (Return a, db).
#[global] Instance M_bind : MBind M := λ A B f c db,
  match c db with
  | (Return a, db') => f a db'
  | (Raise e, db') => (Raise e, db')
  end.

Definition raise {A} (e : exn) : M A := λ db, (Raise e, db).
Definition lift {A} (o : outcome A) : M A := λ db, (o, db).

(** [try: c except Exception as e: h e] *)
Definition try_except {A} (c : M A) (h : exn → M A) : M A := λ db,
  match c db with
  | (Return a, db') => (Return a, db')
  | (Raise e, db') => h e db'
  end.

(** [for x in l: body x] *)
Fixpoint for_each {A} (l : list A) (body : A → M unit) : M unit :=
  match l with
  | [] => mret tt
  | x :: l' => body x ≫= λ _, for_each l' body
  end.

Definition commit : M unit := λ db,
  (Return tt, {| committed := flushed db; flushed := flushed db |}).

Definition rollback : M unit := λ db,
  (Return tt, {| committed := committed db; flushed := committed db |}).

Definition get_sessions : M (gmap string Session.t) := λ db,
  (Return (sessions (flushed db)), db).

Definition put_sessions (m : gmap string Session.t) : M unit := λ db,
  (Return tt,
   {| committed := committed db;
      flushed := {| audit_events := audit_events (flushed db);
                    sessions := m |} |}).

Definition get_events : M (list AuditEvent.t) := λ db,
  (Return (audit_events (flushed db)), db).

Definition put_events (l : list AuditEvent.t) : M unit := λ db,
  (Return tt,
   {| committed := committed db;
      flushed := {| audit_events := l;
                    sessions := sessions (flushed db) |} |}).

(** [async with db_manager.session() as session: c]
    ([infrastructure/database.py]): a fresh session on the store, committed
    when the body returns and rolled back when it raises. *)
Definition with_session {A} (c : M A) (store : Tables) : outcome A * Tables :=
  match c {| committed := store; flushed := store |} with
  | (Return a, db') => (Return a, flushed db')
  | (Raise e, db') => (Raise e, committed db')
  end.

(** ** [repositories/session_repository.py] *)

Module SessionRepository.

Definition upsert_session (session_id : string)
    (user_name machine_name : option string) (start_time : datetime)
    : M Session.t :=
  tbl ← get_sessions;
  match tbl !! session_id with
  | Some existing =>
      let existing := Session.with_actor user_name machine_name existing in
      let existing_start :=
        ensure_timezone_aware (Session.start_time existing) in
      let new_start := ensure_timezone_aware start_time in
      later ← lift (dt_gt existing_start new_start);
      let existing :=
        if later : bool then Session.with_start_time new_start existing
        else existing in
      put_sessions (<[session_id := existing]> tbl);;
      mret existing
  | None =>
      let start_time := ensure_timezone_aware start_time in
      let new_session :=
        Session.mk session_id user_name machine_name start_time None 0 in
      put_sessions (<[session_id := new_session]> tbl);;
      mret new_session
  end.

Definition end_session (session_id : string) (end_time : datetime)
    : M bool :=
  let end_time := ensure_timezone_aware end_time in
  tbl ← get_sessions;
  put_sessions (alter (Session.with_end_time end_time) session_id tbl);;
  commit;;
  mret (bool_decide (is_Some (tbl !! session_id))).

Definition increment_event_count (session_id : string) (increment : Z)
    : M unit :=
  tbl ← get_sessions;
  put_sessions (alter (Session.add_event_count increment) session_id tbl).

Definition get_by_id (session_id : string) : M (option Session.t) :=
  tbl ← get_sessions;
  mret (tbl !! session_id).

(** [ORDER BY start_time DESC] as the store orders timestamps. *)
Definition start_time_desc (a b : Session.t) : Prop :=
  instant (Session.start_time b) ≤ instant (Session.start_time a).

#[global] Instance start_time_desc_dec a b : Decision (start_time_desc a b).
Proof. unfold start_time_desc. apply _. Defined.

Definition get_active_sessions : M (list Session.t) :=
  tbl ← get_sessions;
  mret (merge_sort start_time_desc
          (filter (λ s, Session.end_time s = None)
                  (snd <$> map_to_list tbl))).

End SessionRepository.

(** ** [repositories/event_repository.py]: bulk insertion *)

#[global] Instance outcome_ret : MRet outcome := λ A a, Return a.
#[global] Instance outcome_bind : MBind outcome := λ A B f o,
  match o with
  | Return a => f a
  | Raise e => Raise e
  end.

Definition len {A} (l : list A) : Z := Z.of_nat (length l).

(** The slices [l[i:i + n]] for [i] in [range(0, len(l), n)], [n] positive. *)
Fixpoint chunks_aux {A} (fuel n : nat) (l : list A) : list (list A) :=
  match fuel with
  | O => []
  | S fuel' =>
      match l with
      | [] => []
      | _ => take n l :: chunks_aux fuel' n (drop n l)
      end
  end.

Definition chunks {A} (n : nat) (l : list A) : list (list A) :=
  chunks_aux (length l) n l.

(** [range(0, len(l), batch_size)] raises on a zero step and is empty on a
    negative one. *)
Definition range_chunks {A} (l : list A) (batch_size : Z)
    : outcome (list (list A)) :=
  if bool_decide (batch_size = 0) then Raise ValueError
  else if bool_decide (batch_size < 0) then Return []
  else Return (chunks (Z.to_nat batch_size) l).

Module EventRepository.

(** The row built from one [event_dict]; [created_at] is the server
    default. *)
Definition to_row (server_now : datetime) (event : AuditEventCreate.t)
    : AuditEvent.t :=
  AuditEvent.mk
    (AuditEventCreate.event_id event)
    (AuditEventCreate.timestamp event)
    server_now
    (AuditEventCreate.event_type event)
    (AuditEventCreate.user_name event)
    (AuditEventCreate.machine_name event)
    (AuditEventCreate.user_domain event)
    (AuditEventCreate.session_id event)
    (AuditEventCreate.workbook_name event)
    (AuditEventCreate.workbook_path event)
    (AuditEventCreate.sheet_name event)
    (AuditEventCreate.cell_address event)
    (AuditEventCreate.cell_count event)
    (AuditEventCreate.old_value event)
    (AuditEventCreate.new_value event)
    (AuditEventCreate.formula event)
    (AuditEventCreate.details event)
    (AuditEventCreate.error_message event)
    (AuditEventCreate.correlation_id event).

(** The primary key of [audit_events]: the new ids are pairwise distinct
    and none is in the table. *)
Definition primary_key_free (ids new_ids : list N) : Prop :=
  NoDup new_ids ∧ Forall (λ i, i ∉ ids) new_ids.

#[global] Instance primary_key_free_dec ids new_ids :
  Decision (primary_key_free ids new_ids).
Proof. unfold primary_key_free. apply _. Defined.

(** [session.add_all(...)] followed by [session.flush()]. *)
Definition add_all_flush (server_now : datetime)
    (batch : list AuditEventCreate.t) : M unit :=
  rows ← get_events;
  if bool_decide (primary_key_free (AuditEvent.event_id <$> rows)
                    (AuditEventCreate.event_id <$> batch))
  then put_events (rows ++ (to_row server_now <$> batch))
  else raise IntegrityError.

Fixpoint insert_batches (server_now : datetime)
    (batches : list (list AuditEventCreate.t)) (total_inserted : Z) : M Z :=
  match batches with
  | [] => mret total_inserted
  | batch :: rest =>
      add_all_flush server_now batch;;
      insert_batches server_now rest (total_inserted + len batch)
  end.

Definition bulk_create (server_now : datetime)
    (events : list AuditEventCreate.t) (batch_size : Z) : M Z :=
  match events with
  | [] => mret 0
  | _ =>
      try_except
        (batches ← lift (range_chunks events batch_size);
         total_inserted ← insert_batches server_now batches 0;
         commit;;
         mret total_inserted)
        (λ e, rollback;; raise e)
  end.

End EventRepository.

(** ** [services/event_service.py]: ingestion *)

Record Settings : Type := mkSettings {
  max_batch_size : Z;
  event_retention_days : Z
}.

Definition default_settings : Settings :=
  {| max_batch_size := 1000; event_retention_days := 90 |}.

Record BatchIngestResponse : Type := mkResponse {
  accepted : Z;
  rejected : Z;
  errors : list string;
  processing_time_ms : Qc
}.

(** The clock readings one ingestion makes: [datetime.now] on entry and on
    exit (microseconds), and the server time that stamps the rows. *)
Record Clock : Type := mkClock {
  started : Z;
  server_now : datetime;
  finished : Z
}.

(** The insertion-ordered [dict] of [_update_sessions]. *)
Definition session_info : Type := option string * option string * datetime.

Fixpoint dict_get {V} (k : string) (d : list (string * V)) : option V :=
  match d with
  | [] => None
  | (k', v) :: d' => if bool_decide (k' = k) then Some v else dict_get k d'
  end.

Fixpoint dict_set {V} (k : string) (v : V) (d : list (string * V))
    : list (string * V) :=
  match d with
  | [] => [(k, v)]
  | (k', v') :: d' =>
      if bool_decide (k' = k) then (k, v) :: d'
      else (k', v') :: dict_set k v d'
  end.

Module EventService.

Definition info_of (event : AuditEventCreate.t) : session_info :=
  (AuditEventCreate.user_name event,
   AuditEventCreate.machine_name event,
   AuditEventCreate.timestamp event).

(** One turn of the first loop of [_update_sessions]. *)
Definition collect_event (session_data : list (string * session_info))
    (event : AuditEventCreate.t) : outcome (list (string * session_info)) :=
  if truthy_str (AuditEventCreate.session_id event) then
    let sid := default "" (AuditEventCreate.session_id event) in
    match dict_get sid session_data with
    | None => Return (dict_set sid (info_of event) session_data)
    | Some (_, _, existing_time) =>
        earlier ← dt_lt (AuditEventCreate.timestamp event) existing_time;
        if earlier : bool
        then Return (dict_set sid (info_of event) session_data)
        else Return session_data
    end
  else Return session_data.

Fixpoint collect_sessions (events : list AuditEventCreate.t)
    (session_data : list (string * session_info))
    : outcome (list (string * session_info)) :=
  match events with
  | [] => Return session_data
  | event :: rest =>
      session_data' ← collect_event session_data event;
      collect_sessions rest session_data'
  end.

(** [sum(1 for e in events if e.session_id == session_id)] *)
Definition count_for (session_id : string)
    (events : list AuditEventCreate.t) : Z :=
  len (filter (λ e, AuditEventCreate.session_id e = Some session_id) events).

Definition upsert_and_count (events : list AuditEventCreate.t)
    (entry : string * session_info) : M unit :=
  let '(session_id, (user_name, machine_name, start_time)) := entry in
  SessionRepository.upsert_session session_id user_name machine_name
    start_time;;
  SessionRepository.increment_event_count session_id
    (count_for session_id events).

Definition _update_sessions (events : list AuditEventCreate.t) : M unit :=
  session_data ← lift (collect_sessions events []);
  for_each session_data (upsert_and_count events).

Definition size_error (n max : Z) : string :=
  "Batch size " +:+ pretty n +:+ " exceeds maximum " +:+ pretty max.

Definition track (track_sessions : bool)
    (events : list AuditEventCreate.t) : M unit :=
  if track_sessions then _update_sessions events else mret tt.

Definition ingest_batch (settings : Settings) (clock : Clock)
    (events : list AuditEventCreate.t) (track_sessions : bool)
    : M BatchIngestResponse :=
  try_except
    (if bool_decide (len events > max_batch_size settings) then
       mret {| accepted := 0;
               rejected := len events;
               errors := [size_error (len events)
                            (max_batch_size settings)];
               processing_time_ms := 0%Qc |}
     else
       track track_sessions events;;
       inserted ← EventRepository.bulk_create (server_now clock) events
                    (max_batch_size settings);
       mret {| accepted := inserted;
               rejected := 0;
               errors := [];
               processing_time_ms :=
                 Q2Qc ((finished clock - started clock) # 1000) |})
    (λ e,
       mret {| accepted := 0;
               rejected := len events;
               errors := [str_exn e];
               processing_time_ms :=
                 Q2Qc ((finished clock - started clock) # 1000) |}).

End EventService.

(** ** [repositories/event_repository.py]: queries *)

Record EventQueryRequest : Type := mkQuery {
  event_types : option (list AuditEventType);
  user_names : option (list string);
  session_ids : option (list string);
  workbook_names : option (list string);
  correlation_id : option string;
  start_time : option datetime;
  end_time : option datetime;
  offset : nat;           (* Field(0, ge=0) *)
  limit : nat;            (* Field(100, ge=1, le=1000) *)
  order_by : string;
  order_desc : bool
}.

(** The request with every field at its schema default. *)
Definition default_query : EventQueryRequest :=
  {| event_types := None; user_names := None; session_ids := None;
     workbook_names := None; correlation_id := None;
     start_time := None; end_time := None;
     offset := 0%nat; limit := 100%nat;
     order_by := "timestamp"; order_desc := true |}.

Definition with_page (offset limit : nat) (q : EventQueryRequest)
    : EventQueryRequest :=
  {| event_types := event_types q; user_names := user_names q;
     session_ids := session_ids q; workbook_names := workbook_names q;
     correlation_id := correlation_id q;
     start_time := start_time q; end_time := end_time q;
     offset := offset; limit := limit;
     order_by := order_by q; order_desc := order_desc q |}.

(** The mapped columns of [AuditEvent]. *)
Inductive column : Type :=
  | col_event_id | col_timestamp | col_created_at | col_event_type
  | col_user_name | col_machine_name | col_user_domain | col_session_id
  | col_workbook_name | col_workbook_path | col_sheet_name
  | col_cell_address | col_cell_count | col_old_value | col_new_value
  | col_formula | col_details | col_error_message | col_correlation_id.

(** What [getattr(AuditEvent, name)] finds: a mapped column, or some other
    object, of which only the type's name matters. *)
Inductive attribute : Type :=
  | Column (c : column)
  | Other (type_name : string).

(** A value as the store compares it. *)
Inductive sql_value : Type :=
  | SqlNull
  | SqlInt (z : Z)
  | SqlText (s : string).

Definition sql_text (o : option string) : sql_value :=
  match o with Some s => SqlText s | None => SqlNull end.

(** Ascending order of the store; NULL sorts first. *)
Definition sql_le (a b : sql_value) : Prop :=
  match a, b with
  | SqlNull, _ => True
  | _, SqlNull => False
  | SqlInt x, SqlInt y => x ≤ y
  | SqlInt _, SqlText _ => True
  | SqlText _, SqlInt _ => False
  | SqlText s, SqlText t => String.le s t
  end.

#[global] Instance sql_le_dec a b : Decision (sql_le a b).
Proof. destruct a, b; simpl; apply _. Defined.

Module EventQuery.

(** The attributes the class body of [AuditEvent] declares.  [inherited]
    stands for the attributes that come with the declarative base class and
    with [object], which the repository does not define: it gives the type
    name of each, and none is a column. *)
Definition getattr (inherited : string → option string) (name : string)
    : option attribute :=
  if String.eqb name "event_id" then Some (Column col_event_id)
  else if String.eqb name "timestamp" then Some (Column col_timestamp)
  else if String.eqb name "created_at" then Some (Column col_created_at)
  else if String.eqb name "event_type" then Some (Column col_event_type)
  else if String.eqb name "user_name" then Some (Column col_user_name)
  else if String.eqb name "machine_name" then Some (Column col_machine_name)
  else if String.eqb name "user_domain" then Some (Column col_user_domain)
  else if String.eqb name "session_id" then Some (Column col_session_id)
  else if String.eqb name "workbook_name"
    then Some (Column col_workbook_name)
  else if String.eqb name "workbook_path"
    then Some (Column col_workbook_path)
  else if String.eqb name "sheet_name" then Some (Column col_sheet_name)
  else if String.eqb name "cell_address" then Some (Column col_cell_address)
  else if String.eqb name "cell_count" then Some (Column col_cell_count)
  else if String.eqb name "old_value" then Some (Column col_old_value)
  else if String.eqb name "new_value" then Some (Column col_new_value)
  else if String.eqb name "formula" then Some (Column col_formula)
  else if String.eqb name "details" then Some (Column col_details)
  else if String.eqb name "error_message"
    then Some (Column col_error_message)
  else if String.eqb name "correlation_id"
    then Some (Column col_correlation_id)
  else if String.eqb name "__tablename__" then Some (Other "str")
  else if String.eqb name "__table_args__" then Some (Other "tuple")
  else if String.eqb name "__repr__" then Some (Other "function")
  else Other <$> inherited name.

Definition column_value (c : column) (e : AuditEvent.t) : sql_value :=
  match c with
  | col_event_id => SqlInt (Z.of_N (AuditEvent.event_id e))
  | col_timestamp => SqlInt (instant (AuditEvent.timestamp e))
  | col_created_at => SqlInt (instant (AuditEvent.created_at e))
  | col_event_type =>
      SqlText (AuditEventType_name (AuditEvent.event_type e))
  | col_user_name => sql_text (AuditEvent.user_name e)
  | col_machine_name => sql_text (AuditEvent.machine_name e)
  | col_user_domain => sql_text (AuditEvent.user_domain e)
  | col_session_id => sql_text (AuditEvent.session_id e)
  | col_workbook_name => sql_text (AuditEvent.workbook_name e)
  | col_workbook_path => sql_text (AuditEvent.workbook_path e)
  | col_sheet_name => sql_text (AuditEvent.sheet_name e)
  | col_cell_address => sql_text (AuditEvent.cell_address e)
  | col_cell_count =>
      match AuditEvent.cell_count e with
      | Some n => SqlInt n
      | None => SqlNull
      end
  | col_old_value => sql_text (AuditEvent.old_value e)
  | col_new_value => sql_text (AuditEvent.new_value e)
  | col_formula => sql_text (AuditEvent.formula e)
  | col_details => sql_text (AuditEvent.details e)
  | col_error_message => sql_text (AuditEvent.error_message e)
  | col_correlation_id => sql_text (AuditEvent.correlation_id e)
  end.

Definition asc (c : column) (a b : AuditEvent.t) : Prop :=
  sql_le (column_value c a) (column_value c b).
Definition desc (c : column) (a b : AuditEvent.t) : Prop := asc c b a.

#[global] Instance asc_dec c a b : Decision (asc c a b).
Proof. unfold asc. apply _. Defined.
#[global] Instance desc_dec c a b : Decision (desc c a b).
Proof. unfold desc. apply _. Defined.

(** [stmt.order_by(column.desc())] and [stmt.order_by(column.asc())] *)
Definition sort_rows (c : column) (descending : bool)
    (rows : list AuditEvent.t) : list AuditEvent.t :=
  if descending then merge_sort (desc c) rows
  else merge_sort (asc c) rows.

(** [column.in_(values)]: a NULL is in no list. *)
Definition text_in (o : option string) (values : list string) : bool :=
  match o with
  | Some s => bool_decide (s ∈ values)
  | None => false
  end.

(** A filter the request leaves unset, or sets to an empty list, adds no
    condition. *)
Definition list_filter {A} (o : option (list A)) (p : list A → bool)
    : bool :=
  match o with
  | Some (x :: l) => p (x :: l)
  | _ => true
  end.

Definition matches (q : EventQueryRequest) (e : AuditEvent.t) : bool :=
  list_filter (event_types q)
    (λ l, bool_decide (AuditEvent.event_type e ∈ l))
  && list_filter (user_names q) (text_in (AuditEvent.user_name e))
  && list_filter (session_ids q) (text_in (AuditEvent.session_id e))
  && list_filter (workbook_names q) (text_in (AuditEvent.workbook_name e))
  && (if truthy_str (correlation_id q)
      then bool_decide (AuditEvent.correlation_id e = correlation_id q)
      else true)
  && match start_time q with
     | Some t => bool_decide (instant t ≤ instant (AuditEvent.timestamp e))
     | None => true
     end
  && match end_time q with
     | Some t => bool_decide (instant (AuditEvent.timestamp e) ≤ instant t)
     | None => true
     end.

(** [getattr(AuditEvent, order_by, AuditEvent.timestamp)] followed by
    [.desc()] or [.asc()] on what it returns. *)
Definition order_column (inherited : string → option string)
    (order_by : string) : outcome column :=
  match default (Column col_timestamp) (getattr inherited order_by) with
  | Column c => Return c
  | Other type_name => Raise (AttributeError type_name)
  end.

Definition query_events (inherited : string → option string)
    (q : EventQueryRequest) : M (list AuditEvent.t * Z) :=
  rows ← get_events;
  let selected := filter (λ e, matches q e = true) rows in
  let total_count := len selected in
  c ← lift (order_column inherited (order_by q));
  let events :=
    take (limit q) (drop (offset q) (sort_rows c (order_desc q) selected)) in
  mret (events, total_count).

End EventQuery.

(** ** Retention ([delete_old_events], [cleanup_old_events]) *)

Module Retention.

Definition expired (before_date : datetime) (e : AuditEvent.t) : Prop :=
  instant (AuditEvent.timestamp e) < instant before_date.

#[global] Instance expired_dec d e : Decision (expired d e).
Proof. unfold expired. apply _. Defined.

(** A delete that stops after [n] rows: the first [n] that match. *)
Fixpoint delete_first (n : nat) (before_date : datetime)
    (rows : list AuditEvent.t) : list AuditEvent.t :=
  match n, rows with
  | O, _ => rows
  | _, [] => []
  | S n', e :: rows' =>
      if decide (expired before_date e)
      then delete_first n' before_date rows'
      else e :: delete_first (S n') before_date rows'
  end.

(** One execution of the delete statement; the result is its [rowcount].
    [has_limit] is the test [hasattr(stmt, 'limit')] of the source.  The
    delete construct of the query library has no [limit], so the test is
    false and the statement is executed as it is: [has_limit = false] is
    the branch the code takes.  The other branch is what the source asks
    for when the test holds, a statement limited to [batch_size] rows. *)
Definition remaining (has_limit : bool) (before_date : datetime)
    (batch_size : Z) (rows : list AuditEvent.t) : list AuditEvent.t :=
  if has_limit then delete_first (Z.to_nat batch_size) before_date rows
  else filter (λ e, ¬ expired before_date e) rows.

Definition delete_statement (has_limit : bool) (before_date : datetime)
    (batch_size : Z) : M Z :=
  rows ← get_events;
  let rows' := remaining has_limit before_date batch_size rows in
  put_events rows';;
  mret (len rows - len rows').

(** The [while True] loop; [None] when the fuel runs out first. *)
Fixpoint delete_loop (fuel : nat) (has_limit : bool)
    (before_date : datetime) (batch_size total_deleted : Z)
    : M (option Z) :=
  match fuel with
  | O => mret None
  | S fuel' =>
      deleted_count ← delete_statement has_limit before_date batch_size;
      let total_deleted := total_deleted + deleted_count in
      commit;;
      if bool_decide (deleted_count < batch_size)
      then mret (Some total_deleted)
      else delete_loop fuel' has_limit before_date batch_size total_deleted
  end.

Definition delete_old_events (fuel : nat) (has_limit : bool)
    (before_date : datetime) (batch_size : Z) : M (option Z) :=
  try_except (delete_loop fuel has_limit before_date batch_size 0)
    (λ e, rollback;; raise e).

Definition default_batch_size : Z := 1000.


End Retention.

(** ** The stale-session reaper ([services/background_service.py]) *)

Module BackgroundService.

Fixpoint close_loop (active_sessions : list Session.t)
    (cutoff_time : datetime) (closed_count : Z) : M Z :=
  match active_sessions with
  | [] => mret closed_count
  | sess :: rest =>
      stale ← lift (dt_lt (Session.start_time sess) cutoff_time);
      if stale : bool then
        let estimated_end :=
          dt_add (Session.start_time sess) (timedelta_hours 24) in
        SessionRepository.end_session (Session.session_id sess)
          estimated_end;;
        close_loop rest cutoff_time (closed_count + 1)
      else close_loop rest cutoff_time closed_count
  end.

Definition close_stale (now : Z) : M Z :=
  active_sessions ← SessionRepository.get_active_sessions;
  let cutoff_time := dt_sub (utc now) (timedelta_hours 24) in
  closed_count ← close_loop active_sessions cutoff_time 0;
  commit;;
  mret closed_count.

(** One tick: the body runs in a session of its own, and an exception is
    logged and swallowed.  The result is the store after the tick and what
    the tick logged. *)
Definition _close_stale_sessions (now : Z) (store : Tables)
    : outcome Z * Tables :=
  with_session (close_stale now) store.

End BackgroundService.

(** ** The live feed ([api/dashboard.py]) *)

Module Dashboard.

(** The dict [_serialize_event] builds, as far as the feed reads it: the
    row it renders, the aware datetime its ["timestamp"] string spells
    ([isoformat], read back by [fromisoformat]), and the name and version
    of the model the row is linked to. *)
Record event_dict : Type := mkDict {
  row : AuditEvent.t;
  timestamp_iso : datetime;
  model_name : option string;
  model_version : option Z
}.

Definition fromisoformat (d : event_dict) : datetime := timestamp_iso d.

Inductive message_type : Type := initial | update.

Record message (Metrics : Type) : Type := mkMessage {
  type : message_type;
  metrics : Metrics;
  events : list event_dict
}.
Arguments mkMessage {Metrics} type metrics events.
Arguments type {Metrics} m.
Arguments metrics {Metrics} m.
Arguments events {Metrics} m.

(** The watermark after a query: the first dict's timestamp, when there is
    one. *)
Definition advance (last_sent_timestamp : option datetime)
    (sent : list event_dict) : option datetime :=
  match sent with
  | d :: _ => Some (fromisoformat d)
  | [] => last_sent_timestamp
  end.

(** A statement that reads the tables of the session. *)
Definition execute {A} (stmt : Tables → outcome A) : M A := λ db,
  (stmt (flushed db), db).

Section declarations.
Context {Metrics : Type}.

(** The module reads an attribute [model_id] of an event and selects from a
    table [RegisteredModel]; [models/database.py] declares neither.  Both
    are parameters: [model_id] is what reading [event.model_id] gives, an
    [AttributeError] where the class has no such attribute, and
    [select_models] is the select of id, name and version of the models
    whose id is in a set.  [get_metrics_data] counts over that table too
    and asks the file system for the size of the database: what it returns
    is the third parameter. *)
Variable model_id : AuditEvent.t → outcome (option string).
Variable select_models :
  Tables → list string → outcome (list (string * (string * Z))).
Variable get_metrics_data : Tables → outcome Metrics.

Definition _get_model_info_map (events : list AuditEvent.t)
    : M (gmap string (string * Z)) :=
  ids ← lift (mapM model_id events);
  let model_ids :=
    remove_dups (omap (λ i, if truthy_str i then i else None) ids) in
  match model_ids with
  | [] => mret ∅
  | _ =>
      result ← execute (λ tables, select_models tables model_ids);
      mret (foldl (λ d r, <[r.1 := r.2]> d) ∅ result)
  end.

Definition _serialize_event (event : AuditEvent.t)
    (model_info_map : gmap string (string * Z)) : outcome event_dict :=
  event_model_id ← model_id event;
  let model_info :=
    if truthy_str event_model_id
    then event_model_id ≫= λ i, model_info_map !! i
    else None in
  mret {| row := event;
          timestamp_iso :=
            match tzinfo (AuditEvent.timestamp event) with
            | None => replace_tzinfo_utc (AuditEvent.timestamp event)
            | Some _ => AuditEvent.timestamp event
            end;
          model_name := fst <$> model_info;
          model_version := snd <$> model_info |}.

Definition get_events_since (since_timestamp : option datetime)
    (limit : nat) : M (list event_dict) :=
  rows ← get_events;
  let selected :=
    match since_timestamp with
    | Some since_timestamp =>
        let since_timestamp := ensure_timezone_aware since_timestamp in
        filter (λ e, instant since_timestamp
                     < instant (AuditEvent.timestamp e)) rows
    | None => rows
    end in
  let events :=
    take limit (EventQuery.sort_rows col_timestamp true selected) in
  model_name_map ← _get_model_info_map events;
  lift (mapM (λ event, _serialize_event event model_name_map) events).

(** The opening of [websocket_endpoint]: the initial message and the first
    watermark.  An exception ends the connection before anything is
    sent. *)
Definition open_feed (store : Tables)
    : outcome (message Metrics * option datetime) :=
  (with_session
     (initial_events ← get_events_since None 50;
      initial_metrics ← execute get_metrics_data;
      mret ({| type := initial; metrics := initial_metrics;
               events := initial_events |},
            advance None initial_events))
     store).1.

(** One turn of the polling loop on the store as it is at that moment: the
    update sent, if any, and the watermark afterwards.  An exception ends
    the connection. *)
Definition poll (store : Tables) (last_sent_timestamp : option datetime)
    : outcome (option (message Metrics) * option datetime) :=
  (with_session
     (new_events ← get_events_since last_sent_timestamp 50;
      match new_events with
      | _ :: _ =>
          let last_sent_timestamp :=
            advance last_sent_timestamp new_events in
          updated_metrics ← execute get_metrics_data;
          mret (Some {| type := update; metrics := updated_metrics;
                        events := new_events |},
                last_sent_timestamp)
      | [] => mret (None, last_sent_timestamp)
      end)
     store).1.

(** The loop over the successive states of the store, one per turn, until
    a turn raises; the result lists, turn by turn, what was sent and the
    watermark after. *)
Fixpoint poll_loop (stores : list Tables)
    (last_sent_timestamp : option datetime)
    : list (option (message Metrics) * option datetime) :=
  match stores with
  | [] => []
  | store :: rest =>
      match poll store last_sent_timestamp with
      | Return r => r :: poll_loop rest (snd r)
      | Raise _ => []
      end
  end.

(** The initial message, if it was sent, and the turns of the loop. *)
Definition websocket_endpoint (store : Tables) (stores : list Tables)
    : option (message Metrics)
      * list (option (message Metrics) * option datetime) :=
  match open_feed store with
  | Return (first, last_sent_timestamp) =>
      (Some first, poll_loop stores last_sent_timestamp)
  | Raise _ => (None, [])
  end.

End declarations.

End Dashboard.

(** ** Drivers and sample data *)


(** The earliest instant after a run of calls, folded as they are made. *)
Definition earliest (start : Z)
    (calls : list (option string * option string * datetime)) : Z :=
  foldl (λ acc c, Z.min acc (instant c.2)) start calls.

Module Sample.

Definition empty_store : Tables :=
  {| audit_events := []; sessions := ∅ |}.

Definition fresh (store : Tables) : AsyncSession :=
  {| committed := store; flushed := store |}.

Definition clock : Clock :=
  {| started := 1000; server_now := utc 1500; finished := 4000 |}.

(** A cell change with the given id, time, session and actor. *)
Definition event (id : N) (t : datetime) (sid user machine : option string)
    : AuditEventCreate.t :=
  AuditEventCreate.mk id t CELL_CHANGE user machine None sid
    None None None None None None None None None None None.

Definition stored (id : N) (t : datetime) (sid : option string)
    : AuditEvent.t :=
  EventRepository.to_row (utc 0) (event id t sid None None).


Definition three_events : AsyncSession :=
  fresh {| audit_events := [stored 1 (utc 10) None;
                            stored 2 (utc 30) None;
                            stored 3 (utc 20) None];
           sessions := ∅ |}.

End Sample.

Definition with_order (order_by : string) (order_desc : bool)
    (q : EventQueryRequest) : EventQueryRequest :=
  {| event_types := event_types q; user_names := user_names q;
     session_ids := session_ids q; workbook_names := workbook_names q;
     correlation_id := correlation_id q;
     start_time := start_time q; end_time := end_time q;
     offset := offset q; limit := limit q;
     order_by := order_by; order_desc := order_desc |}.

(** The rows of the table a request selects. *)
Definition selected (q : EventQueryRequest) (db : AsyncSession)
    : list AuditEvent.t :=
  filter (λ e, EventQuery.matches q e = true) (audit_events (flushed db)).

(** ** Notions the properties are stated with *)

Definition ts (e : AuditEventCreate.t) : Z :=
  instant (AuditEventCreate.timestamp e).

Definition in_session (sid : string) (e : AuditEventCreate.t) : Prop :=
  AuditEventCreate.session_id e = Some sid.

#[global] Instance in_session_dec sid e : Decision (in_session sid e).
Proof. unfold in_session. apply _. Defined.

(** [e] is the first event of session [sid] in the batch that bears the
    earliest timestamp of the session: every event of the session before it
    is strictly later, every one after it is not earlier. *)
Definition first_earliest (sid : string) (events : list AuditEventCreate.t)
    (e : AuditEventCreate.t) : Prop :=
  ∃ pre post,
    events = (pre ++ e :: post)%list
    ∧ in_session sid e
    ∧ (∀ e', e' ∈ pre → in_session sid e' → ts e < ts e')
    ∧ (∀ e', e' ∈ post → in_session sid e' → ts e ≤ ts e').

(** Following the specification's words, "the latest [user_name] and
    [machine_name] seen" among the events of a session in the batch: the
    actor of the last of them. *)
Definition latest_actor (sid : string) (events : list AuditEventCreate.t)
    : option (option string * option string) :=
  (λ e, (AuditEventCreate.user_name e, AuditEventCreate.machine_name e))
    <$> last (filter (in_session sid) events).

(** The events of a batch that carry a session id. *)
Definition with_session_id (events : list AuditEventCreate.t)
    : list AuditEventCreate.t :=
  filter (λ e, truthy_str (AuditEventCreate.session_id e) = true) events.

(** The event count of a session in the table, 0 when it has no row. *)
Definition count_of (tbl : gmap string Session.t) (sid : string) : Z :=
  from_option Session.event_count 0 (tbl !! sid).

Fixpoint sum_Z (l : list Z) : Z :=
  match l with
  | [] => 0
  | x :: l' => x + sum_Z l'
  end.

(** The increments the second loop of [_update_sessions] applies, one per
    entry of the dict. *)
Definition increments (events : list AuditEventCreate.t)
    (session_data : list (string * session_info)) : list Z :=
  (λ sid, EventService.count_for sid events) <$> session_data.*1.

Definition aware_event (e : AuditEventCreate.t) : Prop :=
  is_aware (AuditEventCreate.timestamp e) = true.

(** What the dict holds once the events [processed] have been read. *)
Definition aggregated (processed : list AuditEventCreate.t)
    (d : list (string * session_info)) : Prop :=
  ∀ sid info, dict_get sid d = Some info →
    ∃ e, info = EventService.info_of e ∧ first_earliest sid processed e.

Definition keyed (processed : list AuditEventCreate.t)
    (d : list (string * session_info)) : Prop :=
  ∀ sid, sid ∈ d.*1
         ↔ sid ≠ "" ∧ ∃ e, e ∈ processed ∧ in_session sid e.


(** Computations that leave alone what is committed, or the session rows
    of the transaction. *)
Definition keeps_committed {A} (c : M A) : Prop :=
  ∀ db r db', c db = (r, db') → committed db' = committed db.

Definition keeps_sessions {A} (c : M A) : Prop :=
  ∀ db r db', c db = (r, db') →
    sessions (flushed db') = sessions (flushed db).


(** The rows a cutoff condemns, and those it spares. *)
Definition expired_count (d : datetime) (rows : list AuditEvent.t) : nat :=
  length (filter (Retention.expired d) rows).

Definition kept (d : datetime) (rows : list AuditEvent.t)
    : list AuditEvent.t :=
  filter (λ e, ¬ Retention.expired d e) rows.

(** A table of [n] rows, all stamped at time 0, with ids 0 to [n - 1]. *)
Definition old_rows (n : nat) : list AuditEvent.t :=
  (λ i, Sample.stored (N.of_nat i) (utc 0) None) <$> seq 0 n.

(** The instant a dict of the feed carries, and what a turn delivered. *)
Definition stamp (d : Dashboard.event_dict) : Z :=
  instant (Dashboard.timestamp_iso d).

(** A dict renders a row when it carries the row and its instant. *)
Definition renders (e : AuditEvent.t) (d : Dashboard.event_dict) : Prop :=
  Dashboard.row d = e ∧ stamp d = instant (AuditEvent.timestamp e).

Definition delivered {Metrics : Type}
    (r : option (Dashboard.message Metrics) * option datetime)
    : list Dashboard.event_dict :=
  from_option Dashboard.events [] r.1.

(** Two ways to fill in what [models/database.py] leaves undeclared.  In
    the first every event has a [model_id], NULL, the table of models is
    empty and the metrics are computed; in the second the class is as the
    file declares it, without the attribute. *)
Definition declared_model_id (e : AuditEvent.t) : outcome (option string) :=
  Return None.

Definition undeclared_model_id (e : AuditEvent.t)
    : outcome (option string) :=
  Raise (AttributeError "AuditEvent").

Definition no_models (tables : Tables) (model_ids : list string)
    : outcome (list (string * (string * Z))) :=
  Return [].

Definition no_metrics (tables : Tables) : outcome unit := Return tt.

(** The rendering of a row that is linked to no model. *)
Definition plain_dict (e : AuditEvent.t) : Dashboard.event_dict :=
  {| Dashboard.row := e;
     Dashboard.timestamp_iso := ensure_timezone_aware (AuditEvent.timestamp e);
     Dashboard.model_name := None;
     Dashboard.model_version := None |}.

(** The rows a poll selects: those after the watermark, newest first. *)
Definition newer (since : option datetime) (rows : list AuditEvent.t)
    : list AuditEvent.t :=
  EventQuery.sort_rows col_timestamp true
    match since with
    | Some since =>
        filter (λ e, instant (ensure_timezone_aware since)
                     < instant (AuditEvent.timestamp e)) rows
    | None => rows
    end.

(** The reaper, row by row: what one tick at [now] makes of a session. *)
Definition close (s : Session.t) : Session.t :=
  Session.with_end_time
    (dt_add (Session.start_time s) (timedelta_hours 24)) s.

Definition reap (now : Z) (s : Session.t) : Session.t :=
  if bool_decide (Session.end_time s = None
                  ∧ instant (Session.start_time s)
                    < now - timedelta_hours 24)
  then close s else s.

(** The update one turn of [close_loop] makes to the session table. *)
Definition close_step (cutoff_time : datetime)
    (tbl : gmap string Session.t) (sess : Session.t)
    : gmap string Session.t :=
  if bool_decide (instant (Session.start_time sess) < instant cutoff_time)
  then alter (Session.with_end_time
                (ensure_timezone_aware
                   (dt_add (Session.start_time sess) (timedelta_hours 24))))
         (Session.session_id sess) tbl
  else tbl.

(** A store as the reaper meets it when the database hands timestamps back
    without a time zone: one active session, started at 0. *)
Definition naive_store : Tables :=
  {| audit_events := [];
     sessions :=
       {[ "s1" := Session.mk "s1" (Some "ann") (Some "pc1")
                    {| wall := 0; tzinfo := None |} None 3 ]} |}.

Definition aware_store : Tables :=
  {| audit_events := [];
     sessions :=
       {[ "s1" := Session.mk "s1" (Some "ann") (Some "pc1") (utc 0) None 3 ]}
  |}.

(** * Further code of the repositories, the services and the API *)

(** [Result.scalar_one_or_none()]: no row, the one row, or an error when the
    statement returns several. *)
Inductive scalar (A : Type) : Type :=
| NoRow
| OneRow (a : A)
| MultipleResultsFound.
Arguments NoRow {A}.
Arguments OneRow {A} a.
Arguments MultipleResultsFound {A}.

Definition scalar_one_or_none {A} (rows : list A) : scalar A :=
match rows with
| [] => NoRow
| [a] => OneRow a
| _ => MultipleResultsFound
end.

(** ** [repositories/event_repository.py]: the other reads *)

Module EventReads.

Definition get_by_id (event_id : N) : M (scalar AuditEvent.t) :=
rows ← get_events;
mret (scalar_one_or_none
        (filter (λ e, AuditEvent.event_id e = event_id) rows)).

Definition get_events_by_session (session_id : string) (limit : nat)
    : M (list AuditEvent.t) :=
rows ← get_events;
mret (take limit
        (EventQuery.sort_rows col_timestamp true
           (filter (λ e, AuditEvent.session_id e = Some session_id) rows))).

(** The optional bounds are tested for truth, and a datetime is never
    falsy: a bound is applied whenever it is given. *)
Definition in_range (workbook_name : string)
    (start_time end_time : option datetime) (e : AuditEvent.t) : Prop :=
AuditEvent.workbook_name e = Some workbook_name
∧ match start_time with
  | Some t => instant t ≤ instant (AuditEvent.timestamp e)
  | None => True
  end
∧ match end_time with
  | Some t => instant (AuditEvent.timestamp e) ≤ instant t
  | None => True
  end.

#[global] Instance in_range_dec w s t e : Decision (in_range w s t e).
Proof. unfold in_range. destruct s, t; apply _. Defined.

Definition get_events_by_workbook (workbook_name : string)
    (start_time end_time : option datetime) (limit : nat)
    : M (list AuditEvent.t) :=
rows ← get_events;
mret (take limit
        (EventQuery.sort_rows col_timestamp true
           (filter (in_range workbook_name start_time end_time) rows))).

(** The result of [get_statistics]; [events_by_type] lists the groups of
    the [GROUP BY], keyed by the type itself instead of its [str]. *)
Record statistics : Type := mkStatistics {
  period_start : datetime;
  period_end : datetime;
  total_events : Z;
  events_by_type : list (AuditEventType * Z);
  unique_users : Z;
  unique_sessions : Z;
  unique_workbooks : Z
}.

Definition in_period (start_time end_time : datetime) (e : AuditEvent.t)
    : Prop :=
instant start_time ≤ instant (AuditEvent.timestamp e)
∧ instant (AuditEvent.timestamp e) ≤ instant end_time.

#[global] Instance in_period_dec s t e : Decision (in_period s t e).
Proof. unfold in_period. apply _. Defined.

(** [COUNT(DISTINCT column)]: the NULLs are not counted. *)
Definition count_distinct {A} `{EqDecision A} (column : list (option A))
    : Z :=
len (remove_dups (omap id column)).

Definition get_statistics (start_time end_time : datetime) : M statistics :=
rows ← get_events;
let period := filter (in_period start_time end_time) rows in
mret {| period_start := start_time;
        period_end := end_time;
        total_events := len period;
        events_by_type :=
          (λ t, (t, len (filter (λ e, AuditEvent.event_type e = t) period)))
            <$> remove_dups (AuditEvent.event_type <$> period);
        unique_users := count_distinct (AuditEvent.user_name <$> period);
        unique_sessions := count_distinct (AuditEvent.session_id <$> period);
        unique_workbooks :=
          count_distinct
            (AuditEvent.workbook_name
               <$> filter (λ e, AuditEvent.workbook_name e ≠ None) period)
     |}.

End EventReads.

(** ** [services/event_service.py]: the other operations *)

Module EventReadService.

(** [AuditEventResponse.model_validate(event)]: the response has the
    fields of the row, its timestamp passed through the validator. *)
Definition model_validate (e : AuditEvent.t) : AuditEvent.t :=
AuditEvent.mk
  (AuditEvent.event_id e)
  (ensure_timezone_aware (AuditEvent.timestamp e))
  (AuditEvent.created_at e)
  (AuditEvent.event_type e)
  (AuditEvent.user_name e)
  (AuditEvent.machine_name e)
  (AuditEvent.user_domain e)
  (AuditEvent.session_id e)
  (AuditEvent.workbook_name e)
  (AuditEvent.workbook_path e)
  (AuditEvent.sheet_name e)
  (AuditEvent.cell_address e)
  (AuditEvent.cell_count e)
  (AuditEvent.old_value e)
  (AuditEvent.new_value e)
  (AuditEvent.formula e)
  (AuditEvent.details e)
  (AuditEvent.error_message e)
  (AuditEvent.correlation_id e).

(** [get_event]; the third case is the exception of the repository. *)
Definition get_event (event_id : N) : M (scalar AuditEvent.t) :=
event ← EventReads.get_by_id event_id;
mret match event with
     | OneRow e => OneRow (model_validate e)
     | NoRow => NoRow
     | MultipleResultsFound => MultipleResultsFound
     end.

Record EventQueryResponse : Type := mkQueryResponse {
  total : Z;
  response_offset : nat;
  response_limit : nat;
  response_events : list AuditEvent.t
}.

Definition query_events (inherited : string → option string)
    (query_params : EventQueryRequest) : M EventQueryResponse :=
result ← EventQuery.query_events inherited query_params;
mret {| total := result.2;
        response_offset := offset query_params;
        response_limit := limit query_params;
        response_events := model_validate <$> result.1 |}.

(** [get_statistics]: the window defaults to the 24 hours before [now]. *)
Definition get_statistics (now : Z) (start_time end_time : option datetime)
    : M EventReads.statistics :=
let end_time := default (utc now) end_time in
let start_time := default (dt_sub end_time (timedelta_hours 24)) start_time in
EventReads.get_statistics start_time end_time.

End EventReadService.

(** ** [api/events.py]: the ingestion endpoint *)

(** [ingest_events]: the service runs in the session that [get_session]
    provides, committed when the handler returns. *)
Definition ingest_events (settings : Settings) (clock : Clock)
    (events : list AuditEventCreate.t) (store : Tables)
    : outcome BatchIngestResponse * Tables :=
with_session (EventService.ingest_batch settings clock events true) store.

(** ** [api/dashboard.py]: [truncate_value] *)

Definition truncate_value (value : option string) (max_length : nat)
    : option string :=
match value with
| None => None
| Some value =>
    if bool_decide (String.length value ≤ max_length)%nat then Some value
    else Some (String.substring 0 max_length value +:+ "...")
end.

(** ** Notions the further properties are stated with *)

Definition event_ids (t : Tables) : list N :=
AuditEvent.event_id <$> audit_events t.

(** A store is well formed when no event id occurs twice and every session
    row sits under its own id. *)
Definition well_formed (t : Tables) : Prop :=
NoDup (event_ids t)
∧ ∀ sid s, sessions t !! sid = Some s → Session.session_id s = sid.

Definition keeps_events {A} (c : M A) : Prop :=
∀ db r db', c db = (r, db') →
  audit_events (flushed db') = audit_events (flushed db).

(** The session rows of an open, stale session. *)
Definition open_and_stale (now : Z) (s : Session.t) : Prop :=
Session.end_time s = None
∧ instant (Session.start_time s) < now - timedelta_hours 24.

(** A computation that keeps both tables of the session well formed. *)
Definition keeps_well_formed {A} (c : M A) : Prop :=
∀ db r db', c db = (r, db') →
  well_formed (committed db) → well_formed (flushed db) →
  well_formed (committed db') ∧ well_formed (flushed db').

(** What [upsert_session] makes of a row that exists. *)
Definition upsert_row (user_name machine_name : option string)
    (start_time : datetime) (s : Session.t) : Session.t :=
if bool_decide (instant start_time < instant (Session.start_time s))
then Session.with_start_time (ensure_timezone_aware start_time)
       (Session.with_actor user_name machine_name s)
else Session.with_actor user_name machine_name s.


(** What one tick of the reaper at [now] may make of a session row: nothing,
    or, of an open and stale one, the row closed 24 hours after its start. *)
Definition reaped (now : Z) (s s' : Session.t) : Prop :=
s' = s ∨ (open_and_stale now s ∧ s' = close s).

(** A store the reaper may leave behind when it starts from [store]. *)
Definition reaped_store (now : Z) (store t : Tables) : Prop :=
audit_events t = audit_events store
∧ ∀ sid, option_Forall2 (reaped now) (sessions store !! sid)
           (sessions t !! sid).

(** The rows a query of the feed selects: all of them without a watermark,
    those strictly after it with one. *)
Definition after_watermark (w : option datetime) (e : AuditEvent.t) : Prop :=
match w with
| Some w0 => instant w0 < instant (AuditEvent.timestamp e)
| None => True
end.

#[global] Instance after_watermark_dec w e : Decision (after_watermark w e).
Proof. destruct w; simpl; apply _. Defined.

(** What the stores keep of a submitted value.  The default store keeps the
    date and time fields of a datetime without its offset, and integers of
    64 bits: an event is kept as it is submitted when its timestamp is in
    UTC and its cell count fits. *)
Definition storable (e : AuditEventCreate.t) : Prop :=
tzinfo (AuditEventCreate.timestamp e) = Some 0
∧ match AuditEventCreate.cell_count e with
  | Some n => - 2 ^ 63 ≤ n < 2 ^ 63
  | None => True
  end.

(** The fields of a row that the client submitted. *)
Definition submitted (r : AuditEvent.t) : AuditEventCreate.t :=
AuditEventCreate.mk
  (AuditEvent.event_id r)
  (AuditEvent.timestamp r)
  (AuditEvent.event_type r)
  (AuditEvent.user_name r)
  (AuditEvent.machine_name r)
  (AuditEvent.user_domain r)
  (AuditEvent.session_id r)
  (AuditEvent.workbook_name r)
  (AuditEvent.workbook_path r)
  (AuditEvent.sheet_name r)
  (AuditEvent.cell_address r)
  (AuditEvent.cell_count r)
  (AuditEvent.old_value r)
  (AuditEvent.new_value r)
  (AuditEvent.formula r)
  (AuditEvent.details r)
  (AuditEvent.error_message r)
  (AuditEvent.correlation_id r).

(** * Properties *)

(** ** Running the monad *)

Ltac run :=
  cbv [mbind M_bind mret M_ret outcome_bind outcome_ret lift raise
       try_except get_sessions put_sessions get_events put_events
       commit rollback]; simpl.

Lemma keeps_committed_ret {A} (a : A) : keeps_committed (mret a).
Proof. intros db r db' H. inversion H. done. Qed.

Lemma keeps_committed_lift {A} (o : outcome A) : keeps_committed (lift o).
Proof. intros db r db' H. inversion H. done. Qed.

Lemma keeps_committed_bind {A B} (c : M A) (f : A → M B) :
  keeps_committed c → (∀ a, keeps_committed (f a)) →
  keeps_committed (c ≫= f).
Proof.
  intros Hc Hf db r db'. unfold mbind, M_bind.
  destruct (c db) as [[a|e] db1] eqn:E.
  - intros H. apply Hf in H. rewrite H. by apply Hc in E.
  - intros H. inversion H; subst. by apply Hc in E.
Qed.

Lemma keeps_committed_for_each {A} (l : list A) (body : A → M unit) :
  (∀ x, keeps_committed (body x)) → keeps_committed (for_each l body).
Proof.
  intros Hb. induction l as [|x l IH]; simpl.
  - apply keeps_committed_ret.
  - apply keeps_committed_bind; auto.
Qed.

Lemma keeps_committed_get_sessions : keeps_committed get_sessions.
Proof. intros db r db' H. inversion H. done. Qed.

Lemma keeps_committed_put_sessions m : keeps_committed (put_sessions m).
Proof. intros db r db' H. inversion H. done. Qed.

Lemma keeps_committed_upsert sid u m t :
  keeps_committed (SessionRepository.upsert_session sid u m t).
Proof.
  unfold SessionRepository.upsert_session.
  apply keeps_committed_bind; [apply keeps_committed_get_sessions|].
  intros tbl. destruct (tbl !! sid).
  - apply keeps_committed_bind; [apply keeps_committed_lift|]. intros b.
    apply keeps_committed_bind; [apply keeps_committed_put_sessions|].
    intros _. apply keeps_committed_ret.
  - apply keeps_committed_bind; [apply keeps_committed_put_sessions|].
    intros _. apply keeps_committed_ret.
Qed.

Lemma keeps_committed_increment sid n :
  keeps_committed (SessionRepository.increment_event_count sid n).
Proof.
  unfold SessionRepository.increment_event_count.
  apply keeps_committed_bind; [apply keeps_committed_get_sessions|].
  intros tbl. apply keeps_committed_put_sessions.
Qed.

Lemma keeps_committed_update_sessions events :
  keeps_committed (EventService._update_sessions events).
Proof.
  unfold EventService._update_sessions.
  apply keeps_committed_bind; [apply keeps_committed_lift|].
  intros d. apply keeps_committed_for_each.
  intros [sid [[u m] t]]. unfold EventService.upsert_and_count.
  apply keeps_committed_bind; [apply keeps_committed_upsert|].
  intros _. apply keeps_committed_increment.
Qed.

Lemma keeps_committed_track b events :
  keeps_committed (EventService.track b events).
Proof.
  destruct b; simpl.
  - apply keeps_committed_update_sessions.
  - apply keeps_committed_ret.
Qed.

Lemma keeps_committed_insert_batches now l z :
  keeps_committed (EventRepository.insert_batches now l z).
Proof.
  revert z. induction l as [|b l IH]; intros z; simpl.
  - apply keeps_committed_ret.
  - apply keeps_committed_bind; [|auto].
    unfold EventRepository.add_all_flush.
    apply keeps_committed_bind.
    { intros d r d' H. inversion H. done. }
    intros rows. case_bool_decide; intros d r d' Hrun; inversion Hrun; done.
Qed.

(** A failed [bulk_create] leaves the session rolled back. *)
Lemma bulk_create_raise now events n db e db' :
  EventRepository.bulk_create now events n db = (Raise e, db') →
  db' = {| committed := committed db; flushed := committed db |}.
Proof.
  unfold EventRepository.bulk_create. destruct events as [|x events].
  { intros H. inversion H. }
  unfold try_except, mbind at 1, M_bind at 1, lift.
  destruct (range_chunks (x :: events) n) as [batches|e0].
  - unfold mbind at 1, M_bind at 1.
    destruct (EventRepository.insert_batches now batches 0 db)
      as [[total|e1] db1] eqn:E.
    + run. intros H. inversion H.
    + run. intros H. inversion H; subst.
      apply keeps_committed_insert_batches in E. by rewrite E.
  - run. intros H. by inversion H.
Qed.

(** ** Ingestion *)

(** C1. A batch longer than [max_batch_size] is answered with accepted = 0,
    rejected = the batch length and one error message, and the session is
    left exactly as it was: nothing is flushed or committed, neither events
    nor session records. *)
Theorem ingest_batch_oversize settings clock events track_sessions db :
  len events > max_batch_size settings →
  ∃ msg,
    EventService.ingest_batch settings clock events track_sessions db =
      (Return {| accepted := 0; rejected := len events; errors := [msg];
                 processing_time_ms := 0%Qc |}, db).
Proof.
  intros Hbig. eexists. unfold EventService.ingest_batch, try_except.
  rewrite bool_decide_true by done. reflexivity.
Qed.

Lemma ingest_batch_oversize_witness :
  ∃ msg,
    EventService.ingest_batch
      {| max_batch_size := 1; event_retention_days := 90 |} Sample.clock
      [Sample.event 1 (utc 10) (Some "s1") None None;
       Sample.event 2 (utc 20) (Some "s1") None None]
      true (Sample.fresh Sample.empty_store) =
      (Return {| accepted := 0; rejected := 2; errors := [msg];
                 processing_time_ms := 0%Qc |},
       Sample.fresh Sample.empty_store).
Proof.
  apply (ingest_batch_oversize
           {| max_batch_size := 1; event_retention_days := 90 |}).
  unfold len; simpl; lia.
Defined.

(** C2. When the batch is admitted and the insertion of its events raises,
    the answer is accepted = 0, rejected = the batch length, with the text of
    the exception as the one error, and the session is rolled back to what
    was committed before the call: neither event rows nor the session
    upserts of the call remain. *)
Theorem ingest_batch_rolls_back settings clock events track_sessions
    db db1 e db2 :
  len events ≤ max_batch_size settings →
  EventService.track track_sessions events db = (Return tt, db1) →
  EventRepository.bulk_create (server_now clock) events
    (max_batch_size settings) db1 = (Raise e, db2) →
  EventService.ingest_batch settings clock events track_sessions db =
    (Return {| accepted := 0; rejected := len events;
               errors := [str_exn e];
               processing_time_ms :=
                 Q2Qc ((finished clock - started clock) # 1000) |},
     {| committed := committed db; flushed := committed db |}).
Proof.
  intros Hsize Htrack Hbulk.
  unfold EventService.ingest_batch, try_except.
  rewrite bool_decide_false by lia.
  unfold mbind at 1, M_bind at 1. rewrite Htrack.
  unfold mbind at 1, M_bind at 1. rewrite Hbulk.
  apply bulk_create_raise in Hbulk. subst db2.
  apply keeps_committed_track in Htrack. rewrite Htrack. reflexivity.
Qed.

Lemma ingest_batch_rolls_back_witness :
  let batch := [Sample.event 7 (utc 10) (Some "s1") (Some "ann") None;
                Sample.event 7 (utc 20) (Some "s1") (Some "bob") None] in
  EventService.ingest_batch default_settings Sample.clock batch true
    (Sample.fresh Sample.empty_store) =
    (Return {| accepted := 0; rejected := 2;
               errors := [str_exn IntegrityError];
               processing_time_ms := Q2Qc (3000 # 1000) |},
     Sample.fresh Sample.empty_store).
Proof.
  intros batch.
  eapply (ingest_batch_rolls_back default_settings Sample.clock batch true
            (Sample.fresh Sample.empty_store)).
  - unfold len; simpl; lia.
  - vm_compute. reflexivity.
  - vm_compute. reflexivity.
Defined.

(** ** Session upserts *)

Lemma instant_ensure_timezone_aware d :
  instant (ensure_timezone_aware d) = instant d.
Proof. by destruct d as [w [o|]]. Qed.

Lemma is_aware_ensure_timezone_aware d :
  is_aware (ensure_timezone_aware d) = true.
Proof. by destruct d as [w [o|]]. Qed.

(** Two aware datetimes compare by their instants, and never raise. *)
Lemma dt_lt_aware a b :
  is_aware a = true → is_aware b = true →
  dt_lt a b = Return (bool_decide (instant a < instant b)).
Proof.
  unfold is_aware, dt_lt, instant.
  destruct (tzinfo a), (tzinfo b); simpl; congruence.
Qed.

Lemma dt_lt_ensured a b :
  dt_lt (ensure_timezone_aware a) (ensure_timezone_aware b)
  = Return (bool_decide (instant a < instant b)).
Proof.
  rewrite dt_lt_aware by apply is_aware_ensure_timezone_aware.
  by rewrite !instant_ensure_timezone_aware.
Qed.

(** One upsert of a session that exists: the actor is overwritten, the start
    time becomes the earlier of the two, the rest of the row stays. *)
Lemma upsert_session_existing sid u m t db s :
  sessions (flushed db) !! sid = Some s →
  ∃ s',
    SessionRepository.upsert_session sid u m t db =
      (Return s',
       {| committed := committed db;
          flushed := {| audit_events := audit_events (flushed db);
                        sessions := <[sid := s']> (sessions (flushed db)) |}
       |})
    ∧ instant (Session.start_time s')
      = Z.min (instant (Session.start_time s)) (instant t)
    ∧ Session.user_name s' = u ∧ Session.machine_name s' = m
    ∧ Session.session_id s' = Session.session_id s
    ∧ Session.end_time s' = Session.end_time s
    ∧ Session.event_count s' = Session.event_count s.
Proof.
  intros Hs. unfold SessionRepository.upsert_session.
  unfold mbind at 1, M_bind at 1, get_sessions. rewrite Hs.
  unfold dt_gt. simpl Session.start_time. rewrite dt_lt_ensured.
  case_bool_decide as Hlt; run.
  - eexists. split; [reflexivity|]. simpl.
    rewrite instant_ensure_timezone_aware. repeat split; lia.
  - eexists. split; [reflexivity|]. simpl. repeat split; lia.
Qed.

(** One upsert of a session that does not exist yet creates it. *)
Lemma upsert_session_new sid u m t db :
  sessions (flushed db) !! sid = None →
  SessionRepository.upsert_session sid u m t db =
    (Return (Session.mk sid u m (ensure_timezone_aware t) None 0),
     {| committed := committed db;
        flushed :=
          {| audit_events := audit_events (flushed db);
             sessions :=
               <[sid := Session.mk sid u m (ensure_timezone_aware t) None 0]>
                 (sessions (flushed db)) |} |}).
Proof.
  intros Hs. unfold SessionRepository.upsert_session.
  unfold mbind at 1, M_bind at 1, get_sessions. rewrite Hs. by run.
Qed.


Lemma earliest_le start calls : earliest start calls ≤ start.
Proof.
  unfold earliest. revert start.
  induction calls as [|c calls IH]; intros start; simpl; [lia|].
  etrans; [apply IH|]. lia.
Qed.



(** ** The dict of [_update_sessions] *)

Section dict.
Context {V : Type}.
Implicit Types (d : list (string * V)) (k : string) (v : V).

Lemma dict_get_None k d : dict_get k d = None ↔ k ∉ d.*1.
Proof.
  induction d as [|[k' v'] d IH]; simpl.
  - split; [intros _; apply not_elem_of_nil | done].
  - case_bool_decide as Hk.
    + subst. split; [done|]. intros []. apply elem_of_cons. by left.
    + rewrite IH, not_elem_of_cons. split; [by split|by intros []].
Qed.

Lemma dict_get_Some_elem k v d : dict_get k d = Some v → (k, v) ∈ d.
Proof.
  induction d as [|[k' v'] d IH]; simpl; [done|].
  case_bool_decide as Hk.
  - intros [= Hv]. subst. apply elem_of_cons. by left.
  - intros H. apply elem_of_cons. right. auto.
Qed.

Lemma elem_dict_get k v d : NoDup d.*1 → (k, v) ∈ d → dict_get k d = Some v.
Proof.
  induction d as [|[k' v'] d IH]; simpl.
  - intros _ H. by apply elem_of_nil in H.
  - intros Hnd H. apply NoDup_cons in Hnd as [Hnotin Hnd].
    apply elem_of_cons in H as [[= -> ->]|H].
    + by rewrite bool_decide_true.
    + rewrite bool_decide_false; [auto|].
      intros ->. apply Hnotin.
      apply list_elem_of_fmap. by exists (k, v).
Qed.

Lemma dict_get_set_eq k v d : dict_get k (dict_set k v d) = Some v.
Proof.
  induction d as [|[k' v'] d IH]; simpl.
  - by rewrite bool_decide_true.
  - case_bool_decide as Hk; simpl.
    + by rewrite bool_decide_true.
    + by rewrite bool_decide_false.
Qed.

Lemma dict_get_set_ne k k' v d :
  k ≠ k' → dict_get k' (dict_set k v d) = dict_get k' d.
Proof.
  intros Hne. induction d as [|[k0 v0] d IH]; simpl.
  - by rewrite bool_decide_false.
  - case_bool_decide as Hk; simpl.
    + subst. by rewrite !bool_decide_false.
    + by rewrite IH.
Qed.

Lemma dict_set_keys_old k v d : k ∈ d.*1 → (dict_set k v d).*1 = d.*1.
Proof.
  induction d as [|[k0 v0] d IH]; simpl.
  - intros H. by apply elem_of_nil in H.
  - intros H. case_bool_decide as Hk; simpl; [by subst|].
    f_equal. apply IH. apply elem_of_cons in H as [?|?]; [congruence|done].
Qed.

Lemma dict_set_keys_new k v d :
  k ∉ d.*1 → (dict_set k v d).*1 = (d.*1 ++ [k])%list.
Proof.
  induction d as [|[k0 v0] d IH]; csimpl; [done|].
  intros H. apply not_elem_of_cons in H as [Hne H].
  rewrite bool_decide_false by done. csimpl. by rewrite IH.
Qed.

Lemma dict_set_keys k v d :
  ∀ k', k' ∈ (dict_set k v d).*1 ↔ k' = k ∨ k' ∈ d.*1.
Proof.
  intros k'. destruct (decide (k ∈ d.*1)) as [Hin|Hout].
  - rewrite dict_set_keys_old by done.
    split; [by right|]. by intros [->|?].
  - rewrite dict_set_keys_new by done.
    rewrite elem_of_app, list_elem_of_singleton.
    split; intros [?|?]; auto.
Qed.

Lemma dict_set_NoDup k v d : NoDup d.*1 → NoDup (dict_set k v d).*1.
Proof.
  intros Hnd. destruct (decide (k ∈ d.*1)) as [Hin|Hout].
  - by rewrite dict_set_keys_old.
  - rewrite dict_set_keys_new by done.
    apply NoDup_app. split; [done|]. split.
    + intros x Hx Hx'. apply list_elem_of_singleton in Hx'. by subst.
    + apply NoDup_singleton.
Qed.
End dict.

(** ** The per-session aggregates of a batch *)

Lemma truthy_str_Some o :
  truthy_str o = true ↔ ∃ s, o = Some s ∧ s ≠ "".
Proof.
  destruct o as [s|]; simpl.
  - rewrite negb_true_iff. split.
    + intros H. exists s. split; [done|]. intros ->. by rewrite String.eqb_refl in H.
    + intros (s' & [= <-] & Hne). by apply String.eqb_neq.
  - split; [done|]. by intros (s & ? & _).
Qed.

(** The keys of the dict after one event. *)
Lemma collect_event_keys d e d' :
  EventService.collect_event d e = Return d' →
  NoDup d.*1 →
  NoDup d'.*1
  ∧ ∀ sid, sid ∈ d'.*1 ↔ sid ∈ d.*1 ∨ (sid ≠ "" ∧ in_session sid e).
Proof.
  unfold EventService.collect_event, in_session.
  destruct (truthy_str (AuditEventCreate.session_id e)) eqn:Etr.
  - apply truthy_str_Some in Etr as (s & Es & Hne). rewrite Es. simpl.
    assert (Hset : ∀ v, NoDup d.*1 →
      NoDup (dict_set s v d).*1
      ∧ ∀ sid, sid ∈ (dict_set s v d).*1
               ↔ sid ∈ d.*1 ∨ (sid ≠ "" ∧ Some s = Some sid)).
    { intros v Hnd. split; [by apply dict_set_NoDup|].
      intros sid. rewrite dict_set_keys. split.
      - intros [->|?]; [right|left]; done.
      - intros [?|[_ [= ->]]]; [right|left]; done. }
    destruct (dict_get s d) as [[[u m] t]|] eqn:Eget.
    + destruct (dt_lt _ t) as [[]|]; simpl; intros [= <-] Hnd.
      * by apply Hset.
      * split; [done|]. intros sid. split; [by left|].
        intros [?|[_ [= ->]]]; [done|].
        apply dec_stable. intros Hout.
        apply dict_get_None in Hout. congruence.
    + intros [= <-]. apply Hset.
  - intros [= <-] Hnd. split; [done|]. intros sid. split; [by left|].
    intros [?|[Hne Hs]]; [done|].
    assert (truthy_str (AuditEventCreate.session_id e) = true); [|congruence].
    apply truthy_str_Some. by exists sid.
Qed.

Lemma collect_sessions_keys events d d' :
  EventService.collect_sessions events d = Return d' →
  NoDup d.*1 →
  NoDup d'.*1
  ∧ ∀ sid, sid ∈ d'.*1
           ↔ sid ∈ d.*1 ∨ (sid ≠ "" ∧ ∃ e, e ∈ events ∧ in_session sid e).
Proof.
  revert d. induction events as [|e events IH]; intros d; simpl.
  - intros [= <-] Hnd. split; [done|]. intros sid. split; [by left|].
    intros [?|(_ & e & He & _)]; [done|]. by apply elem_of_nil in He.
  - unfold mbind, outcome_bind.
    destruct (EventService.collect_event d e) as [d1|] eqn:E1; [|done].
    intros Hrest Hnd.
    destruct (collect_event_keys _ _ _ E1 Hnd) as [Hnd1 Hk1].
    destruct (IH _ Hrest Hnd1) as [Hnd' Hk']. split; [done|].
    intros sid. rewrite Hk', Hk1. split.
    + intros [[?|[? ?]]|(? & e' & ? & ?)].
      * by left.
      * right. split; [done|]. exists e. split; [apply elem_of_cons; by left|done].
      * right. split; [done|]. exists e'. split; [apply elem_of_cons; by right|done].
    + intros [?|(? & e' & [->|?]%elem_of_cons & ?)].
      * left. by left.
      * left. by right.
      * right. split; [done|]. by exists e'.
Qed.

Lemma first_earliest_elem sid events e :
  first_earliest sid events e → e ∈ events ∧ in_session sid e.
Proof.
  intros (pre & post & -> & Hs & _). split; [|done].
  apply elem_of_app. right. apply elem_of_cons. by left.
Qed.

Lemma first_earliest_min sid events e e' :
  first_earliest sid events e → e' ∈ events → in_session sid e' →
  ts e ≤ ts e'.
Proof.
  intros (pre & post & -> & Hs & Hpre & Hpost) Hin Hs'.
  apply elem_of_app in Hin as [Hin|Hin].
  - specialize (Hpre _ Hin Hs'). lia.
  - apply elem_of_cons in Hin as [->|Hin]; [lia|]. by apply Hpost.
Qed.

Lemma first_earliest_snoc sid events e x :
  first_earliest sid events e →
  (in_session sid x → ts e ≤ ts x) →
  first_earliest sid (events ++ [x]) e.
Proof.
  intros (pre & post & -> & Hs & Hpre & Hpost) Hx.
  exists pre, (post ++ [x])%list. split; [by rewrite <- app_assoc|].
  split; [done|]. split; [done|].
  intros e' Hin Hs'. apply elem_of_app in Hin as [Hin|Hin]; [by apply Hpost|].
  apply list_elem_of_singleton in Hin as ->. by apply Hx.
Qed.

Lemma first_earliest_last sid events x :
  in_session sid x →
  (∀ e', e' ∈ events → in_session sid e' → ts x < ts e') →
  first_earliest sid (events ++ [x]) x.
Proof.
  intros Hs Hlt. exists events, []. split; [done|]. split; [done|].
  split; [done|]. intros e' Hin. by apply elem_of_nil in Hin.
Qed.

Lemma collect_event_values processed d x :
  aware_event x → Forall aware_event processed →
  keyed processed d → aggregated processed d →
  ∃ d', EventService.collect_event d x = Return d'
        ∧ aggregated (processed ++ [x]) d'.
Proof.
  intros Hx Haware Hkeys Hagg. unfold EventService.collect_event.
  unfold keyed in Hkeys.
  (* entries of other sessions only gain [x] as a later, foreign event *)
  assert (Hother : ∀ sid info,
            dict_get sid d = Some info → ¬ in_session sid x →
            ∃ e, info = EventService.info_of e
                 ∧ first_earliest sid (processed ++ [x]) e).
  { intros sid info Hget Hns. destruct (Hagg _ _ Hget) as (e & -> & Hfe).
    exists e. split; [done|]. apply first_earliest_snoc; [done|]. done. }
  destruct (truthy_str (AuditEventCreate.session_id x)) eqn:Etr.
  - apply truthy_str_Some in Etr as (s & Es & Hne). rewrite Es. simpl.
    destruct (dict_get s d) as [[[u m] t]|] eqn:Eget.
    + destruct (Hagg _ _ Eget) as (e0 & Hinfo & Hfe0).
      injection Hinfo as -> -> ->.
      destruct (first_earliest_elem _ _ _ Hfe0) as [Hin0 Hs0].
      rewrite dt_lt_aware;
        [|done|by eapply (proj1 (Forall_forall _ _) Haware)].
      simpl. fold (ts x) (ts e0). case_bool_decide as Hlt.
      * eexists. split; [done|]. intros sid info.
        destruct (decide (s = sid)) as [<-|Hns].
        -- rewrite dict_get_set_eq. intros [= <-]. exists x. split; [done|].
           apply first_earliest_last; [done|]. intros e' Hin' Hs'.
           pose proof (first_earliest_min _ _ _ _ Hfe0 Hin' Hs'). lia.
        -- rewrite dict_get_set_ne by done. intros Hget.
           apply Hother; [done|]. unfold in_session. congruence.
      * eexists. split; [done|]. intros sid info Hget.
        destruct (decide (s = sid)) as [<-|Hns].
        -- rewrite Eget in Hget. injection Hget as <-. exists e0.
           split; [done|]. apply first_earliest_snoc; [done|]. intros _. lia.
        -- apply Hother; [done|]. unfold in_session. congruence.
    + eexists. split; [done|]. intros sid info.
      destruct (decide (s = sid)) as [<-|Hns].
      * rewrite dict_get_set_eq. intros [= <-]. exists x. split; [done|].
        apply first_earliest_last; [done|]. intros e' Hin' Hs'.
        apply dict_get_None in Eget. destruct Eget. apply Hkeys.
        split; [done|]. by exists e'.
      * rewrite dict_get_set_ne by done. intros Hget.
        apply Hother; [done|]. unfold in_session. congruence.
  - eexists. split; [done|]. intros sid info Hget.
    apply Hother; [done|]. intros Hs.
    assert (sid ∈ d.*1) as Hin.
    { apply dec_stable. intros Hout. apply dict_get_None in Hout.
      congruence. }
    apply Hkeys in Hin as [Hne _].
    assert (truthy_str (AuditEventCreate.session_id x) = true); [|congruence].
    apply truthy_str_Some. by exists sid.
Qed.

Lemma collect_sessions_values rest : ∀ processed d,
  Forall aware_event processed → Forall aware_event rest →
  NoDup d.*1 → keyed processed d → aggregated processed d →
  ∃ d', EventService.collect_sessions rest d = Return d'
        ∧ aggregated (processed ++ rest) d'.
Proof.
  induction rest as [|x rest IH]; intros processed d Hp Hr Hnd Hk Hagg.
  - exists d. split; [done|]. by rewrite app_nil_r.
  - apply Forall_cons in Hr as [Hx Hr].
    destruct (collect_event_values processed d x Hx Hp Hk Hagg)
      as (d1 & E1 & Hagg1).
    destruct (collect_event_keys _ _ _ E1 Hnd) as [Hnd1 Hk1].
    destruct (IH (processed ++ [x])%list d1) as (d' & E' & Hagg').
    + apply Forall_app. split; [done|]. by apply Forall_singleton.
    + done.
    + done.
    + intros sid. rewrite Hk1, (Hk sid). split.
      * intros [(? & e & ? & ?)|[? ?]]; (split; [done|]).
        -- exists e. split; [apply elem_of_app; by left|done].
        -- exists x. split; [|done]. apply elem_of_app. right.
           by apply list_elem_of_singleton.
      * intros (? & e & Hin & ?). apply elem_of_app in Hin as [?|Hin].
        -- left. split; [done|]. by exists e.
        -- apply list_elem_of_singleton in Hin as ->. by right.
    + done.
    + exists d'. simpl. rewrite E1. simpl. split; [done|].
      by rewrite <- app_assoc in Hagg'.
Qed.

(** C3 (as the code has it).  For a batch of validated events (timestamps
    aware), the first loop of [_update_sessions] ends with one entry per
    non-empty session id of the batch, and the entry of a session holds the
    timestamp, [user_name] and [machine_name] of the first event of that
    session that bears its earliest timestamp; the second loop upserts each
    session with exactly these values and then adds the number of the
    batch's events of that session. *)
Theorem update_sessions_aggregates events :
  Forall aware_event events →
  ∃ session_data,
    EventService.collect_sessions events [] = Return session_data
    ∧ NoDup session_data.*1
    ∧ (∀ sid, sid ∈ session_data.*1
              ↔ sid ≠ "" ∧ ∃ e, e ∈ events ∧ in_session sid e)
    ∧ (∀ sid u m t, (sid, (u, m, t)) ∈ session_data →
         ∃ e, first_earliest sid events e
              ∧ u = AuditEventCreate.user_name e
              ∧ m = AuditEventCreate.machine_name e
              ∧ t = AuditEventCreate.timestamp e)
    ∧ (∀ db,
         EventService._update_sessions events db =
           for_each session_data (λ '(sid, (u, m, t)),
             SessionRepository.upsert_session sid u m t;;
             SessionRepository.increment_event_count sid
               (len (filter (in_session sid) events))) db).
Proof.
  intros Haware.
  destruct (collect_sessions_values events [] []) as (d & E & Hagg);
    [done|done|apply NoDup_nil_2| |done|].
  { intros sid. split.
    - intros H. by apply elem_of_nil in H.
    - intros (_ & e & H & _). by apply elem_of_nil in H. }
  destruct (collect_sessions_keys _ _ _ E) as [Hnd Hk]; [apply NoDup_nil_2|].
  exists d. split; [done|]. split; [done|]. split; [|split].
  - intros sid. rewrite Hk. split.
    + intros [H|?]; [by apply elem_of_nil in H|done].
    + by right.
  - intros sid u m t Hin. apply elem_dict_get in Hin; [|done].
    destruct (Hagg _ _ Hin) as (e & [= -> -> ->] & Hfe). by exists e.
  - intros db. unfold EventService._update_sessions.
    unfold mbind at 1, M_bind at 1, lift. rewrite E.
    f_equal.
Qed.

Lemma update_sessions_aggregates_witness :
  ∃ session_data,
    EventService.collect_sessions
      [Sample.event 1 (utc 20) (Some "s1") (Some "bob") (Some "pc2");
       Sample.event 2 (utc 10) (Some "s1") (Some "ann") (Some "pc1");
       Sample.event 3 (utc 10) (Some "s1") (Some "eve") None;
       Sample.event 4 (utc 5) None (Some "zed") None] []
    = Return session_data
    ∧ NoDup session_data.*1.
Proof.
  destruct (update_sessions_aggregates
    [Sample.event 1 (utc 20) (Some "s1") (Some "bob") (Some "pc2");
     Sample.event 2 (utc 10) (Some "s1") (Some "ann") (Some "pc1");
     Sample.event 3 (utc 10) (Some "s1") (Some "eve") None;
     Sample.event 4 (utc 5) None (Some "zed") None])
    as (d & E & Hnd & _).
  - repeat constructor.
  - exists d. by split.
Defined.

(** C3 as the specification words it does not hold: in this batch the last
    event of session "s1", which is also its latest in time, is bob's, and
    the entry collected for "s1" carries ann. *)
Lemma update_sessions_latest_actor_counterexample :
  ¬ (∀ session_data sid u m t,
       EventService.collect_sessions
         [Sample.event 1 (utc 10) (Some "s1") (Some "ann") (Some "pc1");
          Sample.event 2 (utc 20) (Some "s1") (Some "bob") (Some "pc2")] []
       = Return session_data →
       (sid, (u, m, t)) ∈ session_data →
       latest_actor sid
         [Sample.event 1 (utc 10) (Some "s1") (Some "ann") (Some "pc1");
          Sample.event 2 (utc 20) (Some "s1") (Some "bob") (Some "pc2")]
       = Some (u, m)).
Proof.
  intros H.
  specialize (H [("s1", (Some "ann", Some "pc1", utc 10))] "s1"
                (Some "ann") (Some "pc1") (utc 10) eq_refl).
  assert (latest_actor "s1"
            [Sample.event 1 (utc 10) (Some "s1") (Some "ann") (Some "pc1");
             Sample.event 2 (utc 20) (Some "s1") (Some "bob") (Some "pc2")]
          = Some (Some "bob", Some "pc2")) as Hlast by reflexivity.
  rewrite Hlast in H. discriminate H. apply elem_of_cons. by left.
Qed.

(** ** Event counts *)

Lemma count_of_alter tbl sid n k :
  is_Some (tbl !! sid) →
  count_of (alter (Session.add_event_count n) sid tbl) k
  = count_of tbl k + (if decide (k = sid) then n else 0).
Proof.
  intros [s Hs]. unfold count_of. rewrite lookup_alter.
  destruct (decide (k = sid)) as [->|Hne].
  - rewrite decide_True by done. rewrite Hs. reflexivity.
  - rewrite decide_False by done. lia.
Qed.

(** One turn of the second loop of [_update_sessions]. *)
Lemma upsert_and_count_effect events sid info db :
  ∃ db',
    EventService.upsert_and_count events (sid, info) db = (Return tt, db')
    ∧ ∀ k, count_of (sessions (flushed db')) k
           = count_of (sessions (flushed db)) k
             + (if decide (k = sid) then EventService.count_for sid events
                else 0).
Proof.
  destruct info as [[u m] t]. unfold EventService.upsert_and_count.
  destruct (sessions (flushed db) !! sid) as [s|] eqn:Hs.
  - destruct (upsert_session_existing sid u m t db s Hs)
      as (s' & Hrun & _ & _ & _ & _ & _ & Hcount).
    unfold mbind at 1, M_bind at 1. rewrite Hrun.
    unfold SessionRepository.increment_event_count. run.
    eexists. split; [reflexivity|]. simpl. intros k.
    rewrite count_of_alter by (rewrite lookup_insert_eq; eauto).
    f_equal. unfold count_of. rewrite lookup_insert.
    destruct (decide (sid = k)) as [<-|Hne]; [|done].
    rewrite Hs. simpl. done.
  - unfold mbind at 1, M_bind at 1. rewrite (upsert_session_new _ _ _ _ _ Hs).
    unfold SessionRepository.increment_event_count. run.
    eexists. split; [reflexivity|]. simpl. intros k.
    rewrite count_of_alter by (rewrite lookup_insert_eq; eauto).
    f_equal. unfold count_of. rewrite lookup_insert.
    destruct (decide (sid = k)) as [<-|Hne]; [|done].
    rewrite Hs. simpl. done.
Qed.

Lemma update_loop_effect events d : ∀ db,
  NoDup d.*1 →
  ∃ db',
    for_each d (EventService.upsert_and_count events) db = (Return tt, db')
    ∧ ∀ k, count_of (sessions (flushed db')) k
           = count_of (sessions (flushed db)) k
             + (if decide (k ∈ d.*1) then EventService.count_for k events
                else 0).
Proof.
  induction d as [|[sid info] d IH]; intros db Hnd.
  - exists db. split; [done|]. intros k.
    rewrite decide_False by apply not_elem_of_nil. lia.
  - apply NoDup_cons in Hnd as [Hout Hnd].
    destruct (upsert_and_count_effect events sid info db) as (db1 & E1 & H1).
    destruct (IH db1 Hnd) as (db' & E' & H').
    exists db'. split.
    + cbn [for_each]. unfold mbind at 1, M_bind at 1. by rewrite E1.
    + intros k. rewrite H', H1. csimpl.
      destruct (decide (k = sid)) as [->|Hne].
      * rewrite decide_False by done.
        rewrite decide_True by (apply elem_of_cons; by left). lia.
      * destruct (decide (k ∈ d.*1)) as [Hin|Hnin].
        -- rewrite decide_True by (apply elem_of_cons; by right). lia.
        -- rewrite decide_False; [lia|].
           intros [?|?]%elem_of_cons; done.
Qed.

Lemma keeps_sessions_add_all_flush now b :
  keeps_sessions (EventRepository.add_all_flush now b).
Proof.
  intros db r db'. unfold EventRepository.add_all_flush. run.
  case_bool_decide; intros [= _ <-]; done.
Qed.

Lemma keeps_sessions_insert_batches now l z :
  keeps_sessions (EventRepository.insert_batches now l z).
Proof.
  revert z. induction l as [|b l IH]; intros z db r db'; simpl.
  - intros [= _ <-]. done.
  - unfold mbind at 1, M_bind at 1.
    destruct (EventRepository.add_all_flush now b db) as [[[]|e] db1] eqn:E1;
      apply keeps_sessions_add_all_flush in E1.
    + intros Hrun. apply IH in Hrun. by rewrite Hrun.
    + intros [= _ <-]. done.
Qed.

(** A [bulk_create] that returns leaves the session rows alone, and commits
    unless the batch is empty. *)
Lemma bulk_create_return now events n db z db' :
  EventRepository.bulk_create now events n db = (Return z, db') →
  sessions (flushed db') = sessions (flushed db)
  ∧ (events ≠ [] → committed db' = flushed db').
Proof.
  unfold EventRepository.bulk_create. destruct events as [|x events].
  { intros [= _ <-]. done. }
  unfold try_except, mbind at 1, M_bind at 1, lift.
  destruct (range_chunks (x :: events) n) as [batches|e0].
  - unfold mbind at 1, M_bind at 1.
    destruct (EventRepository.insert_batches now batches 0 db)
      as [[total|e1] db1] eqn:E.
    + run. intros [= _ <-]. simpl.
      apply keeps_sessions_insert_batches in E. done.
    + run. intros H. inversion H.
  - run. intros H. inversion H.
Qed.

(** Every event with a session id falls under exactly one key. *)
Lemma sum_indicator (ks : list string) (x : AuditEventCreate.t) :
  NoDup ks →
  sum_Z ((λ k, if decide (in_session k x) then 1 else 0) <$> ks)
  = if decide (Exists (λ k, in_session k x) ks) then 1 else 0.
Proof.
  induction ks as [|k ks IH]; intros Hnd.
  - destruct (decide _) as [H|]; [by apply Exists_nil in H|done].
  - apply NoDup_cons in Hnd as [Hout Hnd]. rewrite fmap_cons. cbn [sum_Z].
    rewrite IH by done.
    destruct (decide (in_session k x)) as [Hk|Hk];
      destruct (decide (Exists (λ k0, in_session k0 x) ks)) as [Hyes|Hno];
      destruct (decide (Exists (λ k0, in_session k0 x) (k :: ks)))
        as [Hall|Hnone]; try done.
    + apply Exists_exists in Hyes as (k' & Hin & Hk').
      unfold in_session in *. congruence.
    + destruct Hnone. apply Exists_cons. by left.
    + destruct Hnone. apply Exists_cons. by left.
    + destruct Hnone. apply Exists_cons. by right.
    + by apply Exists_cons in Hall as [?|?].
Qed.

Lemma count_for_cons sid x events :
  EventService.count_for sid (x :: events)
  = (if decide (in_session sid x) then 1 else 0)
    + EventService.count_for sid events.
Proof.
  unfold EventService.count_for, len. rewrite filter_cons.
  fold (in_session sid x). destruct (decide (in_session sid x)); simpl; lia.
Qed.

Lemma sum_Z_add {A} (f g : A → Z) (l : list A) :
  sum_Z ((λ a, f a + g a) <$> l) = sum_Z (f <$> l) + sum_Z (g <$> l).
Proof. induction l as [|a l IH]; csimpl; lia. Qed.

Lemma sum_count_for (ks : list string) (events : list AuditEventCreate.t) :
  NoDup ks →
  (∀ k, k ∈ ks → k ≠ "") →
  (∀ e sid, e ∈ events → sid ≠ "" → in_session sid e → sid ∈ ks) →
  sum_Z ((λ k, EventService.count_for k events) <$> ks)
  = len (with_session_id events).
Proof.
  intros Hnd Hne. induction events as [|x events IH]; intros Hcover.
  - unfold with_session_id, len. simpl.
    clear. induction ks as [|k ks IH]; csimpl; [done|].
    rewrite IH. reflexivity.
  - erewrite (list_fmap_ext _ (λ k, (if decide (in_session k x) then 1 else 0)
                                     + EventService.count_for k events));
      [|intros; apply count_for_cons].
    rewrite sum_Z_add, IH, sum_indicator by
      (try done; intros e sid He; apply Hcover; apply elem_of_cons; by right).
    unfold with_session_id, len. rewrite filter_cons.
    destruct (decide (truthy_str (AuditEventCreate.session_id x) = true))
      as [Htr|Htr].
    + apply truthy_str_Some in Htr as (s & Hs & Hs').
      rewrite decide_True; [simpl; lia|]. apply Exists_exists.
      exists s. split; [|done].
      apply (Hcover x); [apply elem_of_cons; by left|done|done].
    + rewrite decide_False; [lia|].
      intros (k & Hin & Hk)%Exists_exists. apply Htr.
      apply truthy_str_Some. exists k. split; [done|]. by apply Hne.
Qed.

(** C4. When a batch is ingested with success, each session's event count
    grows by the number of the batch's events that carry its id, for the
    sessions the batch names and by nothing for the others; the increments
    applied, summed over the sessions touched, make the number of events of
    the batch with a non-empty session id. *)
Theorem ingest_batch_event_counts settings clock events db resp db' :
  EventService.ingest_batch settings clock events true db
    = (Return resp, db') →
  errors resp = [] →
  ∃ session_data,
    EventService.collect_sessions events [] = Return session_data
    ∧ (∀ sid, count_of (sessions (flushed db')) sid
              = count_of (sessions (flushed db)) sid
                + (if decide (sid ∈ session_data.*1)
                   then EventService.count_for sid events else 0))
    ∧ (∀ sid, sid ∈ session_data.*1
              ↔ sid ≠ "" ∧ ∃ e, e ∈ events ∧ in_session sid e)
    ∧ sum_Z (increments events session_data) = len (with_session_id events)
    ∧ (events ≠ [] → committed db' = flushed db').
Proof.
  unfold EventService.ingest_batch, try_except.
  case_bool_decide as Hsize; [intros [= <- _]; done|].
  unfold mbind at 1, M_bind at 1. simpl EventService.track.
  unfold EventService._update_sessions.
  unfold mbind at 1, M_bind at 1, lift.
  destruct (EventService.collect_sessions events []) as [d|e] eqn:Ecollect;
    [|intros [= <- _]; done].
  destruct (collect_sessions_keys _ _ _ Ecollect) as [Hnd Hk];
    [apply NoDup_nil_2|].
  assert (Hkeys : ∀ sid, sid ∈ d.*1
            ↔ sid ≠ "" ∧ ∃ e, e ∈ events ∧ in_session sid e).
  { intros sid. rewrite Hk. split.
    - intros [H|?]; [by apply elem_of_nil in H|done].
    - by right. }
  destruct (update_loop_effect events d db Hnd) as (db1 & Eloop & Hcounts).
  rewrite Eloop. unfold mbind at 1, M_bind at 1.
  destruct (EventRepository.bulk_create _ _ _ db1) as [[z|e] db2] eqn:Ebulk;
    run; [|intros [= <- _]; done].
  intros [= _ <-] _. apply bulk_create_return in Ebulk as [Hsess Hcommit].
  exists d. split; [done|]. split; [|split; [done|split; [|done]]].
  - intros sid. rewrite Hsess. apply Hcounts.
  - unfold increments. apply sum_count_for; [done| |].
    + intros k Hin. by apply Hkeys in Hin as [? _].
    + intros e sid He Hne Hs. apply Hkeys. split; [done|]. by exists e.
Qed.

Lemma ingest_batch_event_counts_witness :
  ∃ session_data,
    EventService.collect_sessions
      [Sample.event 1 (utc 20) (Some "s1") (Some "bob") (Some "pc2");
       Sample.event 2 (utc 10) (Some "s2") (Some "ann") (Some "pc1");
       Sample.event 3 (utc 10) (Some "s1") (Some "eve") None;
       Sample.event 4 (utc 5) None (Some "zed") None;
       Sample.event 5 (utc 5) (Some "") (Some "zed") None] []
    = Return session_data
    ∧ sum_Z (increments
       [Sample.event 1 (utc 20) (Some "s1") (Some "bob") (Some "pc2");
        Sample.event 2 (utc 10) (Some "s2") (Some "ann") (Some "pc1");
        Sample.event 3 (utc 10) (Some "s1") (Some "eve") None;
        Sample.event 4 (utc 5) None (Some "zed") None;
        Sample.event 5 (utc 5) (Some "") (Some "zed") None] session_data) = 3.
Proof.
  destruct (ingest_batch_event_counts default_settings Sample.clock
    [Sample.event 1 (utc 20) (Some "s1") (Some "bob") (Some "pc2");
     Sample.event 2 (utc 10) (Some "s2") (Some "ann") (Some "pc1");
     Sample.event 3 (utc 10) (Some "s1") (Some "eve") None;
     Sample.event 4 (utc 5) None (Some "zed") None;
     Sample.event 5 (utc 5) (Some "") (Some "zed") None]
    (Sample.fresh Sample.empty_store)
    _ _ eq_refl eq_refl) as (d & E & _ & _ & Hsum & _).
  exists d. split; [exact E|exact Hsum].
Defined.

(** ** Queries *)

Lemma merge_sort_nil {A} (R : relation A) `{∀ x y, Decision (R x y)} :
  merge_sort R [] = [].
Proof. reflexivity. Qed.

Lemma sort_rows_nil c b : EventQuery.sort_rows c b [] = [].
Proof. by destruct b. Qed.

Lemma sort_rows_Permutation c b rows : EventQuery.sort_rows c b rows ≡ₚ rows.
Proof. destruct b; apply merge_sort_Permutation. Qed.

Lemma query_events_run inherited q db c :
  EventQuery.order_column inherited (order_by q) = Return c →
  EventQuery.query_events inherited q db =
    (Return (take (limit q)
               (drop (offset q)
                  (EventQuery.sort_rows c (order_desc q) (selected q db))),
             len (selected q db)), db).
Proof.
  intros Hc. unfold EventQuery.query_events.
  unfold mbind at 1, M_bind at 1, get_events.
  unfold mbind at 1, M_bind at 1, lift. rewrite Hc. reflexivity.
Qed.

(** C6. With the sort column resolved, two queries that differ only in
    [offset] and [limit] both return, and with the same total: the number of
    rows the filters select in the whole table, whatever the page.  When no
    row is selected the total is 0 and both pages are empty. *)
Theorem query_events_total_invariant inherited q db c o1 l1 o2 l2 :
  EventQuery.order_column inherited (order_by q) = Return c →
  ∃ page1 page2,
    EventQuery.query_events inherited (with_page o1 l1 q) db
      = (Return (page1, len (selected q db)), db)
    ∧ EventQuery.query_events inherited (with_page o2 l2 q) db
      = (Return (page2, len (selected q db)), db)
    ∧ (selected q db = [] →
       len (selected q db) = 0 ∧ page1 = [] ∧ page2 = []).
Proof.
  intros Hc.
  exists (take l1 (drop o1 (EventQuery.sort_rows c (order_desc q)
                              (selected q db)))),
         (take l2 (drop o2 (EventQuery.sort_rows c (order_desc q)
                              (selected q db)))).
  split; [|split].
  - by rewrite (query_events_run inherited (with_page o1 l1 q) db c).
  - by rewrite (query_events_run inherited (with_page o2 l2 q) db c).
  - intros ->. rewrite !sort_rows_nil, !drop_nil, !take_nil. done.
Qed.

Lemma query_events_total_invariant_witness :
  ∃ page1 page2,
    EventQuery.query_events (λ _, None) (with_page 0 1 default_query)
      Sample.three_events
      = (Return (page1, 3), Sample.three_events)
    ∧ EventQuery.query_events (λ _, None) (with_page 2 5 default_query)
        Sample.three_events
      = (Return (page2, 3), Sample.three_events).
Proof.
  destruct (query_events_total_invariant (λ _, None) default_query
              Sample.three_events col_timestamp 0 1 2 5 eq_refl)
    as (p1 & p2 & H1 & H2 & _).
  exists p1, p2. split; [exact H1|exact H2].
Defined.

(** The schema defaults sort by [timestamp], descending. *)
Lemma default_query_order :
  order_by default_query = "timestamp" ∧ order_desc default_query = true
  ∧ ∀ inherited,
      EventQuery.order_column inherited (order_by default_query)
      = Return col_timestamp.
Proof. done. Qed.

(** A name that is no attribute of the class falls back to [timestamp]. *)
Lemma order_column_fallback inherited name :
  EventQuery.getattr inherited name = None →
  EventQuery.order_column inherited name = Return col_timestamp.
Proof. unfold EventQuery.order_column. by intros ->. Qed.

(** C7 (where the code departs from it).  [__tablename__] names no column,
    yet it is an attribute of the class: [getattr] returns the table name, a
    [str], the fallback is not taken, and [.desc()] or [.asc()] on it raises
    [AttributeError]; the query fails whatever the filters, the page and the
    table. *)
Theorem query_events_order_by_tablename inherited q order_desc db :
  EventQuery.query_events inherited
    (with_order "__tablename__" order_desc q) db
  = (Raise (AttributeError "str"), db).
Proof. reflexivity. Qed.

(** ** Retention *)

Section retention.
Variable d : datetime.
Implicit Types rows : list AuditEvent.t.

Lemma kept_expired_length rows :
  length rows = (expired_count d rows + length (kept d rows))%nat.
Proof.
  unfold expired_count, kept.
  induction rows as [|e rows IH]; [done|].
  rewrite !filter_cons.
  destruct (decide (Retention.expired d e)) as [He|He].
  - rewrite decide_False by (intros Hn; by apply Hn). simpl. lia.
  - rewrite decide_True by done. simpl. lia.
Qed.

Lemma expired_count_kept rows : expired_count d (kept d rows) = 0%nat.
Proof.
  unfold expired_count, kept.
  induction rows as [|e rows IH]; [done|].
  rewrite filter_cons. destruct (decide (¬ Retention.expired d e)); [|done].
  rewrite filter_cons. by rewrite decide_False.
Qed.

Lemma kept_all rows : expired_count d rows = 0%nat → kept d rows = rows.
Proof.
  unfold expired_count, kept.
  induction rows as [|e rows IH]; [done|].
  rewrite !filter_cons.
  destruct (decide (Retention.expired d e)) as [He|He]; [done|].
  intros H. rewrite decide_True by done. f_equal. auto.
Qed.

Lemma delete_first_kept n rows :
  kept d (Retention.delete_first n d rows) = kept d rows.
Proof.
  revert n. induction rows as [|e rows IH]; intros [|n]; simpl; try done.
  destruct (decide (Retention.expired d e)) as [He|He].
  - unfold kept at 2.
    rewrite filter_cons, decide_False by (intros Hn; by apply Hn).
    apply IH.
  - unfold kept. rewrite !filter_cons, !decide_True by done.
    f_equal. apply IH.
Qed.

Lemma delete_first_expired n rows :
  expired_count d (Retention.delete_first n d rows)
  = (expired_count d rows - n)%nat.
Proof.
  revert n. induction rows as [|e rows IH]; intros [|n]; simpl; try done.
  - unfold expired_count. lia.
  - unfold expired_count in *.
    destruct (decide (Retention.expired d e)) as [He|He].
    + rewrite IH. rewrite (filter_cons _ e), decide_True by done. simpl. lia.
    + rewrite !filter_cons, !decide_False by done. apply IH.
Qed.

(** What one statement leaves: the spared rows are as before, and the
    condemned ones are fewer by what the statement reports. *)
Lemma remaining_kept has_limit batch_size rows :
  kept d (Retention.remaining has_limit d batch_size rows) = kept d rows.
Proof.
  destruct has_limit; simpl; [apply delete_first_kept|].
  fold (kept d rows). apply kept_all, expired_count_kept.
Qed.

Lemma remaining_expired has_limit batch_size rows :
  expired_count d (Retention.remaining has_limit d batch_size rows)
  = if has_limit then (expired_count d rows - Z.to_nat batch_size)%nat
    else 0%nat.
Proof.
  destruct has_limit; simpl; [apply delete_first_expired|].
  apply expired_count_kept.
Qed.

Lemma remaining_rowcount has_limit batch_size rows :
  len rows - len (Retention.remaining has_limit d batch_size rows)
  = Z.of_nat (expired_count d rows)
    - Z.of_nat (expired_count d
                  (Retention.remaining has_limit d batch_size rows)).
Proof.
  unfold len.
  rewrite (kept_expired_length rows).
  rewrite (kept_expired_length (Retention.remaining _ _ _ _)).
  rewrite remaining_kept. lia.
Qed.

Lemma delete_statement_run has_limit batch_size db :
  Retention.delete_statement has_limit d batch_size db =
    (Return (len (audit_events (flushed db))
             - len (Retention.remaining has_limit d batch_size
                      (audit_events (flushed db)))),
     {| committed := committed db;
        flushed :=
          {| audit_events :=
               Retention.remaining has_limit d batch_size
                 (audit_events (flushed db));
             sessions := sessions (flushed db) |} |}).
Proof. reflexivity. Qed.

(** The loop ends once the fuel exceeds the number of condemned rows. *)
Lemma delete_loop_run has_limit batch_size : ∀ fuel total db,
  0 < batch_size →
  (expired_count d (audit_events (flushed db)) < fuel)%nat →
  Retention.delete_loop fuel has_limit d batch_size total db =
    (Return (Some (total
                   + Z.of_nat (expired_count d
                                 (audit_events (flushed db))))),
     let store := {| audit_events := kept d (audit_events (flushed db));
                     sessions := sessions (flushed db) |} in
     {| committed := store; flushed := store |}).
Proof.
  induction fuel as [|fuel IH]; intros total db Hpos Hfuel; [lia|].
  cbn [Retention.delete_loop].
  unfold mbind at 1, M_bind at 1. rewrite delete_statement_run.
  unfold mbind at 1, M_bind at 1, commit.
  rewrite remaining_rowcount.
  set (rows := audit_events (flushed db)) in *.
  set (rows' := Retention.remaining has_limit d batch_size rows).
  pose proof (remaining_expired has_limit batch_size rows) as Hexp.
  pose proof (remaining_kept has_limit batch_size rows) as Hkept.
  fold rows' in Hexp, Hkept.
  case_bool_decide as Hlast.
  - assert (expired_count d rows' = 0%nat) as Hzero
      by (destruct has_limit; lia).
    unfold mret, M_ret. simpl. rewrite <- Hkept, (kept_all rows') by done.
    do 3 f_equal. lia.
  - rewrite IH; [|done|simpl; fold rows'; destruct has_limit; lia].
    simpl. fold rows'. rewrite Hkept. do 3 f_equal. lia.
Qed.
End retention.

(** C8 (where the code departs from it).  The docstring and the comment of
    [delete_old_events] promise a delete in batches, and the code asks the
    statement for a [limit]; the delete construct of the query library has
    none, so [hasattr(stmt, 'limit')] is false and every turn executes the
    statement as it is.  On a table of 1001 rows older than the cutoff, with
    the default batch size of 1000, the one statement of the first turn
    removes all 1001 rows, more than a batch; one turn does not end the
    loop, the second turn removes nothing and the call returns 1001.  So it
    is on every table: without the limit one statement removes every
    expired row, whatever the batch size. *)
Theorem delete_old_events_unbounded_batch :
  let db := Sample.fresh {| audit_events := old_rows 1001; sessions := ∅ |} in
  let emptied := {| audit_events := []; sessions := ∅ |} in
  Retention.delete_statement false (utc 1) Retention.default_batch_size db
    = (Return 1001, {| committed := committed db; flushed := emptied |})
  ∧ Retention.default_batch_size < 1001
  ∧ (Retention.delete_old_events 1 false (utc 1)
       Retention.default_batch_size db).1 = Return None
  ∧ Retention.delete_old_events 2 false (utc 1)
      Retention.default_batch_size db
    = (Return (Some 1001), Sample.fresh emptied)
  ∧ ∀ before_date batch_size db0,
      Retention.delete_statement false before_date batch_size db0
      = (Return (Z.of_nat (expired_count before_date
                             (audit_events (flushed db0)))),
         {| committed := committed db0;
            flushed :=
              {| audit_events := kept before_date (audit_events (flushed db0));
                 sessions := sessions (flushed db0) |} |}).
Proof.
  intros db emptied. split; [|split; [|split; [|split]]].
  - vm_compute. reflexivity.
  - unfold Retention.default_batch_size. lia.
  - vm_compute. reflexivity.
  - vm_compute. reflexivity.
  - intros before_date batch_size db0. rewrite delete_statement_run.
    rewrite remaining_rowcount, remaining_expired. simpl.
    do 2 f_equal. lia.
Qed.
(** ** The live feed *)

#[global] Instance desc_timestamp_trans :
  Transitive (EventQuery.desc col_timestamp).
Proof. intros a b c. unfold EventQuery.desc, EventQuery.asc. simpl. lia. Qed.

#[global] Instance desc_timestamp_total :
  Total (EventQuery.desc col_timestamp).
Proof. intros a b. unfold EventQuery.desc, EventQuery.asc. simpl. lia. Qed.

Lemma newer_sorted since rows :
  StronglySorted (EventQuery.desc col_timestamp) (newer since rows).
Proof. apply StronglySorted_merge_sort; apply _. Qed.

Lemma newer_after w rows e :
  e ∈ newer (Some w) rows → instant w < instant (AuditEvent.timestamp e).
Proof.
  unfold newer. rewrite sort_rows_Permutation, list_elem_of_filter.
  rewrite instant_ensure_timezone_aware. by intros [? _].
Qed.

Lemma newer_rows w rows e : e ∈ newer w rows → e ∈ rows.
Proof.
  unfold newer. rewrite sort_rows_Permutation. destruct w; [|done].
  rewrite list_elem_of_filter. tauto.
Qed.

(** A list of calls that all return. *)
Lemma mapM_outcome_return {A B} (f : A → outcome B) (l : list A)
    (k : list B) :
  mapM f l = Return k → Forall2 (λ x y, f x = Return y) l k.
Proof.
  revert k. induction l as [|x l IH]; intros k; simpl.
  - intros [= <-]. constructor.
  - unfold mbind, outcome_bind. destruct (f x) as [y|e] eqn:Hx; [|done].
    destruct (mapM f l) as [k'|e]; [|done].
    intros [= <-]. constructor; [done|]. by apply IH.
Qed.

Lemma Forall2_elem_of_right {A B} (P : A → B → Prop) l k y :
  Forall2 P l k → y ∈ k → ∃ x, x ∈ l ∧ P x y.
Proof.
  intros Hall (i & Hi)%list_elem_of_lookup_1.
  destruct (Forall2_lookup_r _ _ _ _ _ Hall Hi) as (x & Hx & HP).
  exists x. split; [|done]. by apply list_elem_of_lookup_2 in Hx.
Qed.

Section feed.
Context {Metrics : Type}.
Variable model_id : AuditEvent.t → outcome (option string).
Variable select_models :
  Tables → list string → outcome (list (string * (string * Z))).
Variable get_metrics_data : Tables → outcome Metrics.

Abbreviation get_events_since :=
  (Dashboard.get_events_since model_id select_models).
Abbreviation poll := (Dashboard.poll model_id select_models get_metrics_data).
Abbreviation poll_loop :=
  (Dashboard.poll_loop model_id select_models get_metrics_data).
Abbreviation websocket_endpoint :=
  (Dashboard.websocket_endpoint model_id select_models get_metrics_data).

Lemma serialize_event_renders e info d :
  Dashboard._serialize_event model_id e info = Return d → renders e d.
Proof.
  unfold Dashboard._serialize_event, mbind, outcome_bind.
  destruct (model_id e) as [i|x]; [|done].
  intros [= <-]. split; [done|]. unfold stamp. simpl.
  destruct (AuditEvent.timestamp e) as [w [o|]]; done.
Qed.

Lemma get_model_info_map_session events db r db' :
  Dashboard._get_model_info_map model_id select_models events db = (r, db') →
  db' = db.
Proof.
  unfold Dashboard._get_model_info_map.
  unfold mbind at 1, M_bind at 1, lift.
  destruct (mapM model_id events) as [ids|x]; [|by intros [= _ <-]].
  destruct (remove_dups _) as [|i model_ids]; [by intros [= _ <-]|].
  unfold mbind, M_bind, Dashboard.execute. simpl.
  destruct (select_models _ _); by intros [= _ <-].
Qed.

(** What a query of the feed answers when it returns: the renderings, in
    order, of the newest [limit] rows the watermark lets through; and the
    session stays as it is. *)
Lemma get_events_since_return since limit db r db' :
  get_events_since since limit db = (r, db') →
  db' = db
  ∧ ∀ answer, r = Return answer →
      Forall2 renders
        (take limit (newer since (audit_events (flushed db)))) answer.
Proof.
  unfold Dashboard.get_events_since.
  unfold mbind at 1, M_bind at 1, get_events.
  fold (newer since (audit_events (flushed db))).
  set (events := take limit _).
  unfold mbind at 1, M_bind at 1.
  destruct (Dashboard._get_model_info_map _ _ events db) as [[info|x] db1]
    eqn:Hinfo; apply get_model_info_map_session in Hinfo as ->.
  - unfold lift. intros [= <- <-]. split; [done|]. intros answer Hanswer.
    apply mapM_outcome_return in Hanswer.
    eapply Forall2_impl; [exact Hanswer|].
    intros e d. apply serialize_event_renders.
  - intros [= <- <-]. split; [done|]. by intros answer.
Qed.

(** Nothing is read of an event when no row passes. *)
Lemma get_events_since_none since limit db :
  take limit (newer since (audit_events (flushed db))) = [] →
  get_events_since since limit db = (Return [], db).
Proof.
  unfold Dashboard.get_events_since.
  unfold mbind at 1, M_bind at 1, get_events.
  fold (newer since (audit_events (flushed db))).
  by intros ->.
Qed.

(** The first dict of an answer carries its greatest instant, and every
    dict lies after the watermark. *)
Lemma answer_head_max since limit rows d rest :
  Forall2 renders (take limit (newer since rows)) (d :: rest) →
  ∀ d', d' ∈ d :: rest → stamp d' ≤ stamp d.
Proof.
  intros Hanswer d' Hin.
  pose proof (newer_sorted since rows) as Hsorted.
  destruct (newer since rows) as [|e0 sorted];
    [rewrite take_nil in Hanswer; inversion Hanswer|].
  destruct limit as [|limit]; [inversion Hanswer|].
  simpl in Hanswer.
  apply Forall2_cons_1 in Hanswer as [[_ Hd] Hrest].
  apply elem_of_cons in Hin as [->|Hin]; [lia|].
  apply (Forall2_elem_of_right _ _ _ _ Hrest) in Hin as (e' & He' & [_ Hd']).
  apply subseteq_take in He'.
  apply StronglySorted_cons in Hsorted as [Hall _].
  apply (proj1 (Forall_forall _ _) Hall) in He'.
  unfold EventQuery.desc, EventQuery.asc in He'. simpl in He'. lia.
Qed.

Lemma answer_rows since limit rows answer d :
  Forall2 renders (take limit (newer since rows)) answer →
  d ∈ answer →
  Dashboard.row d ∈ rows
  ∧ stamp d = instant (AuditEvent.timestamp (Dashboard.row d))
  ∧ ∀ w, since = Some w → instant w < stamp d.
Proof.
  intros Hanswer Hin.
  apply (Forall2_elem_of_right _ _ _ _ Hanswer) in Hin as (e & He & [<- Hd]).
  apply subseteq_take in He. split; [by apply newer_rows in He|].
  split; [done|]. intros w ->. rewrite Hd. by apply newer_after in He.
Qed.

(** The opening: what the initial message carries and the first
    watermark. *)
Lemma open_feed_return store first w :
  Dashboard.open_feed model_id select_models get_metrics_data store
    = Return (first, w) →
  w = Dashboard.advance None (Dashboard.events first)
  ∧ Forall2 renders (take 50 (newer None (audit_events store)))
      (Dashboard.events first).
Proof.
  unfold Dashboard.open_feed, with_session.
  unfold mbind at 1, M_bind at 1.
  destruct (get_events_since None 50 _) as [r db1] eqn:Hquery.
  apply get_events_since_return in Hquery as [-> Hanswer].
  destruct r as [answer|x]; [|done].
  unfold mbind, M_bind, Dashboard.execute. simpl.
  destruct (get_metrics_data store) as [initial_metrics|x]; [|done].
  simpl. intros [= <- <-]. split; [done|]. by apply Hanswer.
Qed.

(** One turn that sends: what it sends and where the watermark goes. *)
Lemma poll_sends store w m w' :
  poll store w = Return (Some m, w') →
  ∃ d rest,
    Dashboard.events m = d :: rest
    ∧ Dashboard.type m = Dashboard.update
    ∧ w' = Some (Dashboard.timestamp_iso d)
    ∧ Forall2 renders (take 50 (newer w (audit_events store)))
        (Dashboard.events m).
Proof.
  unfold Dashboard.poll, with_session.
  unfold mbind at 1, M_bind at 1.
  destruct (get_events_since w 50 _) as [r db1] eqn:Hquery.
  apply get_events_since_return in Hquery as [-> Hanswer].
  destruct r as [[|d rest]|x]; [done| |done].
  unfold mbind, M_bind, Dashboard.execute. simpl.
  destruct (get_metrics_data store) as [updated_metrics|x]; [|done].
  simpl. intros [= <- <-]. exists d, rest. simpl.
  repeat split. by apply Hanswer.
Qed.

Lemma poll_silent store w w' : poll store w = Return (None, w') → w' = w.
Proof.
  unfold Dashboard.poll, with_session.
  unfold mbind at 1, M_bind at 1.
  destruct (get_events_since w 50 _) as [[[|d rest]|x] db1];
    [by intros [= <-]| |done].
  unfold mbind, M_bind, Dashboard.execute. simpl.
  by destruct (get_metrics_data _).
Qed.

(** The watermark after a turn bounds what the turn delivered, and is not
    below the watermark before. *)
Lemma poll_watermark store w r :
  poll store w = Return r →
  (∀ d, d ∈ delivered r → ∃ w1, r.2 = Some w1 ∧ stamp d ≤ instant w1)
  ∧ (∀ w0, w = Some w0 → ∃ w1, r.2 = Some w1 ∧ instant w0 ≤ instant w1)
  ∧ (∀ w0, w = Some w0 → ∀ d, d ∈ delivered r → instant w0 < stamp d).
Proof.
  destruct r as [[m|] w']; intros Hpoll.
  - destruct (poll_sends _ _ _ _ Hpoll)
      as (d & rest & Hev & _ & -> & Hanswer).
    rewrite Hev in Hanswer. unfold delivered. simpl.
    split; [|split].
    + intros d' Hin. eexists. split; [done|]. rewrite Hev in Hin.
      by apply (answer_head_max w 50 (audit_events store) d rest).
    + intros w0 Hw. eexists. split; [done|].
      assert (instant w0 < stamp d); [|unfold stamp in *; lia].
      eapply (answer_rows w 50); [exact Hanswer| |exact Hw].
      apply elem_of_cons. by left.
    + intros w0 Hw d' Hin. rewrite Hev in Hin.
      by eapply (answer_rows w 50); [exact Hanswer|exact Hin|].
  - apply poll_silent in Hpoll as ->. unfold delivered. simpl.
    split; [|split].
    + intros d Hin. by apply elem_of_nil in Hin.
    + intros w0 ->. by exists w0.
    + intros w0 _ d Hin. by apply elem_of_nil in Hin.
Qed.

(** Whatever a later turn delivers lies after the watermark the loop
    started from. *)
Lemma poll_loop_after stores : ∀ w w0 j rj,
  w = Some w0 →
  poll_loop stores w !! j = Some rj →
  ∀ d, d ∈ delivered rj → instant w0 < stamp d.
Proof.
  induction stores as [|store stores IH]; intros w w0 j rj Hw Hj d Hd;
    [done|].
  simpl in Hj. destruct (poll store w) as [r|x] eqn:Hpoll; [|done].
  destruct (poll_watermark store w r Hpoll) as (_ & Hmono & Hafter).
  destruct j as [|j]; simpl in Hj.
  - injection Hj as <-. by apply (Hafter w0).
  - destruct (Hmono w0 Hw) as (w1 & Hw1 & Hle).
    pose proof (IH _ w1 j rj Hw1 Hj d Hd). lia.
Qed.

(** C10. In every turn that sends an update, the events are rows of the
    table, all strictly after the watermark before the turn, and the
    watermark moves to the timestamp of the first event sent, which is the
    newest of them, so it strictly increases; a turn that sends nothing
    leaves it alone.  Hence, along the loop, whatever a later turn delivers
    is strictly newer than whatever an earlier turn or the initial message
    delivered: no event goes out twice on a connection.  This holds
    whatever the reads of [model_id], the select on the models and the
    metrics give: a turn in which one of them raises sends nothing and ends
    the connection. *)
Theorem live_feed_watermark :
  (∀ store w m w',
     poll store w = Return (Some m, w') →
     ∃ d rest,
       Dashboard.events m = d :: rest
       ∧ w' = Some (Dashboard.timestamp_iso d)
       ∧ (∀ d', d' ∈ Dashboard.events m →
            Dashboard.row d' ∈ audit_events store
            ∧ stamp d' = instant (AuditEvent.timestamp (Dashboard.row d'))
            ∧ stamp d' ≤ stamp d)
       ∧ (∀ w0, w = Some w0 →
            instant w0 < stamp d
            ∧ ∀ d', d' ∈ Dashboard.events m → instant w0 < stamp d'))
  ∧ (∀ store w w', poll store w = Return (None, w') → w' = w)
  ∧ (∀ stores w i j ri rj,
       (i < j)%nat →
       poll_loop stores w !! i = Some ri →
       poll_loop stores w !! j = Some rj →
       ∀ d d', d ∈ delivered ri → d' ∈ delivered rj → stamp d < stamp d')
  ∧ (∀ store stores first j rj,
       (websocket_endpoint store stores).1 = Some first →
       (websocket_endpoint store stores).2 !! j = Some rj →
       ∀ d d',
         d ∈ Dashboard.events first → d' ∈ delivered rj →
         stamp d < stamp d').
Proof.
  split; [|split; [|split]].
  - intros store w m w' Hpoll.
    destruct (poll_sends _ _ _ _ Hpoll)
      as (d & rest & Hev & _ & Hw' & Hanswer).
    exists d, rest. split; [done|]. split; [done|].
    assert (Hhead : d ∈ Dashboard.events m)
      by (rewrite Hev; apply elem_of_cons; by left).
    split.
    + intros d' Hin.
      destruct (answer_rows w 50 _ _ d' Hanswer Hin) as (Hrow & Hstamp & _).
      split; [done|]. split; [done|]. rewrite Hev in Hanswer, Hin.
      by apply (answer_head_max w 50 (audit_events store) d rest).
    + intros w0 Hw. split.
      * by eapply (answer_rows w 50); [exact Hanswer|exact Hhead|].
      * intros d' Hin.
        by eapply (answer_rows w 50); [exact Hanswer|exact Hin|].
  - apply poll_silent.
  - induction stores as [|store stores IH]; intros w i j ri rj Hij Hi Hj d d';
      [done|].
    simpl in Hi, Hj. destruct (poll store w) as [r|x] eqn:Hpoll; [|done].
    destruct j as [|j]; [lia|]. simpl in Hj.
    destruct i as [|i]; simpl in Hi.
    + injection Hi as <-. intros Hd Hd'.
      destruct (poll_watermark store w r Hpoll) as (Hbound & _ & _).
      destruct (Hbound d Hd) as (w1 & Hw1 & Hle).
      pose proof (poll_loop_after stores _ w1 j rj Hw1 Hj d' Hd'). lia.
    + apply (IH r.2 i j); [lia|done|done].
  - intros store stores first j rj. unfold Dashboard.websocket_endpoint.
    destruct (Dashboard.open_feed _ _ _ store) as [[first' w]|x] eqn:Hopen;
      [|done].
    apply open_feed_return in Hopen as [-> Hanswer].
    simpl. intros [= <-] Hj d d' Hd Hd'.
    destruct (Dashboard.events first') as [|d0 rest];
      [by apply elem_of_nil in Hd|].
    pose proof (answer_head_max None 50 (audit_events store) d0 rest
                  Hanswer d Hd) as Hle.
    pose proof (poll_loop_after stores _ _ j rj eq_refl Hj d' Hd') as Hlt.
    unfold Dashboard.fromisoformat, stamp in *. lia.
Qed.

End feed.

(** When every event has a [model_id] and the metrics are computed, the
    feed on a table of three events sends them at the first turn, and the
    event that arrives afterwards, stamped later, at the second: what the
    second turn delivers is newer than what the first delivered. *)
Lemma live_feed_watermark_witness :
  stamp (plain_dict (Sample.stored 1 (utc 10) None))
  < stamp (plain_dict (Sample.stored 4 (utc 40) None)).
Proof.
  refine (proj1 (proj2 (proj2
            (live_feed_watermark declared_model_id no_models no_metrics)))
            [flushed Sample.three_events;
             {| audit_events :=
                  Sample.stored 4 (utc 40) None
                    :: audit_events (flushed Sample.three_events);
                sessions := ∅ |}]
            None 0%nat 1%nat
            (Some {| Dashboard.type := Dashboard.update;
                     Dashboard.metrics := tt;
                     Dashboard.events :=
                       [plain_dict (Sample.stored 2 (utc 30) None);
                        plain_dict (Sample.stored 3 (utc 20) None);
                        plain_dict (Sample.stored 1 (utc 10) None)] |},
             Some (utc 30))
            (Some {| Dashboard.type := Dashboard.update;
                     Dashboard.metrics := tt;
                     Dashboard.events :=
                       [plain_dict (Sample.stored 4 (utc 40) None)] |},
             Some (utc 40))
            _ _ _
            (plain_dict (Sample.stored 1 (utc 10) None))
            (plain_dict (Sample.stored 4 (utc 40) None)) _ _).
  - lia.
  - vm_compute. reflexivity.
  - vm_compute. reflexivity.
  - unfold delivered. simpl. rewrite !elem_of_cons. auto.
  - unfold delivered. simpl. apply elem_of_cons. by left.
Defined.

(** ** The stale-session reaper *)

(** C9 (where the code departs from it).  The tick compares [start_time] as
    the store returns it with an aware cutoff.  On a store that returns it
    naive, the comparison raises [TypeError] at the first active session:
    the tick ends there and the session, 100 hours old, stays open.
    [upsert_session] passes the stored [start_time] through
    [ensure_timezone_aware] before it compares; the tick does not. *)
Theorem close_stale_sessions_naive_start_time :
  BackgroundService._close_stale_sessions (timedelta_hours 100) naive_store
  = (Raise TypeError, naive_store).
Proof. vm_compute. reflexivity. Qed.

(** The same session with an aware [start_time] is closed at
    [start_time + 24h]. *)
Lemma close_stale_sessions_aware_example :
  ∃ store',
    BackgroundService._close_stale_sessions (timedelta_hours 100) aware_store
    = (Return 1, store')
    ∧ sessions store' !! "s1"
      = Some (Session.mk "s1" (Some "ann") (Some "pc1") (utc 0)
                (Some (utc (timedelta_hours 24))) 3).
Proof. eexists. split; [vm_compute; reflexivity|]. vm_compute. reflexivity. Qed.

Lemma end_session_run sid t db :
  SessionRepository.end_session sid t db =
    (Return (bool_decide (is_Some (sessions (flushed db) !! sid))),
     let store :=
       {| audit_events := audit_events (flushed db);
          sessions := alter (Session.with_end_time (ensure_timezone_aware t))
                        sid (sessions (flushed db)) |} in
     {| committed := store; flushed := store |}).
Proof. reflexivity. Qed.

(** With aware start times the loop runs through, turn by turn. *)
Lemma close_loop_run cutoff active : ∀ n db,
  is_aware cutoff = true →
  Forall (λ s, is_aware (Session.start_time s) = true) active →
  ∃ n' db',
    BackgroundService.close_loop active cutoff n db = (Return n', db')
    ∧ audit_events (flushed db') = audit_events (flushed db)
    ∧ sessions (flushed db')
      = foldl (close_step cutoff) (sessions (flushed db)) active.
Proof.
  induction active as [|sess active IH]; intros n db Hcut Haware.
  - exists n, db. done.
  - apply Forall_cons in Haware as [Hs Haware].
    cbn [BackgroundService.close_loop foldl].
    unfold mbind at 1, M_bind at 1, lift.
    rewrite dt_lt_aware by done. unfold close_step at 2.
    case_bool_decide as Hstale.
    + unfold mbind at 1, M_bind at 1. rewrite end_session_run.
      match goal with |- context [BackgroundService.close_loop _ _ ?n1 ?db1] =>
        destruct (IH n1 db1 Hcut Haware) as (n' & db' & Hrun & Hev & Hse)
      end.
      exists n', db'. rewrite Hrun. done.
    + destruct (IH n db Hcut Haware) as (n' & db' & Hrun & Hev & Hse).
      exists n', db'. by rewrite Hrun.
Qed.

Lemma with_end_time_twice t s :
  Session.with_end_time t (Session.with_end_time t s)
  = Session.with_end_time t s.
Proof. done. Qed.

(** What the turns of the loop make of one row of the table. *)
Lemma close_steps_lookup cutoff sid (g : Session.t → Session.t) active :
  (∀ s, g (g s) = g s) →
  (∀ s, s ∈ active → Session.session_id s = sid →
        Session.with_end_time
          (ensure_timezone_aware
             (dt_add (Session.start_time s) (timedelta_hours 24))) = g) →
  ∀ tbl,
    foldl (close_step cutoff) tbl active !! sid
    = if decide (Exists (λ s, Session.session_id s = sid
                              ∧ instant (Session.start_time s)
                                < instant cutoff) active)
      then g <$> tbl !! sid else tbl !! sid.
Proof.
  intros Hidem. induction active as [|s active IH]; intros Hg tbl.
  - rewrite decide_False; [done|]. by intros ?%Exists_nil.
  - cbn [foldl]. rewrite IH
      by (intros s' Hin; apply Hg; apply elem_of_cons; by right).
    unfold close_step.
    destruct (decide (Session.session_id s = sid
                      ∧ instant (Session.start_time s) < instant cutoff))
      as [[Hid Hst]|Hno].
    + rewrite (decide_True (P := Exists _ (s :: active)))
        by (apply Exists_cons; by left).
      rewrite bool_decide_true by done.
      rewrite (Hg s) by (try apply elem_of_cons; auto).
      rewrite Hid, !lookup_alter_eq.
      destruct (decide _); [|done].
      destruct (tbl !! sid); simpl; [|done]. by rewrite Hidem.
    + assert (Hsame :
        (if bool_decide (instant (Session.start_time s) < instant cutoff)
         then alter (Session.with_end_time
                       (ensure_timezone_aware
                          (dt_add (Session.start_time s)
                             (timedelta_hours 24))))
                (Session.session_id s) tbl
         else tbl) !! sid = tbl !! sid).
      { case_bool_decide; [|done]. rewrite lookup_alter_ne; [done|].
        intros Hid. apply Hno. done. }
      destruct (decide (Exists _ active)) as [Hyes|Hnone].
      * rewrite decide_True by (apply Exists_cons; by right).
        by rewrite Hsame.
      * rewrite decide_False; [done|].
        intros [?|?]%Exists_cons; done.
Qed.

Lemma active_sessions_run db :
  SessionRepository.get_active_sessions db =
    (Return (merge_sort SessionRepository.start_time_desc
               (filter (λ s, Session.end_time s = None)
                  ((map_to_list (sessions (flushed db))).*2))), db).
Proof. reflexivity. Qed.

Lemma active_sessions_elem (tbl : gmap string Session.t) s :
  s ∈ merge_sort SessionRepository.start_time_desc
        (filter (λ s, Session.end_time s = None) (map_to_list tbl).*2)
  ↔ Session.end_time s = None ∧ ∃ sid, tbl !! sid = Some s.
Proof.
  rewrite merge_sort_Permutation, list_elem_of_filter, list_elem_of_fmap.
  split; intros [Hend Hin]; (split; [done|]).
  - destruct Hin as ([sid s'] & -> & Hin). exists sid.
    by apply elem_of_map_to_list.
  - destruct Hin as (sid & Hin). exists (sid, s). split; [done|].
    by apply elem_of_map_to_list.
Qed.

Lemma ensure_timezone_aware_id d :
  is_aware d = true → ensure_timezone_aware d = d.
Proof. by destruct d as [w [o|]]. Qed.

(** On a store whose active sessions carry aware start times, and whose rows
    sit under their own ids, one tick returns and does to every row what
    [reap] says: an open session older than 24 hours gets
    [end_time = start_time + 24h], every other row stays as it is. *)
Lemma close_stale_sessions_aware now store :
  (∀ sid s, sessions store !! sid = Some s → Session.session_id s = sid) →
  (∀ sid s, sessions store !! sid = Some s → Session.end_time s = None →
            is_aware (Session.start_time s) = true) →
  ∃ n store',
    BackgroundService._close_stale_sessions now store = (Return n, store')
    ∧ audit_events store' = audit_events store
    ∧ ∀ sid, sessions store' !! sid = reap now <$> sessions store !! sid.
Proof.
  intros Hids Haware.
  unfold BackgroundService._close_stale_sessions, with_session.
  unfold BackgroundService.close_stale.
  unfold mbind at 1, M_bind at 1. rewrite active_sessions_run.
  cbn [flushed].
  set (active := merge_sort _ _).
  set (cutoff := dt_sub (utc now) (timedelta_hours 24)).
  assert (Hactive : ∀ s, s ∈ active
            ↔ Session.end_time s = None ∧ ∃ sid, sessions store !! sid = Some s)
    by apply active_sessions_elem.
  destruct (close_loop_run cutoff active 0
              {| committed := store; flushed := store |})
    as (n & db' & Hrun & Hev & Hse).
  { done. }
  { apply Forall_forall. intros s [Hend (sid & Hs)]%Hactive. eauto. }
  unfold mbind at 1, M_bind at 1. rewrite Hrun. run.
  exists n, (flushed db'). split; [done|]. split; [done|].
  intros sid. rewrite Hse. cbn [flushed].
  destruct (sessions store !! sid) as [r0|] eqn:Hr0.
  - rewrite (close_steps_lookup cutoff sid
               (Session.with_end_time
                  (ensure_timezone_aware
                     (dt_add (Session.start_time r0) (timedelta_hours 24))))).
    + rewrite Hr0. simpl. unfold reap.
      assert (Hcut : instant cutoff = now - timedelta_hours 24).
      { unfold cutoff, instant. simpl. lia. }
      destruct (decide (Exists _ active)) as [Hyes|Hno].
      * apply Exists_exists in Hyes as (s & [Hend (k & Hk)]%Hactive & Hid & Hst).
        pose proof (Hids _ _ Hk). assert (s = r0) as -> by congruence.
        rewrite bool_decide_true by (split; [done|lia]).
        unfold close. rewrite ensure_timezone_aware_id; [done|].
        unfold is_aware, dt_add. simpl.
        apply (Haware _ _ Hr0 Hend).
      * rewrite bool_decide_false; [done|]. intros [Hend Hst].
        apply Hno, Exists_exists. exists r0. split.
        -- apply Hactive. split; [done|]. by exists sid.
        -- split; [by apply (Hids sid)|lia].
    + done.
    + intros s [_ (k & Hk)]%Hactive Hid.
      pose proof (Hids _ _ Hk). assert (s = r0) as -> by congruence. done.
  - rewrite (close_steps_lookup cutoff sid id); [| done |].
    + rewrite Hr0. by destruct (decide _).
    + intros s [_ (k & Hk)]%Hactive Hid.
      pose proof (Hids _ _ Hk). congruence.
Qed.

(** * Further properties *)

(** ** Bulk insertion *)

Lemma chunks_aux_concat {A} (n : nat) : ∀ fuel (l : list A),
  (0 < n)%nat → (length l ≤ fuel)%nat → concat (chunks_aux fuel n l) = l.
Proof.
  induction fuel as [|fuel IH]; intros l Hn Hlen.
  - destruct l; [done|simpl in Hlen; lia].
  - destruct l as [|x l]; [done|].
    cbn [chunks_aux concat]. rewrite IH; [apply take_drop|done|].
    rewrite length_drop. simpl in *. lia.
Qed.

Lemma chunks_concat {A} (n : nat) (l : list A) :
  (0 < n)%nat → concat (chunks n l) = l.
Proof. intros Hn. by apply chunks_aux_concat. Qed.

Lemma primary_key_free_app ids new1 new2 :
  EventRepository.primary_key_free ids (new1 ++ new2)
  ↔ EventRepository.primary_key_free ids new1
    ∧ EventRepository.primary_key_free (ids ++ new1) new2.
Proof.
  unfold EventRepository.primary_key_free.
  rewrite NoDup_app, Forall_app, !Forall_forall.
  setoid_rewrite elem_of_app. split.
  - intros [(Hn1 & Hdisj & Hn2) [H1 H2]]. repeat split; try done.
    intros x Hx [Hin|Hin]; [by apply (H2 x)|by apply (Hdisj x)].
  - intros [[Hn1 H1] [Hn2 H2]]. repeat split; try done.
    + intros x Hx Hx2. apply (H2 x Hx2). by right.
    + intros x Hx Hin. apply (H2 x Hx). by left.
Qed.

Lemma event_ids_rows now (batch : list AuditEventCreate.t) :
  AuditEvent.event_id <$> (EventRepository.to_row now <$> batch)
  = AuditEventCreate.event_id <$> batch.
Proof. rewrite <- list_fmap_compose. by apply list_fmap_ext. Qed.

(** A flush of rows whose keys are free appends them. *)
Lemma add_all_flush_free now batch db :
  EventRepository.primary_key_free
    (AuditEvent.event_id <$> audit_events (flushed db))
    (AuditEventCreate.event_id <$> batch) →
  EventRepository.add_all_flush now batch db =
    (Return tt,
     {| committed := committed db;
        flushed :=
          {| audit_events :=
               audit_events (flushed db)
               ++ (EventRepository.to_row now <$> batch);
             sessions := sessions (flushed db) |} |}).
Proof.
  intros Hfree. unfold EventRepository.add_all_flush. run.
  by rewrite bool_decide_true.
Qed.

Lemma add_all_flush_taken now batch db :
  ¬ EventRepository.primary_key_free
      (AuditEvent.event_id <$> audit_events (flushed db))
      (AuditEventCreate.event_id <$> batch) →
  EventRepository.add_all_flush now batch db = (Raise IntegrityError, db).
Proof.
  intros Htaken. unfold EventRepository.add_all_flush. run.
  by rewrite bool_decide_false.
Qed.

Lemma insert_batches_free now : ∀ batches total db,
  EventRepository.primary_key_free
    (AuditEvent.event_id <$> audit_events (flushed db))
    (AuditEventCreate.event_id <$> concat batches) →
  EventRepository.insert_batches now batches total db =
    (Return (total + len (concat batches)),
     {| committed := committed db;
        flushed :=
          {| audit_events :=
               audit_events (flushed db)
               ++ (EventRepository.to_row now <$> concat batches);
             sessions := sessions (flushed db) |} |}).
Proof.
  induction batches as [|batch batches IH]; intros total db Hfree.
  - simpl. unfold mret, M_ret, len. simpl. rewrite app_nil_r.
    destruct db as [c [ev se]]. simpl. do 2 f_equal. lia.
  - cbn [concat] in *. rewrite fmap_app in Hfree.
    apply primary_key_free_app in Hfree as [Hfree1 Hfree2].
    cbn [EventRepository.insert_batches].
    unfold mbind at 1, M_bind at 1. rewrite add_all_flush_free by done.
    rewrite IH.
    + simpl. f_equal.
      * f_equal. unfold len. rewrite length_app. lia.
      * do 2 f_equal. by rewrite fmap_app, app_assoc.
    + simpl. by rewrite fmap_app, event_ids_rows.
Qed.

Lemma insert_batches_taken now : ∀ batches total db,
  ¬ EventRepository.primary_key_free
      (AuditEvent.event_id <$> audit_events (flushed db))
      (AuditEventCreate.event_id <$> concat batches) →
  ∃ db',
    EventRepository.insert_batches now batches total db
    = (Raise IntegrityError, db').
Proof.
  induction batches as [|batch batches IH]; intros total db Htaken.
  - destruct Htaken. split; [apply NoDup_nil_2|apply Forall_nil_2].
  - cbn [concat] in *. rewrite fmap_app in Htaken.
    cbn [EventRepository.insert_batches].
    unfold mbind at 1, M_bind at 1.
    destruct (decide (EventRepository.primary_key_free
                (AuditEvent.event_id <$> audit_events (flushed db))
                (AuditEventCreate.event_id <$> batch))) as [Hfree|Hfirst].
    + rewrite add_all_flush_free by done. apply IH. simpl.
      rewrite fmap_app, event_ids_rows. intros Hrest. apply Htaken.
      by apply primary_key_free_app.
    + rewrite add_all_flush_taken by done. by eexists.
Qed.

(** The run of [bulk_create] on free keys. *)
Lemma bulk_create_free now events batch_size db :
  0 < batch_size → events ≠ [] →
  EventRepository.primary_key_free
    (AuditEvent.event_id <$> audit_events (flushed db))
    (AuditEventCreate.event_id <$> events) →
  EventRepository.bulk_create now events batch_size db =
    (Return (len events),
     let store :=
       {| audit_events :=
            audit_events (flushed db)
            ++ (EventRepository.to_row now <$> events);
          sessions := sessions (flushed db) |} in
     {| committed := store; flushed := store |}).
Proof.
  intros Hpos Hne Hfree. unfold EventRepository.bulk_create.
  destruct events as [|e events]; [done|].
  set (l := e :: events) in *. unfold try_except.
  unfold mbind at 1, M_bind at 1, lift, range_chunks.
  rewrite !bool_decide_false by lia.
  unfold mbind at 1, M_bind at 1.
  rewrite insert_batches_free; rewrite chunks_concat by lia; [|done].
  run. do 2 f_equal.
Qed.

(** X1. With a positive batch size and free keys, [bulk_create] stores the
    whole list, in order, after the rows of the table, whatever the size of
    the sub-batches; it reports the length of the list and commits, and the
    table has grown by exactly that many rows. *)
Theorem bulk_create_appends now events batch_size db :
  0 < batch_size → events ≠ [] →
  EventRepository.primary_key_free
    (AuditEvent.event_id <$> audit_events (flushed db))
    (AuditEventCreate.event_id <$> events) →
  ∃ db',
    EventRepository.bulk_create now events batch_size db
      = (Return (len events), db')
    ∧ committed db' = flushed db'
    ∧ audit_events (flushed db')
      = (audit_events (flushed db)
         ++ (EventRepository.to_row now <$> events))%list
    ∧ len (audit_events (flushed db'))
      = len (audit_events (flushed db)) + len events
    ∧ sessions (flushed db') = sessions (flushed db).
Proof.
  intros Hpos Hne Hfree. eexists. split; [by apply bulk_create_free|].
  simpl. repeat split. unfold len.
  rewrite length_app, length_fmap. lia.
Qed.

Lemma bulk_create_appends_witness :
  ∃ db',
    EventRepository.bulk_create (utc 0)
      [Sample.event 4 (utc 40) None None None;
       Sample.event 5 (utc 50) None None None;
       Sample.event 6 (utc 60) None None None] 2 Sample.three_events
    = (Return 3, db')
    ∧ len (audit_events (flushed db')) = 6.
Proof.
  destruct (bulk_create_appends (utc 0)
              [Sample.event 4 (utc 40) None None None;
               Sample.event 5 (utc 50) None None None;
               Sample.event 6 (utc 60) None None None] 2 Sample.three_events)
    as (db' & Hrun & _ & _ & Hlen & _).
  - lia.
  - done.
  - apply (bool_decide_unpack _). vm_compute. exact I.
  - exists db'. split; [exact Hrun|exact Hlen].
Defined.

(** The run of [bulk_create] on keys that are taken. *)
Lemma bulk_create_taken now events batch_size db :
  0 < batch_size →
  ¬ EventRepository.primary_key_free
      (AuditEvent.event_id <$> audit_events (flushed db))
      (AuditEventCreate.event_id <$> events) →
  EventRepository.bulk_create now events batch_size db =
    (Raise IntegrityError,
     {| committed := committed db; flushed := committed db |}).
Proof.
  intros Hpos Htaken.
  destruct (EventRepository.bulk_create now events batch_size db)
    as [r db'] eqn:Hrun.
  assert (r = Raise IntegrityError) as ->.
  { revert Hrun. unfold EventRepository.bulk_create.
    destruct events as [|e events].
    { destruct Htaken. split; [apply NoDup_nil_2|apply Forall_nil_2]. }
    set (l := e :: events) in *. unfold try_except.
    unfold mbind at 1, M_bind at 1, lift, range_chunks.
    rewrite !bool_decide_false by lia.
    unfold mbind at 1, M_bind at 1.
    destruct (insert_batches_taken now (chunks (Z.to_nat batch_size) l) 0 db)
      as (db1 & ->).
    { by rewrite chunks_concat by lia. }
    run. by intros [= <- _]. }
  by apply bulk_create_raise in Hrun as ->.
Qed.

(** X2. With a positive batch size, a list that repeats an event id, or
    carries one that is in the table, is refused as a whole: [bulk_create]
    raises the integrity error and leaves the session rolled back, the rows
    of the sub-batches flushed before the failing one included. *)
Theorem bulk_create_refuses_taken_ids now events batch_size db :
  0 < batch_size →
  ¬ NoDup (AuditEventCreate.event_id <$> events)
  ∨ (∃ e, e ∈ events
          ∧ AuditEventCreate.event_id e
            ∈ AuditEvent.event_id <$> audit_events (flushed db)) →
  EventRepository.bulk_create now events batch_size db =
    (Raise IntegrityError,
     {| committed := committed db; flushed := committed db |}).
Proof.
  intros Hpos Htaken. apply bulk_create_taken; [done|].
  intros [Hnd Hnew]. destruct Htaken as [Hdup|(e & He & Hin)]; [done|].
  apply (proj1 (Forall_forall _ _) Hnew (AuditEventCreate.event_id e));
    [|done].
  apply list_elem_of_fmap. by exists e.
Qed.

Lemma bulk_create_refuses_taken_ids_witness :
  EventRepository.bulk_create (utc 0)
    [Sample.event 4 (utc 40) None None None;
     Sample.event 2 (utc 50) None None None] 1 Sample.three_events
  = (Raise IntegrityError, Sample.three_events).
Proof.
  refine (bulk_create_refuses_taken_ids (utc 0)
            [Sample.event 4 (utc 40) None None None;
             Sample.event 2 (utc 50) None None None] 1 Sample.three_events
            _ _).
  - lia.
  - right. exists (Sample.event 2 (utc 50) None None None). split.
    + apply elem_of_cons. right. apply elem_of_cons. by left.
    + apply (bool_decide_unpack _). vm_compute. exact I.
Defined.

(** X3. The degenerate batch sizes.  A zero batch size makes [range] raise
    [ValueError], which rolls the session back.  With a negative one the
    loop has no turn: [bulk_create] reports 0 and stores no event, though it
    commits whatever the session had flushed. *)
Theorem bulk_create_degenerate_batch_size now events db :
  events ≠ [] →
  EventRepository.bulk_create now events 0 db
    = (Raise ValueError,
       {| committed := committed db; flushed := committed db |})
  ∧ ∀ batch_size, batch_size < 0 →
      EventRepository.bulk_create now events batch_size db
      = (Return 0, {| committed := flushed db; flushed := flushed db |}).
Proof.
  intros Hne. destruct events as [|e events]; [done|]. split.
  - reflexivity.
  - intros batch_size Hneg. unfold EventRepository.bulk_create, try_except.
    unfold mbind at 1, M_bind at 1, lift, range_chunks.
    rewrite bool_decide_false by lia. rewrite bool_decide_true by lia.
    reflexivity.
Qed.

Lemma bulk_create_degenerate_batch_size_witness :
  EventRepository.bulk_create (utc 0)
    [Sample.event 4 (utc 40) None None None] (-1) Sample.three_events
  = (Return 0, Sample.three_events).
Proof.
  refine (proj2 (bulk_create_degenerate_batch_size (utc 0)
                   [Sample.event 4 (utc 40) None None None]
                   Sample.three_events _) (-1) _); [done|lia].
Defined.

(** ** Ingestion, end to end *)

Lemma keeps_events_ret {A} (a : A) : keeps_events (mret a).
Proof. by intros db r db' [= _ <-]. Qed.

Lemma keeps_events_bind {A B} (c : M A) (f : A → M B) :
  keeps_events c → (∀ a, keeps_events (f a)) → keeps_events (c ≫= f).
Proof.
  intros Hc Hf db r db'. unfold mbind, M_bind.
  destruct (c db) as [[a|e] db1] eqn:E.
  - intros H. apply Hf in H. rewrite H. by apply Hc in E.
  - intros [= _ <-]. by apply Hc in E.
Qed.

Lemma keeps_events_for_each {A} (l : list A) (body : A → M unit) :
  (∀ x, keeps_events (body x)) → keeps_events (for_each l body).
Proof.
  intros Hb. induction l as [|x l IH]; simpl.
  - apply keeps_events_ret.
  - apply keeps_events_bind; auto.
Qed.

Lemma keeps_events_put_sessions m : keeps_events (put_sessions m).
Proof. by intros db r db' [= _ <-]. Qed.

Lemma keeps_events_upsert sid u m t :
  keeps_events (SessionRepository.upsert_session sid u m t).
Proof.
  unfold SessionRepository.upsert_session.
  apply keeps_events_bind; [by intros db r db' [= _ <-]|].
  intros tbl. destruct (tbl !! sid).
  - apply keeps_events_bind; [by intros db r db' [= _ <-]|]. intros b.
    apply keeps_events_bind; [apply keeps_events_put_sessions|].
    intros _. apply keeps_events_ret.
  - apply keeps_events_bind; [apply keeps_events_put_sessions|].
    intros _. apply keeps_events_ret.
Qed.

Lemma keeps_events_increment sid n :
  keeps_events (SessionRepository.increment_event_count sid n).
Proof.
  unfold SessionRepository.increment_event_count.
  apply keeps_events_bind; [by intros db r db' [= _ <-]|].
  intros tbl. apply keeps_events_put_sessions.
Qed.

Lemma keeps_events_track b events : keeps_events (EventService.track b events).
Proof.
  destruct b; simpl; [|apply keeps_events_ret].
  unfold EventService._update_sessions.
  apply keeps_events_bind; [by intros db r db' [= _ <-]|].
  intros d. apply keeps_events_for_each.
  intros [sid [[u m] t]]. unfold EventService.upsert_and_count.
  apply keeps_events_bind; [apply keeps_events_upsert|].
  intros _. apply keeps_events_increment.
Qed.

(** On validated events the session tracking always returns. *)
Lemma track_returns b events db :
  Forall aware_event events →
  ∃ db1,
    EventService.track b events db = (Return tt, db1)
    ∧ committed db1 = committed db
    ∧ audit_events (flushed db1) = audit_events (flushed db).
Proof.
  intros Haware.
  assert (∃ db1, EventService.track b events db = (Return tt, db1))
    as (db1 & Hrun).
  { destruct b; simpl; [|by eexists].
    destruct (collect_sessions_values events [] []) as (d & E & _);
      [done|done|apply NoDup_nil_2| |done|].
    { intros sid. split.
      - intros H. by apply elem_of_nil in H.
      - intros (_ & e & H & _). by apply elem_of_nil in H. }
    destruct (collect_sessions_keys _ _ _ E) as [Hnd _];
      [apply NoDup_nil_2|].
    destruct (update_loop_effect events d db Hnd) as (db1 & Hloop & _).
    exists db1. unfold EventService._update_sessions.
    unfold mbind at 1, M_bind at 1, lift. by rewrite E. }
  exists db1. split; [done|]. split.
  - by apply keeps_committed_track in Hrun.
  - by apply keeps_events_track in Hrun.
Qed.

Lemma filter_event_id_none (id : N) (rows : list AuditEvent.t) :
  id ∉ AuditEvent.event_id <$> rows →
  filter (λ e, AuditEvent.event_id e = id) rows = [].
Proof.
  induction rows as [|r rows IH]; [done|]. csimpl.
  intros [Hne Hout]%not_elem_of_cons.
  rewrite filter_cons, decide_False by done. auto.
Qed.

Lemma filter_event_id_one (r : AuditEvent.t) (rows : list AuditEvent.t) :
  NoDup (AuditEvent.event_id <$> rows) → r ∈ rows →
  filter (λ e, AuditEvent.event_id e = AuditEvent.event_id r) rows = [r].
Proof.
  induction rows as [|r0 rows IH]; csimpl; intros Hnd Hin.
  - by apply elem_of_nil in Hin.
  - apply NoDup_cons in Hnd as [Hout Hnd]. rewrite filter_cons.
    apply elem_of_cons in Hin as [->|Hin].
    + rewrite decide_True by done. f_equal.
      by apply filter_event_id_none.
    + rewrite decide_False; [auto|]. intros Heq. apply Hout. rewrite Heq.
      apply list_elem_of_fmap. by exists r.
Qed.

Lemma model_validate_aware now e :
  aware_event e →
  EventReadService.model_validate (EventRepository.to_row now e)
  = EventRepository.to_row now e.
Proof.
  intros Haware. unfold EventReadService.model_validate. simpl.
  unfold EventRepository.to_row. f_equal.
  by apply ensure_timezone_aware_id.
Qed.

Lemma storable_aware e : storable e → aware_event e.
Proof. intros [Hutc _]. unfold aware_event, is_aware. by rewrite Hutc. Qed.

Lemma submitted_to_row now e : submitted (EventRepository.to_row now e) = e.
Proof. by destruct e. Qed.

(** X4. An admitted, non-empty batch of validated events, their timestamps
    in UTC and their cell counts within 64 bits, whose ids are pairwise
    distinct and new to the table, is accepted as a whole: accepted is the
    batch length, nothing is rejected, there is no error, the new rows
    follow the table's, one per event and in batch order, and are
    committed.  Each event is then found again under its id, with every
    submitted field as it was submitted. *)
Theorem ingest_batch_round_trip settings clock events track_sessions db :
  len events ≤ max_batch_size settings → events ≠ [] →
  Forall storable events →
  EventRepository.primary_key_free
    (AuditEvent.event_id <$> audit_events (flushed db))
    (AuditEventCreate.event_id <$> events) →
  ∃ db',
    EventService.ingest_batch settings clock events track_sessions db =
      (Return {| accepted := len events; rejected := 0; errors := [];
                 processing_time_ms :=
                   Q2Qc ((finished clock - started clock) # 1000) |}, db')
    ∧ committed db' = flushed db'
    ∧ event_ids (flushed db')
      = (event_ids (flushed db) ++ (AuditEventCreate.event_id <$> events))%list
    ∧ ∀ e, e ∈ events →
        ∃ r, EventReadService.get_event (AuditEventCreate.event_id e) db'
             = (Return (OneRow r), db')
             ∧ submitted r = e.
Proof.
  intros Hsize Hne Hstorable Hfree.
  assert (Haware : Forall aware_event events)
    by (eapply Forall_impl; [exact Hstorable|apply storable_aware]).
  destruct (track_returns track_sessions events db Haware)
    as (db1 & Htrack & Hcommitted & Hevents).
  assert (0 < max_batch_size settings).
  { destruct events; [done|]. unfold len in Hsize. simpl in Hsize. lia. }
  eexists. split; [|split; [|split]].
  - unfold EventService.ingest_batch, try_except.
    rewrite bool_decide_false by lia.
    unfold mbind at 1, M_bind at 1. rewrite Htrack.
    unfold mbind at 1, M_bind at 1.
    rewrite bulk_create_free by (try done; by rewrite Hevents).
    reflexivity.
  - done.
  - unfold event_ids. simpl.
    by rewrite Hevents, fmap_app, event_ids_rows.
  - intros e He. exists (EventRepository.to_row (server_now clock) e).
    split; [|apply submitted_to_row].
    unfold EventReadService.get_event, EventReads.get_by_id.
    run. rewrite Hevents, filter_app.
    destruct Hfree as [Hnd Hnew].
    rewrite filter_event_id_none
      by (apply (proj1 (Forall_forall _ _) Hnew), list_elem_of_fmap;
          by exists e).
    change (AuditEventCreate.event_id e)
      with (AuditEvent.event_id (EventRepository.to_row (server_now clock) e)).
    rewrite filter_event_id_one.
    + simpl. rewrite model_validate_aware; [done|].
      by apply (proj1 (Forall_forall _ _) Haware).
    + by rewrite event_ids_rows.
    + apply list_elem_of_fmap. by exists e.
Qed.

Lemma ingest_batch_round_trip_witness :
  ∃ db',
    EventService.ingest_batch default_settings Sample.clock
      [Sample.event 4 (utc 40) (Some "s1") (Some "ann") None;
       Sample.event 5 (utc 50) None None None] true Sample.three_events
    = (Return {| accepted := 2; rejected := 0; errors := [];
                 processing_time_ms := Q2Qc (3000 # 1000) |}, db')
    ∧ ∃ r, EventReadService.get_event 4 db' = (Return (OneRow r), db')
           ∧ submitted r
             = Sample.event 4 (utc 40) (Some "s1") (Some "ann") None.
Proof.
  destruct (ingest_batch_round_trip default_settings Sample.clock
              [Sample.event 4 (utc 40) (Some "s1") (Some "ann") None;
               Sample.event 5 (utc 50) None None None] true
              Sample.three_events)
    as (db' & Hrun & _ & _ & Hget).
  - unfold len; simpl; lia.
  - done.
  - repeat constructor.
  - apply (bool_decide_unpack _). vm_compute. exact I.
  - exists db'. split; [exact Hrun|].
    apply (Hget (Sample.event 4 (utc 40) (Some "s1") (Some "ann") None)).
    apply elem_of_cons. by left.
Defined.

(** X5. An admitted batch of validated events that repeats an event id, or
    carries one the table holds already, is rejected as a whole with the
    integrity error as its message, and the session is rolled back: a batch
    sent twice is stored once. *)
Theorem ingest_batch_rejects_taken_ids settings clock events track_sessions
    db :
  len events ≤ max_batch_size settings →
  Forall aware_event events →
  ¬ EventRepository.primary_key_free
      (AuditEvent.event_id <$> audit_events (flushed db))
      (AuditEventCreate.event_id <$> events) →
  EventService.ingest_batch settings clock events track_sessions db =
    (Return {| accepted := 0; rejected := len events;
               errors := [str_exn IntegrityError];
               processing_time_ms :=
                 Q2Qc ((finished clock - started clock) # 1000) |},
     {| committed := committed db; flushed := committed db |}).
Proof.
  intros Hsize Haware Htaken.
  destruct (track_returns track_sessions events db Haware)
    as (db1 & Htrack & Hcommitted & Hevents).
  assert (0 < max_batch_size settings).
  { destruct events as [|e events].
    - destruct Htaken. split; [apply NoDup_nil_2|apply Forall_nil_2].
    - unfold len in Hsize. simpl in Hsize. lia. }
  unfold EventService.ingest_batch, try_except.
  rewrite bool_decide_false by lia.
  unfold mbind at 1, M_bind at 1. rewrite Htrack.
  unfold mbind at 1, M_bind at 1.
  rewrite bulk_create_taken by (try done; by rewrite Hevents).
  by rewrite Hcommitted.
Qed.

Lemma ingest_batch_rejects_taken_ids_witness :
  EventService.ingest_batch default_settings Sample.clock
    [Sample.event 4 (utc 40) (Some "s1") (Some "ann") None;
     Sample.event 2 (utc 50) None None None] true Sample.three_events
  = (Return {| accepted := 0; rejected := 2;
               errors := [str_exn IntegrityError];
               processing_time_ms := Q2Qc (3000 # 1000) |},
     Sample.three_events).
Proof.
  refine (ingest_batch_rejects_taken_ids default_settings Sample.clock
            [Sample.event 4 (utc 40) (Some "s1") (Some "ann") None;
             Sample.event 2 (utc 50) None None None] true
            Sample.three_events _ _ _).
  - unfold len; simpl; lia.
  - repeat constructor.
  - apply (bool_decide_unpack _). vm_compute. exact I.
Defined.

(** ** The store stays well formed *)

Lemma keeps_well_formed_ret {A} (a : A) : keeps_well_formed (mret a).
Proof. by intros db r db' [= _ <-]. Qed.

Lemma keeps_well_formed_lift {A} (o : outcome A) : keeps_well_formed (lift o).
Proof. by intros db r db' [= _ <-]. Qed.

Lemma keeps_well_formed_raise {A} e : keeps_well_formed (raise (A := A) e).
Proof. by intros db r db' [= _ <-]. Qed.

Lemma keeps_well_formed_bind {A B} (c : M A) (f : A → M B) :
  keeps_well_formed c → (∀ a, keeps_well_formed (f a)) →
  keeps_well_formed (c ≫= f).
Proof.
  intros Hc Hf db r db'. unfold mbind, M_bind.
  destruct (c db) as [[a|e] db1] eqn:E; intros Hrun Hwc Hwf.
  - destruct (Hc _ _ _ E Hwc Hwf). by eapply Hf.
  - injection Hrun as _ <-. by eapply Hc.
Qed.

Lemma keeps_well_formed_try {A} (c : M A) (h : exn → M A) :
  keeps_well_formed c → (∀ e, keeps_well_formed (h e)) →
  keeps_well_formed (try_except c h).
Proof.
  intros Hc Hh db r db'. unfold try_except.
  destruct (c db) as [[a|e] db1] eqn:E; intros Hrun Hwc Hwf.
  - injection Hrun as _ <-. by eapply Hc.
  - destruct (Hc _ _ _ E Hwc Hwf). by eapply Hh.
Qed.

Lemma keeps_well_formed_for_each {A} (l : list A) (body : A → M unit) :
  (∀ x, keeps_well_formed (body x)) → keeps_well_formed (for_each l body).
Proof.
  intros Hb. induction l as [|x l IH]; simpl.
  - apply keeps_well_formed_ret.
  - apply keeps_well_formed_bind; auto.
Qed.

Lemma keeps_well_formed_commit : keeps_well_formed commit.
Proof. by intros db r db' [= _ <-]. Qed.

Lemma keeps_well_formed_rollback : keeps_well_formed rollback.
Proof. by intros db r db' [= _ <-]. Qed.

Lemma upsert_session_existing_exact sid u m t db s :
  sessions (flushed db) !! sid = Some s →
  SessionRepository.upsert_session sid u m t db =
    (Return (upsert_row u m t s),
     {| committed := committed db;
        flushed :=
          {| audit_events := audit_events (flushed db);
             sessions := <[sid := upsert_row u m t s]> (sessions (flushed db))
          |} |}).
Proof.
  intros Hs. unfold SessionRepository.upsert_session.
  unfold mbind at 1, M_bind at 1, get_sessions. rewrite Hs.
  unfold dt_gt. simpl Session.start_time. rewrite dt_lt_ensured.
  unfold upsert_row. by case_bool_decide; run.
Qed.

Lemma upsert_row_session_id u m t s :
  Session.session_id (upsert_row u m t s) = Session.session_id s.
Proof. unfold upsert_row. by case_bool_decide. Qed.

Lemma keeps_well_formed_upsert sid u m t :
  keeps_well_formed (SessionRepository.upsert_session sid u m t).
Proof.
  intros db r db' Hrun Hwc [Hids Hkeys].
  destruct (sessions (flushed db) !! sid) as [s|] eqn:Hs.
  - rewrite (upsert_session_existing_exact _ _ _ _ _ _ Hs) in Hrun.
    injection Hrun as _ <-. split; [done|]. split; [done|]. simpl.
    intros k s' [[<- <-]|[Hne Hk]]%lookup_insert_Some; [|by apply Hkeys].
    rewrite upsert_row_session_id. by apply Hkeys.
  - rewrite (upsert_session_new _ _ _ _ _ Hs) in Hrun.
    injection Hrun as _ <-. split; [done|]. split; [done|]. simpl.
    intros k s' [[<- <-]|[Hne Hk]]%lookup_insert_Some; [done|by apply Hkeys].
Qed.

Lemma keeps_well_formed_increment sid n :
  keeps_well_formed (SessionRepository.increment_event_count sid n).
Proof.
  intros db r db' [= _ <-] Hwc [Hids Hkeys]. split; [done|].
  split; [done|]. simpl.
  intros k s' [[<- (s & Hs & ->)]|[Hne Hk]]%lookup_alter_Some;
    [|by apply Hkeys].
  simpl. by apply Hkeys.
Qed.

Lemma keeps_well_formed_track b events :
  keeps_well_formed (EventService.track b events).
Proof.
  destruct b; simpl; [|apply keeps_well_formed_ret].
  unfold EventService._update_sessions.
  apply keeps_well_formed_bind; [apply keeps_well_formed_lift|].
  intros d. apply keeps_well_formed_for_each.
  intros [sid [[u m] t]]. unfold EventService.upsert_and_count.
  apply keeps_well_formed_bind; [apply keeps_well_formed_upsert|].
  intros _. apply keeps_well_formed_increment.
Qed.

Lemma keeps_well_formed_add_all_flush now batch :
  keeps_well_formed (EventRepository.add_all_flush now batch).
Proof.
  intros db r db'. unfold EventRepository.add_all_flush. run.
  case_bool_decide as Hfree; intros [= _ <-] Hwc [Hids Hkeys];
    (split; [done|]); [|done].
  split; [|done]. unfold event_ids in *. simpl.
  rewrite fmap_app, event_ids_rows. destruct Hfree as [Hnd Hnew].
  apply NoDup_app. split; [done|]. split; [|done].
  intros x Hx Hx'. by apply (proj1 (Forall_forall _ _) Hnew x).
Qed.

Lemma keeps_well_formed_insert_batches now batches total :
  keeps_well_formed (EventRepository.insert_batches now batches total).
Proof.
  revert total. induction batches as [|b batches IH]; intros total; simpl.
  - apply keeps_well_formed_ret.
  - apply keeps_well_formed_bind; [apply keeps_well_formed_add_all_flush|].
    intros _. apply IH.
Qed.

Lemma keeps_well_formed_bulk_create now events batch_size :
  keeps_well_formed (EventRepository.bulk_create now events batch_size).
Proof.
  unfold EventRepository.bulk_create.
  destruct events as [|e events]; [apply keeps_well_formed_ret|].
  apply keeps_well_formed_try.
  - apply keeps_well_formed_bind; [apply keeps_well_formed_lift|].
    intros batches.
    apply keeps_well_formed_bind; [apply keeps_well_formed_insert_batches|].
    intros total.
    apply keeps_well_formed_bind; [apply keeps_well_formed_commit|].
    intros _. apply keeps_well_formed_ret.
  - intros e0.
    apply keeps_well_formed_bind; [apply keeps_well_formed_rollback|].
    intros _. apply keeps_well_formed_raise.
Qed.

(** X6. Ingestion keeps the store well formed, whatever the batch, the
    settings and the outcome: if no event id occurs twice and every session
    row sits under its own id, in what is committed and in what the
    transaction sees, the same holds after [ingest_batch]. *)
Theorem ingest_batch_keeps_well_formed settings clock events track_sessions
    db r db' :
  EventService.ingest_batch settings clock events track_sessions db
    = (r, db') →
  well_formed (committed db) → well_formed (flushed db) →
  well_formed (committed db') ∧ well_formed (flushed db').
Proof.
  revert db r db'. change (keeps_well_formed
    (EventService.ingest_batch settings clock events track_sessions)).
  unfold EventService.ingest_batch. apply keeps_well_formed_try.
  - case_bool_decide; [apply keeps_well_formed_ret|].
    apply keeps_well_formed_bind; [apply keeps_well_formed_track|].
    intros _.
    apply keeps_well_formed_bind; [apply keeps_well_formed_bulk_create|].
    intros inserted. apply keeps_well_formed_ret.
  - intros e. apply keeps_well_formed_ret.
Qed.

Lemma ingest_batch_keeps_well_formed_witness :
  ∃ db',
    (EventService.ingest_batch default_settings Sample.clock
       [Sample.event 4 (utc 40) (Some "s1") (Some "ann") None;
        Sample.event 5 (utc 50) None None None] true Sample.three_events).2
    = db'
    ∧ well_formed (committed db') ∧ well_formed (flushed db').
Proof.
  eexists. split; [reflexivity|].
  eapply (ingest_batch_keeps_well_formed default_settings Sample.clock
            [Sample.event 4 (utc 40) (Some "s1") (Some "ann") None;
             Sample.event 5 (utc 50) None None None] true
            Sample.three_events).
  - apply surjective_pairing.
  - split; [apply (bool_decide_unpack _); vm_compute; exact I|].
    intros sid s Hs. simpl in Hs. by rewrite lookup_empty in Hs.
  - split; [apply (bool_decide_unpack _); vm_compute; exact I|].
    intros sid s Hs. simpl in Hs. by rewrite lookup_empty in Hs.
Defined.

(** ** What a batch does to the session registry *)





(** ** The ingestion endpoint *)

(** X8. All or nothing at the API.  For validated events the endpoint
    always answers, and in one of two ways: every event of the batch is
    accepted and stored, in order, after the rows the table had; or nothing
    is accepted, the whole batch is counted as rejected with a message, and
    the store is exactly what it was, session rows included. *)
Theorem ingest_events_all_or_nothing settings clock events store :
  Forall aware_event events →
  ∃ resp store',
    ingest_events settings clock events store = (Return resp, store')
    ∧ ((accepted resp = len events ∧ rejected resp = 0 ∧ errors resp = []
        ∧ audit_events store'
          = (audit_events store
             ++ (EventRepository.to_row (server_now clock) <$> events))%list)
       ∨ (accepted resp = 0 ∧ rejected resp = len events
          ∧ errors resp ≠ [] ∧ store' = store)).
Proof.
  intros Haware. unfold ingest_events, with_session.
  set (db := {| committed := store; flushed := store |}).
  destruct (decide (len events > max_batch_size settings)) as [Hbig|Hfits].
  { unfold EventService.ingest_batch, try_except.
    rewrite bool_decide_true by done. simpl.
    eexists _, _. split; [reflexivity|]. right. by simpl. }
  destruct (track_returns true events db Haware)
    as (db1 & Htrack & Hcommitted & Hevents).
  destruct events as [|e0 events].
  { revert Htrack. unfold EventService.ingest_batch, try_except.
    rewrite bool_decide_false by done. simpl. intros [= <-]. simpl.
    eexists _, _. split; [reflexivity|]. left. simpl.
    by rewrite app_nil_r. }
  set (batch := e0 :: events) in *.
  assert (0 < max_batch_size settings).
  { unfold len, batch in Hfits. simpl in Hfits. lia. }
  unfold EventService.ingest_batch, try_except.
  rewrite bool_decide_false by done.
  unfold mbind at 1, M_bind at 1. rewrite Htrack.
  unfold mbind at 1, M_bind at 1.
  destruct (decide (EventRepository.primary_key_free
              (AuditEvent.event_id <$> audit_events (flushed db1))
              (AuditEventCreate.event_id <$> batch))) as [Hfree|Htaken].
  - rewrite bulk_create_free by done. simpl.
    eexists _, _. split; [reflexivity|]. left. simpl.
    by rewrite Hevents.
  - rewrite bulk_create_taken by done. simpl.
    eexists _, _. split; [reflexivity|]. right. simpl.
    by rewrite Hcommitted.
Qed.

Lemma ingest_events_all_or_nothing_witness :
  ∃ resp store',
    ingest_events default_settings Sample.clock
      [Sample.event 4 (utc 40) (Some "s1") (Some "ann") None;
       Sample.event 2 (utc 50) None None None] (flushed Sample.three_events)
    = (Return resp, store')
    ∧ accepted resp = 0 ∧ store' = flushed Sample.three_events.
Proof.
  destruct (ingest_events_all_or_nothing default_settings Sample.clock
              [Sample.event 4 (utc 40) (Some "s1") (Some "ann") None;
               Sample.event 2 (utc 50) None None None]
              (flushed Sample.three_events))
    as (resp & store' & Hrun & _).
  - repeat constructor.
  - exists resp, store'. split; [exact Hrun|].
    vm_compute in Hrun. injection Hrun as <- <-. by split.
Defined.

(** ** The session repository *)

Lemma upsert_row_twice u m t s :
  upsert_row u m t (upsert_row u m t s) = upsert_row u m t s.
Proof.
  unfold upsert_row.
  destruct (bool_decide (instant t < instant (Session.start_time s)))
    eqn:Hlt; simpl.
  - rewrite instant_ensure_timezone_aware.
    by rewrite bool_decide_false by lia.
  - by rewrite Hlt.
Qed.

(** X9. [upsert_session] is idempotent: a second call with the same
    arguments returns the same row and leaves the session as the first call
    left it, whether the session existed before or not. *)
Theorem upsert_session_idempotent sid u m t db :
  ∃ row db1,
    SessionRepository.upsert_session sid u m t db = (Return row, db1)
    ∧ SessionRepository.upsert_session sid u m t db1 = (Return row, db1)
    ∧ sessions (flushed db1) !! sid = Some row.
Proof.
  destruct (sessions (flushed db) !! sid) as [s|] eqn:Hs.
  - rewrite (upsert_session_existing_exact _ _ _ _ _ _ Hs).
    eexists _, _. split; [reflexivity|].
    erewrite upsert_session_existing_exact
      by (simpl; apply lookup_insert_eq).
    simpl. rewrite upsert_row_twice, insert_insert_eq.
    split; [done|]. apply lookup_insert_eq.
  - rewrite (upsert_session_new _ _ _ _ _ Hs).
    eexists _, _. split; [reflexivity|].
    erewrite upsert_session_existing_exact
      by (simpl; apply lookup_insert_eq).
    simpl. rewrite insert_insert_eq. unfold upsert_row. simpl.
    rewrite instant_ensure_timezone_aware, bool_decide_false by lia.
    split; [done|]. apply lookup_insert_eq.
Qed.

Lemma alter_missing {A} (f : A → A) (k : string) (m : gmap string A) :
  m !! k = None → alter f k m = m.
Proof.
  intros Hk. apply map_eq. intros j. rewrite lookup_alter.
  destruct (decide (k = j)) as [<-|]; [by rewrite Hk|done].
Qed.

(** X10. [end_session] on an id without a row changes no row and answers
    False; on an id with a row it answers True, sets that row's end time to
    the given time made aware, and leaves its other fields and all other
    rows alone.  Either way it commits what the session had flushed. *)
Theorem end_session_effect sid t db :
  ∃ db',
    SessionRepository.end_session sid t db
      = (Return (bool_decide (is_Some (sessions (flushed db) !! sid))), db')
    ∧ committed db' = flushed db'
    ∧ audit_events (flushed db') = audit_events (flushed db)
    ∧ (∀ k, k ≠ sid →
         sessions (flushed db') !! k = sessions (flushed db) !! k)
    ∧ match sessions (flushed db) !! sid with
      | None => sessions (flushed db') = sessions (flushed db)
      | Some s =>
          sessions (flushed db') !! sid
          = Some (Session.mk (Session.session_id s) (Session.user_name s)
                    (Session.machine_name s) (Session.start_time s)
                    (Some (ensure_timezone_aware t)) (Session.event_count s))
      end.
Proof.
  rewrite end_session_run. eexists. split; [reflexivity|]. simpl.
  repeat split.
  - intros k Hne. by rewrite lookup_alter_ne.
  - destruct (sessions (flushed db) !! sid) as [s|] eqn:Hs.
    + by rewrite lookup_alter_eq, Hs.
    + by apply alter_missing.
Qed.

(** X11. [increment_event_count] on an id without a row changes nothing;
    on an id with a row it adds the increment to that row's count and
    touches nothing else, so two increments add up. *)
Theorem increment_event_count_effect sid a b db :
  ∃ db1 db2,
    SessionRepository.increment_event_count sid a db = (Return tt, db1)
    ∧ SessionRepository.increment_event_count sid b db1 = (Return tt, db2)
    ∧ SessionRepository.increment_event_count sid (a + b) db
      = (Return tt, db2)
    ∧ committed db1 = committed db
    ∧ audit_events (flushed db1) = audit_events (flushed db)
    ∧ (∀ k, k ≠ sid →
         sessions (flushed db1) !! k = sessions (flushed db) !! k)
    ∧ match sessions (flushed db) !! sid with
      | None => sessions (flushed db1) = sessions (flushed db)
      | Some s =>
          sessions (flushed db1) !! sid
          = Some (Session.mk (Session.session_id s) (Session.user_name s)
                    (Session.machine_name s) (Session.start_time s)
                    (Session.end_time s) (Session.event_count s + a))
      end.
Proof.
  unfold SessionRepository.increment_event_count. run.
  eexists _, _. split; [reflexivity|]. split; [reflexivity|]. simpl.
  split; [|repeat split].
  - do 3 f_equal. apply map_eq. intros k.
    destruct (decide (sid = k)) as [<-|Hne];
      [|by rewrite !lookup_alter_ne by done].
    rewrite !lookup_alter_eq.
    destruct (sessions (flushed db) !! sid) as [s|]; [|done]. simpl.
    unfold Session.add_event_count. simpl. do 2 f_equal. lia.
  - intros k Hne. by rewrite lookup_alter_ne.
  - destruct (sessions (flushed db) !! sid) as [s|] eqn:Hs.
    + by rewrite lookup_alter_eq, Hs.
    + by apply alter_missing.
Qed.

(** ** Queries: pages, order, empty ranges *)

#[global] Instance sql_le_trans : Transitive sql_le.
Proof.
  intros [|x|s] [|y|t] [|z|u]; simpl; try done; try lia.
  apply transitivity.
Qed.

#[global] Instance sql_le_total : Total sql_le.
Proof.
  intros [|x|s] [|y|t]; simpl; try tauto; try lia.
  apply (total String.le).
Qed.

#[global] Instance asc_trans c : Transitive (EventQuery.asc c).
Proof. intros x y z. unfold EventQuery.asc. apply transitivity. Qed.

#[global] Instance asc_total c : Total (EventQuery.asc c).
Proof. intros x y. apply (total sql_le). Qed.

#[global] Instance desc_trans c : Transitive (EventQuery.desc c).
Proof.
  intros x y z Hxy Hyz. unfold EventQuery.desc in *.
  exact (transitivity Hyz Hxy).
Qed.

#[global] Instance desc_total c : Total (EventQuery.desc c).
Proof. intros x y. apply (total sql_le). Qed.

(** The order a request asks for. *)
Lemma sort_rows_sorted c (descending : bool) rows :
  StronglySorted (if descending then EventQuery.desc c else EventQuery.asc c)
    (EventQuery.sort_rows c descending rows).
Proof. destruct descending; apply StronglySorted_merge_sort; apply _. Qed.

Lemma StronglySorted_take_drop {A} (R : relation A) (l : list A) n k :
  StronglySorted R l → StronglySorted R (take n (drop k l)).
Proof.
  intros Hl. rewrite <- (take_drop k l) in Hl.
  apply StronglySorted_app_1_r in Hl.
  rewrite <- (take_drop n (drop k l)) in Hl.
  by apply StronglySorted_app_1_l in Hl.
Qed.

(** X12. A query whose sort column resolves answers with the total of the
    selected rows, echoes offset and limit, and returns a page of
    min(limit, total - offset) events, each a row of the table that
    satisfies the filters. *)
Theorem query_events_page inherited q db c :
  EventQuery.order_column inherited (order_by q) = Return c →
  ∃ resp,
    EventReadService.query_events inherited q db = (Return resp, db)
    ∧ EventReadService.total resp = len (selected q db)
    ∧ EventReadService.response_offset resp = offset q
    ∧ EventReadService.response_limit resp = limit q
    ∧ length (EventReadService.response_events resp)
      = (limit q `min` (length (selected q db) - offset q))%nat
    ∧ ∀ r, r ∈ EventReadService.response_events resp →
        ∃ e, r = EventReadService.model_validate e
             ∧ e ∈ audit_events (flushed db)
             ∧ EventQuery.matches q e = true.
Proof.
  intros Hc. unfold EventReadService.query_events.
  unfold mbind at 1, M_bind at 1.
  rewrite (query_events_run inherited q db c Hc).
  eexists. split; [reflexivity|]. simpl. repeat split.
  - rewrite length_fmap, length_take, length_drop.
    by rewrite (Permutation_length (sort_rows_Permutation _ _ _)).
  - intros r (e & -> & Hin)%list_elem_of_fmap. exists e. split; [done|].
    apply subseteq_take, subseteq_drop in Hin.
    rewrite sort_rows_Permutation in Hin.
    by apply list_elem_of_filter in Hin as [? ?].
Qed.

Lemma query_events_page_witness :
  ∃ resp,
    EventReadService.query_events (λ _, None) (with_page 2 5 default_query)
      Sample.three_events = (Return resp, Sample.three_events)
    ∧ EventReadService.total resp = 3
    ∧ length (EventReadService.response_events resp) = 1%nat.
Proof.
  destruct (query_events_page (λ _, None) (with_page 2 5 default_query)
              Sample.three_events col_timestamp eq_refl)
    as (resp & Hrun & Htotal & _ & _ & Hlen & _).
  exists resp. split; [exact Hrun|]. split; [exact Htotal|exact Hlen].
Defined.

(** X13. The page comes in the order asked for: sorted on the resolved
    column, descending or ascending as [order_desc] says, NULLs first in
    ascending order.  With the default order, offset 0 and limit 1, the
    page is one event and no selected event has a later timestamp. *)
Theorem query_events_sorted inherited q db c page total :
  EventQuery.order_column inherited (order_by q) = Return c →
  EventQuery.query_events inherited q db = (Return (page, total), db) →
  StronglySorted
    (if order_desc q then EventQuery.desc c else EventQuery.asc c) page
  ∧ (c = col_timestamp → order_desc q = true → offset q = 0%nat →
     limit q = 1%nat → selected q db ≠ [] →
     ∃ newest,
       page = [newest]
       ∧ ∀ e, e ∈ selected q db →
           instant (AuditEvent.timestamp e)
           ≤ instant (AuditEvent.timestamp newest)).
Proof.
  intros Hc. rewrite (query_events_run inherited q db c Hc).
  intros [= <- _]. split.
  - apply StronglySorted_take_drop, sort_rows_sorted.
  - intros -> Hdesc Hoff Hlim Hne. rewrite Hdesc, Hoff, Hlim.
    pose proof (sort_rows_sorted col_timestamp true (selected q db)) as Hs.
    pose proof (sort_rows_Permutation col_timestamp true (selected q db))
      as Hperm.
    destruct (EventQuery.sort_rows col_timestamp true (selected q db))
      as [|newest rest].
    { apply Permutation_nil_l in Hperm. by destruct Hne. }
    exists newest. split; [reflexivity|]. intros e He.
    rewrite <- Hperm in He.
    apply StronglySorted_cons in Hs as [Hall _].
    apply elem_of_cons in He as [->|He]; [lia|].
    apply (proj1 (Forall_forall _ _) Hall) in He.
    unfold EventQuery.desc, EventQuery.asc in He. simpl in He. lia.
Qed.

Lemma query_events_sorted_witness :
  ∃ newest,
    EventQuery.query_events (λ _, None) (with_page 0 1 default_query)
      Sample.three_events = (Return ([newest], 3), Sample.three_events)
    ∧ instant (AuditEvent.timestamp newest) = 30.
Proof.
  destruct (query_events_sorted (λ _, None) (with_page 0 1 default_query)
              Sample.three_events col_timestamp
              [Sample.stored 2 (utc 30) None] 3 eq_refl eq_refl)
    as [_ Hnewest].
  exists (Sample.stored 2 (utc 30) None). split; reflexivity.
Defined.

(** X14. A query whose sort column resolves and whose time range has its
    start after its end, both bounds given with the same UTC offset (or
    both without one), is taken as given: no row can satisfy it, so the
    total is 0 and the page is empty, whatever the other filters and the
    page asked for.  With one offset the bounds are in the same order on
    the time line and field by field, the two ways a store compares
    them. *)
Theorem query_events_empty_range inherited q db c t_start t_end :
  EventQuery.order_column inherited (order_by q) = Return c →
  start_time q = Some t_start → end_time q = Some t_end →
  tzinfo t_start = tzinfo t_end →
  instant t_end < instant t_start →
  wall t_end < wall t_start
  ∧ EventQuery.query_events inherited q db = (Return ([], 0), db).
Proof.
  intros Hc Hstart Hend Hzone Hlt.
  split; [unfold instant in Hlt; rewrite Hzone in Hlt; lia|].
  rewrite (query_events_run inherited q db c Hc).
  assert (selected q db = []) as ->.
  { unfold selected.
    induction (audit_events (flushed db)) as [|e rows IH]; [done|].
    rewrite filter_cons, decide_False; [done|].
    unfold EventQuery.matches. rewrite Hstart, Hend.
    intros [[_ Hafter]%andb_true_iff Hbefore]%andb_true_iff.
    apply bool_decide_eq_true in Hafter, Hbefore. lia. }
  by rewrite sort_rows_nil, drop_nil, take_nil.
Qed.

Lemma query_events_empty_range_witness :
  wall (utc 10) < wall (utc 30)
  ∧ EventQuery.query_events (λ _, None)
      (mkQuery None None None None None (Some (utc 30)) (Some (utc 10))
         0 100 "timestamp" true) Sample.three_events
    = (Return ([], 0), Sample.three_events).
Proof.
  refine (query_events_empty_range (λ _, None)
            (mkQuery None None None None None (Some (utc 30)) (Some (utc 10))
               0 100 "timestamp" true) Sample.three_events col_timestamp
            (utc 30) (utc 10) eq_refl eq_refl eq_refl eq_refl _).
  vm_compute. reflexivity.
Defined.

(** ** Reads by session and by workbook *)

(** X15. The reads by session and by workbook return at most [limit]
    events, newest first, each a row of the table that belongs to the
    session, or to the workbook and lies within the bounds that were given;
    when the limit does not cut, no such row is left out. *)
Theorem get_events_by_session_and_workbook db limit :
  (∀ sid,
     ∃ page,
       EventReads.get_events_by_session sid limit db = (Return page, db)
       ∧ (length page ≤ limit)%nat
       ∧ StronglySorted (EventQuery.desc col_timestamp) page
       ∧ (∀ e, e ∈ page →
            e ∈ audit_events (flushed db)
            ∧ AuditEvent.session_id e = Some sid)
       ∧ ((length page < limit)%nat →
          ∀ e, e ∈ audit_events (flushed db) →
               AuditEvent.session_id e = Some sid → e ∈ page))
  ∧ (∀ workbook t_start t_end,
       ∃ page,
         EventReads.get_events_by_workbook workbook t_start t_end limit db
           = (Return page, db)
         ∧ (length page ≤ limit)%nat
         ∧ StronglySorted (EventQuery.desc col_timestamp) page
         ∧ (∀ e, e ∈ page →
              e ∈ audit_events (flushed db)
              ∧ EventReads.in_range workbook t_start t_end e)
         ∧ ((length page < limit)%nat →
            ∀ e, e ∈ audit_events (flushed db) →
                 EventReads.in_range workbook t_start t_end e → e ∈ page)).
Proof.
  assert (Hpage : ∀ (P : AuditEvent.t → Prop) `{∀ e, Decision (P e)},
    let page :=
      take limit (EventQuery.sort_rows col_timestamp true
                    (filter P (audit_events (flushed db)))) in
    (length page ≤ limit)%nat
    ∧ StronglySorted (EventQuery.desc col_timestamp) page
    ∧ (∀ e, e ∈ page → e ∈ audit_events (flushed db) ∧ P e)
    ∧ ((length page < limit)%nat →
       ∀ e, e ∈ audit_events (flushed db) → P e → e ∈ page)).
  { intros P HP page. subst page. split; [|split; [|split]].
    - rewrite length_take. lia.
    - rewrite <- (drop_0 (EventQuery.sort_rows _ _ _)).
      apply StronglySorted_take_drop. apply (sort_rows_sorted _ true).
    - intros e Hin. apply subseteq_take in Hin.
      rewrite sort_rows_Permutation in Hin.
      apply list_elem_of_filter in Hin. tauto.
    - intros Hshort e He HPe. rewrite take_ge.
      + rewrite sort_rows_Permutation. by apply list_elem_of_filter.
      + rewrite length_take in Hshort. lia. }
  split.
  - intros sid. eexists. split; [reflexivity|].
    apply (Hpage (λ e, AuditEvent.session_id e = Some sid) _).
  - intros workbook t_start t_end. eexists. split; [reflexivity|].
    apply (Hpage (EventReads.in_range workbook t_start t_end) _).
Qed.

(** ** Statistics *)






(** ** Retention: the service, a second run, a batch size of nothing *)

Lemma expired_count_kept_earlier d1 d2 rows :
  instant d2 ≤ instant d1 → expired_count d2 (kept d1 rows) = 0%nat.
Proof.
  intros Hle. unfold expired_count, kept.
  induction rows as [|e rows IH]; [done|].
  rewrite filter_cons.
  destruct (decide (¬ Retention.expired d1 e)) as [He|He]; [|done].
  rewrite filter_cons, decide_False; [done|].
  unfold Retention.expired in *. lia.
Qed.

Lemma expired_count_length d rows :
  (expired_count d rows ≤ length rows)%nat.
Proof. unfold expired_count. apply length_filter. Qed.


(** X18. A completed [delete_old_events] leaves nothing for a later run at
    the same or an earlier cutoff: that run reports 0 deleted rows, whatever
    its batch size, and leaves the session as it found it. *)
Theorem delete_old_events_second_run has_limit d1 d2 b1 b2 db n db1 fuel :
  0 < b1 → 0 < b2 → instant d2 ≤ instant d1 → (0 < fuel)%nat →
  Retention.delete_old_events (S (length (audit_events (flushed db))))
    has_limit d1 b1 db = (Return (Some n), db1) →
  Retention.delete_old_events fuel has_limit d2 b2 db1
    = (Return (Some 0), db1).
Proof.
  intros Hb1 Hb2 Hle Hfuel.
  unfold Retention.delete_old_events, try_except.
  rewrite delete_loop_run;
    [|done|pose proof (expired_count_length d1 (audit_events (flushed db)));
           lia].
  intros [= _ <-]. simpl.
  pose proof (expired_count_kept_earlier d1 d2 (audit_events (flushed db))
                Hle) as Hzero.
  rewrite delete_loop_run; [|done|simpl; lia].
  simpl. rewrite Hzero. rewrite (kept_all d2) by done. done.
Qed.

Lemma delete_old_events_second_run_witness :
  Retention.delete_old_events 1 false (utc 12) 5
    (Sample.fresh {| audit_events := [Sample.stored 2 (utc 30) None;
                                      Sample.stored 3 (utc 20) None];
                     sessions := ∅ |})
  = (Return (Some 0),
     Sample.fresh {| audit_events := [Sample.stored 2 (utc 30) None;
                                      Sample.stored 3 (utc 20) None];
                     sessions := ∅ |}).
Proof.
  refine (delete_old_events_second_run false (utc 15) (utc 12) 1 5
            Sample.three_events 1 _ 1%nat _ _ _ _ eq_refl).
  - lia.
  - lia.
  - vm_compute. by intros.
  - lia.
Defined.

Lemma delete_loop_nonpositive has_limit d batch_size :
  batch_size ≤ 0 →
  ∀ fuel total db,
    (Retention.delete_loop fuel has_limit d batch_size total db).1
    = Return None.
Proof.
  intros Hb. induction fuel as [|fuel IH]; intros total db; [done|].
  cbn [Retention.delete_loop].
  unfold mbind at 1, M_bind at 1. rewrite delete_statement_run.
  unfold mbind at 1, M_bind at 1, commit.
  rewrite remaining_rowcount.
  pose proof (remaining_expired d has_limit batch_size
                (audit_events (flushed db))) as Hexp.
  rewrite bool_decide_false; [apply IH|].
  destruct has_limit; lia.
Qed.

(** X19. With a batch size of 0 or less the loop of [delete_old_events]
    never meets its exit test, a deleted count below the batch size:
    however many turns it is given, the call has not returned and has not
    raised. *)
Theorem delete_old_events_nonpositive_batch has_limit d batch_size db fuel :
  batch_size ≤ 0 →
  (Retention.delete_old_events fuel has_limit d batch_size db).1
  = Return None.
Proof.
  intros Hb. unfold Retention.delete_old_events, try_except.
  pose proof (delete_loop_nonpositive has_limit d batch_size Hb fuel 0 db)
    as Hloop.
  destruct (Retention.delete_loop fuel has_limit d batch_size 0 db)
    as [[r|e] db'] eqn:Hrun; simpl in *; [done|discriminate].
Qed.

Lemma delete_old_events_nonpositive_batch_witness :
  (Retention.delete_old_events 100 false (utc 15) 0 Sample.three_events).1
  = Return None.
Proof.
  apply (delete_old_events_nonpositive_batch false (utc 15) 0
           Sample.three_events 100).
  lia.
Defined.

(** ** The reaper, whatever the store *)

Lemma reaped_store_refl now store : reaped_store now store store.
Proof.
  split; [done|]. intros sid.
  destruct (sessions store !! sid); constructor. by left.
Qed.

(** Closing a stale session of the list keeps the store within what the
    reaper may leave. *)
Lemma reaped_store_close now store t sess :
  (∀ sid s, sessions store !! sid = Some s → Session.session_id s = sid) →
  (∃ sid, sessions store !! sid = Some sess) →
  Session.end_time sess = None →
  dt_lt (Session.start_time sess) (dt_sub (utc now) (timedelta_hours 24))
    = Return true →
  reaped_store now store t →
  reaped_store now store
    {| audit_events := audit_events t;
       sessions :=
         alter (Session.with_end_time
                  (ensure_timezone_aware
                     (dt_add (Session.start_time sess) (timedelta_hours 24))))
           (Session.session_id sess) (sessions t) |}.
Proof.
  intros Hids [k Hk] Hopen Hlt [Hev Hrows].
  pose proof (Hids _ _ Hk) as Hid.
  assert (Haware : is_aware (Session.start_time sess) = true).
  { unfold dt_lt, is_aware in *. simpl in Hlt.
    by destruct (tzinfo (Session.start_time sess)). }
  assert (Hstale : open_and_stale now sess).
  { split; [done|]. rewrite dt_lt_aware in Hlt by done.
    injection Hlt as Hlt. apply bool_decide_eq_true in Hlt.
    unfold instant in *. simpl in Hlt. lia. }
  rewrite ensure_timezone_aware_id by done.
  split; [done|]. intros sid. simpl.
  destruct (decide (sid = k)) as [->|Hne].
  - specialize (Hrows k). rewrite Hid, lookup_alter_eq, Hk.
    rewrite Hk in Hrows.
    destruct (sessions t !! k) as [r|]; [|inversion Hrows].
    inversion_clear Hrows as [? ? Hr|]. simpl. constructor.
    right. split; [done|].
    destruct Hr as [->|[_ ->]]; done.
  - rewrite lookup_alter_ne by congruence. apply Hrows.
Qed.

Lemma close_loop_reaped now store active :
  (∀ sid s, sessions store !! sid = Some s → Session.session_id s = sid) →
  (∀ s, s ∈ active →
        Session.end_time s = None ∧ ∃ sid, sessions store !! sid = Some s) →
  ∀ n db r db',
    reaped_store now store (committed db) →
    reaped_store now store (flushed db) →
    BackgroundService.close_loop active
      (dt_sub (utc now) (timedelta_hours 24)) n db = (r, db') →
    reaped_store now store (committed db')
    ∧ reaped_store now store (flushed db').
Proof.
  intros Hids. induction active as [|sess active IH];
    intros Hactive n db r db' Hc Hf.
  - by intros [= <- <-].
  - cbn [BackgroundService.close_loop].
    unfold mbind at 1, M_bind at 1, lift.
    destruct (dt_lt _ _) as [[|]|e] eqn:Hlt.
    + unfold mbind at 1, M_bind at 1. rewrite end_session_run.
      destruct (Hactive sess) as [Hopen Hrow]; [apply elem_of_cons; by left|].
      pose proof (reaped_store_close now store (flushed db) sess Hids Hrow
                    Hopen Hlt Hf) as Hnext.
      apply IH; [|done|done].
      intros s Hs. apply Hactive, elem_of_cons. by right.
    + apply IH; [|done|done].
      intros s Hs. apply Hactive, elem_of_cons. by right.
    + by intros [= <- <-].
Qed.

(** X20. One tick of the reaper, on any store whose session rows sit under
    their own ids, and whether the tick completes or fails on the way: the
    events are as before, no session row appears or disappears, and a row
    either stays as it is or was open and older than 24 hours and is now
    closed 24 hours after its start.  So a closed session, and one that
    started within the last 24 hours, are never changed. *)
Theorem close_stale_sessions_safe now store r store' :
  (∀ sid s, sessions store !! sid = Some s → Session.session_id s = sid) →
  BackgroundService._close_stale_sessions now store = (r, store') →
  audit_events store' = audit_events store
  ∧ (∀ sid, option_Forall2 (reaped now) (sessions store !! sid)
              (sessions store' !! sid))
  ∧ (∀ sid s, sessions store !! sid = Some s →
              ¬ open_and_stale now s → sessions store' !! sid = Some s).
Proof.
  intros Hids Hrun.
  assert (Hsafe : reaped_store now store store').
  { revert Hrun.
    unfold BackgroundService._close_stale_sessions, with_session,
      BackgroundService.close_stale.
    unfold mbind at 1, M_bind at 1. rewrite active_sessions_run.
    cbn [flushed]. unfold mbind at 1, M_bind at 1.
    destruct (BackgroundService.close_loop _ _ _ _) as [res db'] eqn:Hloop.
    apply close_loop_reaped with (store := store) in Hloop as [Hc Hf];
      [|done| |apply reaped_store_refl|apply reaped_store_refl].
    - destruct res as [n|e]; run; by intros [= _ <-].
    - intros s Hs. by apply active_sessions_elem in Hs. }
  destruct Hsafe as [Hev Hrows]. split; [done|]. split; [done|].
  intros sid s Hs Hno. specialize (Hrows sid). rewrite Hs in Hrows.
  inversion Hrows as [s0 s1 Hr|]; subst.
  destruct Hr as [->|[Hst _]]; [done|]. by destruct Hno.
Qed.

Lemma close_stale_sessions_safe_witness :
  audit_events naive_store = audit_events naive_store
  ∧ (∀ sid, option_Forall2 (reaped (timedelta_hours 100))
              (sessions naive_store !! sid) (sessions naive_store !! sid))
  ∧ (∀ sid s, sessions naive_store !! sid = Some s →
              ¬ open_and_stale (timedelta_hours 100) s →
              sessions naive_store !! sid = Some s).
Proof.
  refine (close_stale_sessions_safe (timedelta_hours 100) naive_store
            (Raise TypeError) naive_store _ eq_refl).
  intros sid s Hs. unfold naive_store in Hs. simpl in Hs.
  apply lookup_singleton_Some in Hs as [<- <-].
  reflexivity.
Defined.

(** ** The reaper: what it reports, and a second tick *)

(** With aware start times the loop counts the stale sessions it meets. *)
Lemma close_loop_count cutoff active : ∀ n db,
  is_aware cutoff = true →
  Forall (λ s, is_aware (Session.start_time s) = true) active →
  (BackgroundService.close_loop active cutoff n db).1
  = Return (n + len (filter (λ s, instant (Session.start_time s)
                                  < instant cutoff) active)).
Proof.
  induction active as [|sess active IH]; intros n db Hcut Haware.
  - simpl. unfold len. simpl. f_equal. lia.
  - apply Forall_cons in Haware as [Hs Haware].
    cbn [BackgroundService.close_loop].
    unfold mbind at 1, M_bind at 1, lift.
    rewrite dt_lt_aware by done. rewrite filter_cons.
    case_bool_decide as Hstale.
    + unfold mbind at 1, M_bind at 1. rewrite end_session_run.
      rewrite decide_True by done. rewrite IH by done.
      unfold len. simpl. f_equal. lia.
    + rewrite decide_False by done. by rewrite IH.
Qed.

Lemma reap_not_stale now s : ¬ open_and_stale now (reap now s).
Proof.
  unfold reap. case_bool_decide as Hs; [|done].
  by intros [? _].
Qed.

Lemma reap_twice now s : reap now (reap now s) = reap now s.
Proof.
  unfold reap at 1. rewrite bool_decide_false; [done|].
  apply reap_not_stale.
Qed.

Lemma reap_keeps now s :
  Session.session_id (reap now s) = Session.session_id s
  ∧ Session.start_time (reap now s) = Session.start_time s
  ∧ (Session.end_time (reap now s) = None → Session.end_time s = None).
Proof. unfold reap. by case_bool_decide. Qed.

(** The report of a tick on a store with aware start times. *)
Lemma close_stale_sessions_report now store :
  (∀ sid s, sessions store !! sid = Some s → Session.end_time s = None →
            is_aware (Session.start_time s) = true) →
  (BackgroundService._close_stale_sessions now store).1
  = Return (len (filter (open_and_stale now)
                   (map_to_list (sessions store)).*2)).
Proof.
  intros Haware.
  unfold BackgroundService._close_stale_sessions, with_session,
    BackgroundService.close_stale.
  unfold mbind at 1, M_bind at 1. rewrite active_sessions_run.
  cbn [flushed]. unfold mbind at 1, M_bind at 1.
  set (active := merge_sort _ _).
  set (cutoff := dt_sub (utc now) (timedelta_hours 24)).
  pose proof (close_loop_count cutoff active 0
                {| committed := store; flushed := store |} eq_refl) as Hn.
  destruct (BackgroundService.close_loop active cutoff 0 _) as [res db'].
  simpl in Hn. rewrite Hn.
  - run. do 2 f_equal. unfold len. rewrite Z.add_0_l. f_equal.
    apply Permutation_length. unfold active.
    rewrite merge_sort_Permutation, list_filter_filter.
    erewrite list_filter_iff; [done|].
    intros s. unfold open_and_stale.
    assert (instant cutoff = now - timedelta_hours 24) as ->
      by (unfold cutoff, instant; simpl; lia).
    tauto.
  - apply Forall_forall. intros s [Hend (sid & Hs)]%active_sessions_elem.
    eauto.
Qed.

(** X21. On a store whose open sessions carry aware start times, and whose
    rows sit under their own ids, a tick of the reaper reports the number of
    open sessions older than 24 hours, and a second tick at the same time
    reports 0 and leaves the store as the first left it. *)
Theorem close_stale_sessions_twice now store :
  (∀ sid s, sessions store !! sid = Some s → Session.session_id s = sid) →
  (∀ sid s, sessions store !! sid = Some s → Session.end_time s = None →
            is_aware (Session.start_time s) = true) →
  ∃ store',
    BackgroundService._close_stale_sessions now store
    = (Return (len (filter (open_and_stale now)
                      (map_to_list (sessions store)).*2)), store')
    ∧ BackgroundService._close_stale_sessions now store'
      = (Return 0, store').
Proof.
  intros Hids Haware.
  destruct (close_stale_sessions_aware now store Hids Haware)
    as (n & store' & Hrun & Hev & Hrows).
  pose proof (close_stale_sessions_report now store Haware) as Hreport.
  rewrite Hrun in Hreport. injection Hreport as ->.
  exists store'. split; [done|].
  assert (Hfrom : ∀ sid s', sessions store' !! sid = Some s' →
            ∃ s, sessions store !! sid = Some s ∧ s' = reap now s).
  { intros sid s' Hs'. rewrite Hrows in Hs'.
    destruct (sessions store !! sid) as [s|]; [|done].
    injection Hs' as <-. by exists s. }
  assert (Hids' : ∀ sid s, sessions store' !! sid = Some s →
            Session.session_id s = sid).
  { intros sid s' (s & Hs & ->)%Hfrom.
    destruct (reap_keeps now s) as (-> & _ & _). eauto. }
  assert (Haware' : ∀ sid s, sessions store' !! sid = Some s →
            Session.end_time s = None →
            is_aware (Session.start_time s) = true).
  { intros sid s' (s & Hs & ->)%Hfrom Hopen.
    destruct (reap_keeps now s) as (_ & -> & Hend). eauto. }
  destruct (close_stale_sessions_aware now store' Hids' Haware')
    as (m & store'' & Hrun' & Hev' & Hrows').
  pose proof (close_stale_sessions_report now store' Haware') as Hreport'.
  rewrite Hrun' in Hreport'. injection Hreport' as ->.
  rewrite Hrun'. f_equal.
  - f_equal. unfold len.
    destruct (filter (open_and_stale now) (map_to_list (sessions store')).*2)
      as [|s' rest] eqn:Hstale; [done|].
    assert (Hin : s' ∈ filter (open_and_stale now)
                         (map_to_list (sessions store')).*2)
      by (rewrite Hstale; apply elem_of_cons; by left).
    apply list_elem_of_filter in Hin as [Hs' Hin].
    apply list_elem_of_fmap in Hin as ([sid ?] & -> & Hin).
    apply elem_of_map_to_list, Hfrom in Hin as (s & _ & Heq).
    simpl in Hs'. rewrite Heq in Hs'. by apply reap_not_stale in Hs'.
  - destruct store' as [ev' se'], store'' as [ev'' se'']. simpl in *.
    f_equal; [done|]. apply map_eq. intros sid.
    rewrite Hrows'. destruct (se' !! sid) as [s'|] eqn:Hs'; [|done].
    apply Hfrom in Hs' as (s & _ & ->). simpl. by rewrite reap_twice.
Qed.

Lemma close_stale_sessions_twice_witness :
  ∃ store',
    BackgroundService._close_stale_sessions (timedelta_hours 100) aware_store
    = (Return (len (filter (open_and_stale (timedelta_hours 100))
                      (map_to_list (sessions aware_store)).*2)), store')
    ∧ BackgroundService._close_stale_sessions (timedelta_hours 100) store'
      = (Return 0, store').
Proof.
  apply (close_stale_sessions_twice (timedelta_hours 100) aware_store).
  - intros sid s Hs. unfold aware_store in Hs. simpl in Hs.
    apply lookup_singleton_Some in Hs as [<- <-]. reflexivity.
  - intros sid s Hs _. unfold aware_store in Hs. simpl in Hs.
    apply lookup_singleton_Some in Hs as [<- <-]. reflexivity.
Defined.

(** ** The live feed: what a poll sends, and what is never sent *)

Lemma newer_elem w rows e :
  e ∈ newer w rows ↔ e ∈ rows ∧ after_watermark w e.
Proof.
  unfold newer. rewrite sort_rows_Permutation. destruct w as [w0|]; simpl.
  - rewrite list_elem_of_filter, instant_ensure_timezone_aware. tauto.
  - tauto.
Qed.

Lemma newer_length w rows :
  length (newer w rows) = length (filter (after_watermark w) rows).
Proof.
  unfold newer. rewrite sort_rows_Permutation. destruct w as [w0|]; simpl.
  - f_equal. apply list_filter_iff. intros e.
    by rewrite instant_ensure_timezone_aware.
  - f_equal. symmetry. clear. induction rows as [|e rows IH]; [done|].
    rewrite filter_cons, decide_True by done. by rewrite IH.
Qed.

(** The newest 50 are none exactly when no row passes the watermark. *)
Lemma newest_none w rows :
  take 50 (newer w rows) = [] ↔ ∀ e, e ∈ rows → ¬ after_watermark w e.
Proof.
  pose proof (newer_elem w rows) as Helem.
  destruct (newer w rows) as [|e0 sorted]; simpl; split; try done.
  - intros _ e He Hafter.
    assert (e ∈ @nil AuditEvent.t) as Hnil by (apply Helem; done).
    by apply elem_of_nil in Hnil.
  - intros Hnone.
    destruct (proj1 (Helem e0)) as [He0 Hafter]; [apply elem_of_cons; by left|].
    by destruct (Hnone e0).
Qed.

Lemma Forall2_elem_of_left {A B} (P : A → B → Prop) l k x :
  Forall2 P l k → x ∈ l → ∃ y, y ∈ k ∧ P x y.
Proof.
  intros Hall (i & Hi)%list_elem_of_lookup_1.
  destruct (Forall2_lookup_l _ _ _ _ _ Hall Hi) as (y & Hy & HP).
  exists y. split; [|done]. by apply list_elem_of_lookup_2 in Hy.
Qed.

Section feed_delivery.
Context {Metrics : Type}.
Variable model_id : AuditEvent.t → outcome (option string).
Variable select_models :
  Tables → list string → outcome (list (string * (string * Z))).
Variable get_metrics_data : Tables → outcome Metrics.

Abbreviation get_events_since :=
  (Dashboard.get_events_since model_id select_models).
Abbreviation poll := (Dashboard.poll model_id select_models get_metrics_data).
Abbreviation poll_loop :=
  (Dashboard.poll_loop model_id select_models get_metrics_data).
Abbreviation websocket_endpoint :=
  (Dashboard.websocket_endpoint model_id select_models get_metrics_data).

(** One turn, by what the query answers. *)
Lemma poll_run store w :
  poll store w
  = match (get_events_since w 50 (Sample.fresh store)).1 with
    | Return [] => Return (None, w)
    | Return new_events =>
        match get_metrics_data store with
        | Return updated_metrics =>
            Return (Some {| Dashboard.type := Dashboard.update;
                            Dashboard.metrics := updated_metrics;
                            Dashboard.events := new_events |},
                    Dashboard.advance w new_events)
        | Raise x => Raise x
        end
    | Raise x => Raise x
    end.
Proof.
  unfold Dashboard.poll, with_session, Sample.fresh.
  unfold mbind at 1, M_bind at 1.
  destruct (get_events_since w 50 _) as [r db1] eqn:Hquery.
  apply get_events_since_return in Hquery as [-> _].
  destruct r as [[|d rest]|x]; [done| |done].
  unfold mbind, M_bind, Dashboard.execute. simpl.
  by destruct (get_metrics_data store).
Qed.

Lemma poll_answer store w r :
  poll store w = Return r →
  Forall2 renders (take 50 (newer w (audit_events store))) (delivered r).
Proof.
  rewrite poll_run.
  destruct (get_events_since w 50 _) as [res db1] eqn:Hquery.
  apply get_events_since_return in Hquery as [-> Hanswer]. simpl.
  destruct res as [[|d rest]|x]; [| |done].
  - intros [= <-]. by apply Hanswer.
  - destruct (get_metrics_data store); [|done].
    intros [= <-]. by apply Hanswer.
Qed.

(** Reading [model_id] comes first: where the attribute is missing, a
    query with a row to render raises. *)
Lemma get_events_since_undeclared since limit db e0 events :
  (∀ e, ∃ x, model_id e = Raise x) →
  take limit (newer since (audit_events (flushed db))) = e0 :: events →
  ∃ x, get_events_since since limit db = (Raise x, db).
Proof.
  intros Hmissing Hsome. unfold Dashboard.get_events_since.
  unfold mbind at 1, M_bind at 1, get_events.
  fold (newer since (audit_events (flushed db))). rewrite Hsome.
  destruct (Hmissing e0) as [x Hx]. exists x.
  unfold Dashboard._get_model_info_map.
  unfold mbind at 1, M_bind at 1.
  unfold mbind at 1, M_bind at 1, lift. simpl.
  unfold mbind at 1, outcome_bind. by rewrite Hx.
Qed.

(** X22. One poll of the feed, whatever the reads of [model_id], the select
    on the models and the metrics give.  When no row of the table passes
    the watermark the poll is silent and the watermark stays, and a poll is
    silent only then.  An update carries at most 50 events, each a row of
    the table that passes the watermark, and every such row when they are
    at most 50.  A poll raises only when some row passes the watermark; and
    where events have no attribute [model_id], as [models/database.py]
    declares them, a poll raises whenever some row passes: the feed then
    never sends an event. *)
Theorem poll_delivery store w :
  ((∀ e, e ∈ audit_events store → ¬ after_watermark w e) →
   poll store w = Return (None, w))
  ∧ (∀ w', poll store w = Return (None, w') →
       ∀ e, e ∈ audit_events store → ¬ after_watermark w e)
  ∧ (∀ m w', poll store w = Return (Some m, w') →
       (length (Dashboard.events m) ≤ 50)%nat
       ∧ (∀ d, d ∈ Dashboard.events m →
            Dashboard.row d ∈ audit_events store
            ∧ after_watermark w (Dashboard.row d))
       ∧ ((length (filter (after_watermark w) (audit_events store)) ≤ 50)%nat →
          ∀ e, e ∈ audit_events store → after_watermark w e →
               ∃ d, d ∈ Dashboard.events m ∧ Dashboard.row d = e))
  ∧ (∀ x, poll store w = Raise x →
       ∃ e, e ∈ audit_events store ∧ after_watermark w e)
  ∧ ((∀ e, ∃ x, model_id e = Raise x) →
     (∃ e, e ∈ audit_events store ∧ after_watermark w e) →
     ∃ x, poll store w = Raise x).
Proof.
  assert (Hsilent : (∀ e, e ∈ audit_events store → ¬ after_watermark w e) →
            poll store w = Return (None, w)).
  { intros Hnone%newest_none. rewrite poll_run.
    by rewrite get_events_since_none. }
  split; [done|]. split; [|split; [|split]].
  - intros w' Hpoll. apply newest_none.
    apply poll_answer in Hpoll. unfold delivered in Hpoll. simpl in Hpoll.
    by apply Forall2_nil_inv_r in Hpoll.
  - intros m w' Hpoll. apply poll_answer in Hpoll.
    unfold delivered in Hpoll. simpl in Hpoll. split; [|split].
    + rewrite <- (Forall2_length _ _ _ Hpoll), length_take. lia.
    + intros d Hd.
      destruct (Forall2_elem_of_right _ _ _ _ Hpoll Hd) as (e & He & [<- _]).
      apply subseteq_take, newer_elem in He. tauto.
    + intros Hfew e He Hafter.
      rewrite take_ge in Hpoll by (rewrite newer_length; lia).
      destruct (Forall2_elem_of_left _ _ _ e Hpoll) as (d & Hd & [Hrow _]);
        [by apply newer_elem|].
      by exists d.
  - intros x Hpoll.
    destruct (take 50 (newer w (audit_events store))) as [|e0 events]
      eqn:Hnewest.
    + pose proof (Hsilent (proj1 (newest_none _ _) Hnewest)). congruence.
    + exists e0. apply newer_elem. apply (subseteq_take 50).
      rewrite Hnewest. apply elem_of_cons. by left.
  - intros Hmissing (e & He & Hafter).
    destruct (take 50 (newer w (audit_events store))) as [|e0 events]
      eqn:Hnewest.
    + by destruct (proj1 (newest_none w (audit_events store)) Hnewest e).
    + destruct (get_events_since_undeclared w 50 (Sample.fresh store) e0
                  events Hmissing Hnewest) as [x Hquery].
      exists x. by rewrite poll_run, Hquery.
Qed.

(** After a poll that returns, the watermark is at or above every row the
    table held. *)
Lemma poll_covers store w r e :
  poll store w = Return r →
  e ∈ audit_events store →
  ∃ w1, r.2 = Some w1 ∧ instant (AuditEvent.timestamp e) ≤ instant w1.
Proof.
  intros Hpoll He.
  pose proof (poll_answer store w r Hpoll) as Hanswer.
  pose proof (newer_elem w (audit_events store) e) as Helem.
  pose proof (newer_sorted w (audit_events store)) as Hsorted.
  destruct r as [[m|] w']; unfold delivered in Hanswer; simpl in *.
  - destruct (poll_sends _ _ _ _ _ _ _ Hpoll)
      as (d & rest & Hev & _ & -> & _).
    rewrite Hev in Hanswer. eexists. split; [done|].
    destruct (newer w (audit_events store)) as [|e0 sorted] eqn:Hnewer;
      [inversion Hanswer|].
    simpl in Hanswer. apply Forall2_cons_1 in Hanswer as [[_ Hd] _].
    change (instant (AuditEvent.timestamp e) ≤ stamp d). rewrite Hd.
    apply StronglySorted_cons in Hsorted as [Hall _].
    destruct (decide (after_watermark w e)) as [Hafter|Hnot].
    + assert (e ∈ e0 :: sorted) as [->|Hin]%elem_of_cons
        by (apply Helem; done); [lia|].
      apply (proj1 (Forall_forall _ _) Hall) in Hin.
      unfold EventQuery.desc, EventQuery.asc in Hin. simpl in Hin. lia.
    + destruct w as [w0|]; simpl in Hnot; [|done].
      assert (instant w0 < instant (AuditEvent.timestamp e0)); [|lia].
      apply (newer_after w0 (audit_events store)).
      rewrite Hnewer. apply elem_of_cons. by left.
  - apply poll_silent in Hpoll as ->.
    apply Forall2_nil_inv_r in Hanswer.
    pose proof (proj1 (newest_none _ _) Hanswer e He) as Hnot.
    destruct w as [w0|]; simpl in Hnot; [|done].
    exists w0. split; [done|]. lia.
Qed.

(** What the loop lists are turns that returned. *)
Lemma poll_loop_lookup stores : ∀ w j rj,
  poll_loop stores w !! j = Some rj →
  ∃ store w', poll store w' = Return rj.
Proof.
  induction stores as [|store stores IH]; intros w j rj Hj; [done|].
  simpl in Hj. destruct (poll store w) as [r|x] eqn:Hpoll; [|done].
  destruct j as [|j]; simpl in Hj.
  - injection Hj as <-. by exists store, w.
  - by apply IH in Hj.
Qed.

(** X23. On one connection, whatever the reads of [model_id], the select on
    the models and the metrics give: every event a poll delivers is
    strictly newer than every row the table held at an earlier poll, or
    when the connection opened, whether that row was sent then or not.  So
    a row that a poll left out, beyond its 50 or not above the watermark,
    is not sent by any later poll. *)
Theorem live_feed_never_later :
  (∀ stores w i j store_i rj e d,
     (i < j)%nat →
     stores !! i = Some store_i →
     e ∈ audit_events store_i →
     poll_loop stores w !! j = Some rj →
     d ∈ delivered rj →
     instant (AuditEvent.timestamp e)
     < instant (AuditEvent.timestamp (Dashboard.row d))
     ∧ Dashboard.row d ≠ e)
  ∧ (∀ store stores j rj e d,
       e ∈ audit_events store →
       (websocket_endpoint store stores).2 !! j = Some rj →
       d ∈ delivered rj →
       instant (AuditEvent.timestamp e)
       < instant (AuditEvent.timestamp (Dashboard.row d))
       ∧ Dashboard.row d ≠ e).
Proof.
  assert (Hne : ∀ stores w j rj e d,
            poll_loop stores w !! j = Some rj → d ∈ delivered rj →
            instant (AuditEvent.timestamp e) < stamp d →
            instant (AuditEvent.timestamp e)
            < instant (AuditEvent.timestamp (Dashboard.row d))
            ∧ Dashboard.row d ≠ e).
  { intros stores w j rj e d Hj Hd Hlt.
    apply poll_loop_lookup in Hj as (store & w' & Hpoll).
    apply poll_answer in Hpoll.
    destruct (Forall2_elem_of_right _ _ _ _ Hpoll Hd) as (e' & _ & [<- Hst]).
    rewrite Hst in Hlt. split; [done|]. intros Heq.
    rewrite Heq in Hlt. lia. }
  split.
  - induction stores as [|store stores IH];
      intros w i j store_i rj e d Hij Hi He Hj Hd; [done|].
    destruct j as [|j]; [lia|].
    assert (Hstep : ∃ r, poll store w = Return r
              ∧ poll_loop stores r.2 !! j = Some rj).
    { simpl in Hj. destruct (poll store w) as [r|x]; [|done].
      by exists r. }
    destruct Hstep as (r & Hpoll & Hrest).
    destruct i as [|i]; simpl in Hi.
    + injection Hi as <-. apply (Hne stores r.2 j rj); [done|done|].
      destruct (poll_covers store w r e Hpoll He) as (w1 & Hw1 & Hle).
      pose proof (poll_loop_after _ _ _ stores _ w1 j rj Hw1 Hrest d Hd).
      lia.
    + apply (IH r.2 i j store_i rj); try done. lia.
  - intros store stores j rj e d He. unfold Dashboard.websocket_endpoint.
    destruct (Dashboard.open_feed _ _ _ store) as [[first w]|x] eqn:Hopen;
      [|done].
    apply open_feed_return in Hopen as [-> Hanswer].
    simpl. intros Hj Hd. apply (Hne _ _ _ _ e d Hj Hd).
    pose proof (newer_elem None (audit_events store) e) as Helem.
    pose proof (newer_sorted None (audit_events store)) as Hsorted.
    destruct (newer None (audit_events store)) as [|e0 sorted].
    { assert (e ∈ @nil AuditEvent.t) as Hnil by (apply Helem; done).
      by apply elem_of_nil in Hnil. }
    simpl in Hanswer.
    destruct (Dashboard.events first) as [|d0 rest]; [inversion Hanswer|].
    apply Forall2_cons_1 in Hanswer as [[_ Hd0] _].
    pose proof (poll_loop_after _ _ _ stores _ _ j rj eq_refl Hj d Hd)
      as Hlt.
    change (stamp d0 < stamp d) in Hlt. rewrite Hd0 in Hlt.
    apply StronglySorted_cons in Hsorted as [Hall _].
    assert (e ∈ e0 :: sorted) as [->|Hin]%elem_of_cons
      by (apply Helem; done); [lia|].
    apply (proj1 (Forall_forall _ _) Hall) in Hin.
    unfold EventQuery.desc, EventQuery.asc in Hin. simpl in Hin. lia.
Qed.

End feed_delivery.

(** With every [model_id] readable, a poll on three events without a
    watermark sends all three, rows of the table; with the attribute
    missing the same poll raises. *)
Lemma poll_delivery_witness :
  (∃ d, d ∈ [plain_dict (Sample.stored 2 (utc 30) None);
             plain_dict (Sample.stored 3 (utc 20) None);
             plain_dict (Sample.stored 1 (utc 10) None)]
        ∧ Dashboard.row d = Sample.stored 1 (utc 10) None)
  ∧ ∃ x, Dashboard.poll undeclared_model_id no_models no_metrics
           (flushed Sample.three_events) None = Raise x.
Proof.
  split.
  - refine (proj2 (proj2 (proj1 (proj2 (proj2
              (poll_delivery declared_model_id no_models no_metrics
                 (flushed Sample.three_events) None)))
              {| Dashboard.type := Dashboard.update;
                 Dashboard.metrics := tt;
                 Dashboard.events :=
                   [plain_dict (Sample.stored 2 (utc 30) None);
                    plain_dict (Sample.stored 3 (utc 20) None);
                    plain_dict (Sample.stored 1 (utc 10) None)] |}
              (Some (utc 30)) _))
              _ (Sample.stored 1 (utc 10) None) _ I).
    + vm_compute. reflexivity.
    + vm_compute. lia.
    + simpl. rewrite !elem_of_cons. auto.
  - refine (proj2 (proj2 (proj2 (proj2
              (poll_delivery undeclared_model_id no_models no_metrics
                 (flushed Sample.three_events) None)))) _ _).
    + intros e. by eexists.
    + exists (Sample.stored 1 (utc 10) None). split; [|exact I].
      simpl. apply elem_of_cons. by left.
Defined.

Lemma live_feed_never_later_witness :
  instant (AuditEvent.timestamp (Sample.stored 1 (utc 10) None))
  < instant (AuditEvent.timestamp
               (Dashboard.row (plain_dict (Sample.stored 4 (utc 40) None))))
  ∧ Dashboard.row (plain_dict (Sample.stored 4 (utc 40) None))
    ≠ Sample.stored 1 (utc 10) None.
Proof.
  refine (proj1 (live_feed_never_later declared_model_id no_models no_metrics)
            [flushed Sample.three_events;
             {| audit_events :=
                  Sample.stored 4 (utc 40) None
                    :: audit_events (flushed Sample.three_events);
                sessions := ∅ |}]
            None 0%nat 1%nat (flushed Sample.three_events)
            (Some {| Dashboard.type := Dashboard.update;
                     Dashboard.metrics := tt;
                     Dashboard.events :=
                       [plain_dict (Sample.stored 4 (utc 40) None)] |},
             Some (utc 40))
            (Sample.stored 1 (utc 10) None)
            (plain_dict (Sample.stored 4 (utc 40) None))
            _ eq_refl _ _ _).
  - lia.
  - simpl. apply elem_of_cons. by left.
  - vm_compute. reflexivity.
  - unfold delivered. simpl. apply elem_of_cons. by left.
Defined.

(** ** [truncate_value] *)

Lemma string_length_app (a b : string) :
  String.length (a +:+ b) = (String.length a + String.length b)%nat.
Proof. induction a as [|c a IH]; simpl; [done|]. by rewrite IH. Qed.

Lemma substring_0_length (n : nat) : ∀ s : string,
  (n ≤ String.length s)%nat →
  String.length (String.substring 0 n s) = n.
Proof.
  induction n as [|n IH]; intros [|c s] Hn; simpl in *; try done; try lia.
  rewrite IH; [done|lia].
Qed.

Lemma substring_0_app (a b : string) :
  String.substring 0 (String.length a) (a +:+ b) = a.
Proof. induction a as [|c a IH]; simpl; [by destruct b|]. by rewrite IH. Qed.

Lemma substring_0_all (b : string) :
  String.substring 0 (String.length b) b = b.
Proof. induction b as [|c b IH]; simpl; [done|]. by rewrite IH. Qed.

Lemma substring_skip_app (a b : string) :
  String.substring (String.length a) (String.length b) (a +:+ b) = b.
Proof.
  induction a as [|c a IH]; simpl; [apply substring_0_all|done].
Qed.

(** X24. [truncate_value] with a length bound [max_length] that is not
    negative.  No value stays no value; a string within the bound comes back
    as it is; a longer one comes back as its first [max_length] characters
    followed by three dots, so [max_length + 3] characters long, which is
    longer than the string itself when that exceeds the bound by one or two.
    Truncating the result again changes nothing. *)
Theorem truncate_value_bounds (value : option string) (max_length : nat) :
  (truncate_value value max_length = None ↔ value = None)
  ∧ ∀ s, value = Some s →
      ∃ r, truncate_value value max_length = Some r
           ∧ ((String.length s ≤ max_length)%nat → r = s)
           ∧ ((max_length < String.length s)%nat →
              String.length r = (max_length + 3)%nat
              ∧ String.substring 0 max_length r
                = String.substring 0 max_length s
              ∧ String.substring max_length 3 r = "...")
           ∧ truncate_value (Some r) max_length = Some r.
Proof.
  split.
  - destruct value as [s|]; simpl; [|done].
    by case_bool_decide.
  - intros s ->. simpl. case_bool_decide as Hlen.
    + exists s. split; [done|]. split; [done|]. split; [lia|].
      by rewrite bool_decide_true.
    + assert (Hcut : String.length (String.substring 0 max_length s)
                     = max_length) by (apply substring_0_length; lia).
      eexists. split; [done|]. split; [lia|].
      assert (Hprefix :
        String.substring 0 max_length
          (String.substring 0 max_length s +:+ "...")
        = String.substring 0 max_length s).
      { rewrite <- Hcut at 1. apply substring_0_app. }
      split.
      * intros _. split; [|split].
        -- rewrite string_length_app, Hcut. simpl. lia.
        -- done.
        -- rewrite <- Hcut at 1.
           apply (substring_skip_app _ "...").
      * rewrite bool_decide_false, Hprefix; [done|].
        rewrite string_length_app, Hcut. simpl. lia.
Qed.

(** ** [get_event] on a table with unique ids *)

(** X25. On a table whose event ids are pairwise distinct, [get_event]
    finds the row stored under an id, rendered with an aware timestamp, and
    finds nothing under an id no row carries; it leaves the session as it
    is, and the error of several rows under one id does not occur. *)
Theorem get_event_lookup event_id db :
  NoDup (event_ids (flushed db)) →
  (∀ e, e ∈ audit_events (flushed db) →
        AuditEvent.event_id e = event_id →
        EventReadService.get_event event_id db
        = (Return (OneRow (EventReadService.model_validate e)), db))
  ∧ (event_id ∉ event_ids (flushed db) →
     EventReadService.get_event event_id db = (Return NoRow, db))
  ∧ EventReadService.get_event event_id db
    ≠ (Return MultipleResultsFound, db).
Proof.
  intros Hnd. unfold event_ids in *.
  assert (Hfound : ∀ e, e ∈ audit_events (flushed db) →
            AuditEvent.event_id e = event_id →
            EventReadService.get_event event_id db
            = (Return (OneRow (EventReadService.model_validate e)), db)).
  { intros e He <-.
    unfold EventReadService.get_event, EventReads.get_by_id. run.
    by rewrite filter_event_id_one. }
  assert (Hmissing : event_id ∉ AuditEvent.event_id <$> audit_events (flushed db) →
            EventReadService.get_event event_id db = (Return NoRow, db)).
  { intros Hout.
    unfold EventReadService.get_event, EventReads.get_by_id. run.
    by rewrite filter_event_id_none. }
  split; [done|]. split; [done|].
  destruct (decide (event_id ∈ AuditEvent.event_id <$> audit_events (flushed db)))
    as [Hin|Hout].
  - apply list_elem_of_fmap in Hin as (e & Hid & He).
    rewrite (Hfound e He (eq_sym Hid)). discriminate.
  - rewrite (Hmissing Hout). discriminate.
Qed.

Lemma get_event_lookup_witness :
  EventReadService.get_event 7 Sample.three_events
  = (Return NoRow, Sample.three_events).
Proof.
  refine (proj1 (proj2 (get_event_lookup 7 Sample.three_events _)) _).
  - apply (bool_decide_unpack _). vm_compute. exact I.
  - apply (bool_decide_unpack _). vm_compute. exact I.
Defined.
